(** * send-media: signalling codec, connection controller and transfer engine

    A shallow embedding of [src/lib/utils.ts] (the signalling codec) and of
    [src/hooks/useWebRTC.ts] (the [useWebRTC] hook: connection state machine,
    receive handler and send loop), with the properties of the specification
    stated and proved against it.

    Conventions of the embedding.
    - A JavaScript string is a Rocq [string]: a sequence of code units below
      256.  SDP bodies, base64 text and the JSON control messages are ASCII.
    - A [Uint8Array] is a [list Byte.byte].
    - JavaScript numbers that hold byte counts, chunk counts and timestamps
      are integers ([Z]); a JavaScript number holds an integer below [2^53]
      exactly.  Where the code divides, multiplies or subtracts them
      ([progress], [speed], [eta]), the operation is the one of IEEE 754
      binary64, taken from [SpecFloat] of the Standard Library and applied
      to the doubles nearest to the integers.
    - React state ([useState]) and refs ([useRef]) are fields of one record
      [world]; every callback of the hook is a function on [world].  The
      peers created by [new Peer] live in a store, and [peerRef] and the send
      loop hold handles into it.
    - The functions of the browser and of the libraries [pako] and
      [simple-peer] that are not part of the repository are either written
      out from their specification ([btoa], [atob], [trim]) or taken as
      methods of the class [Libraries] ([pako.deflate], [pako.inflate],
      [JSON.stringify], [JSON.parse], [TextDecoder.decode], and the text
      that the engine prints for a built-in function). *)

From Stdlib Require Import ZArith NArith List String Ascii Bool Lia SpecFloat.
From stdpp Require Import base gmap strings list pretty.

Set Warnings "-register-all".

Local Open Scope string_scope.
Local Open Scope Z_scope.
Local Open Scope list_scope.

#[local] Arguments String.append !_ _ / : simpl nomatch.

(* ================================================================= *)
(** ** JavaScript strings *)

Module Js.

Definition CR : ascii := ascii_of_nat 13.
Definition LF : ascii := ascii_of_nat 10.
Definition CRLF : string := String CR (String LF EmptyString).

Definition is_empty (s : string) : bool :=
  match s with EmptyString => true | String _ _ => false end.

(** White space and line terminators of ECMAScript, as far as they are
    code units below 256: TAB, LF, VT, FF, CR, SPACE and NBSP. *)
Definition is_ws (c : ascii) : bool :=
  let n := N_of_ascii c in
  ((9 <=? n) && (n <=? 13) || (n =? 32) || (n =? 160))%N.

Fixpoint trimStart (s : string) : string :=
  match s with
  | EmptyString => EmptyString
  | String c r => if is_ws c then trimStart r else s
  end.

Fixpoint trimEnd (s : string) : string :=
  match s with
  | EmptyString => EmptyString
  | String c r =>
      let r' := trimEnd r in
      if is_ws c && is_empty r' then EmptyString else String c r'
  end.

(** [String.prototype.trim] *)
Definition trim (s : string) : string := trimEnd (trimStart s).

(** [s.startsWith(p)] *)
Definition startsWith (s p : string) : bool := String.prefix p s.

(** [s.endsWith(p)] *)
Fixpoint endsWith (s p : string) : bool :=
  String.eqb s p ||
  match s with
  | EmptyString => false
  | String _ r => endsWith r p
  end.

(** [s.includes(p)] *)
Fixpoint includes (s p : string) : bool :=
  String.prefix p s ||
  match s with
  | EmptyString => false
  | String _ r => includes r p
  end.

Definition cons_head (c : ascii) (ls : list string) : list string :=
  match ls with
  | [] => [String c EmptyString]
  | l :: ls' => String c l :: ls'
  end.

(** [s.split(/\r?\n/)]: the pieces between the matches of the pattern, a
    match being a line feed together with the carriage return before it. *)
Fixpoint split_newlines (s : string) : list string :=
  match s with
  | EmptyString => [EmptyString]
  | String c r =>
      if Ascii.eqb c LF then EmptyString :: split_newlines r
      else
        match r with
        | String c2 r2 =>
            if Ascii.eqb c CR && Ascii.eqb c2 LF
            then EmptyString :: split_newlines r2
            else cons_head c (split_newlines r)
        | EmptyString => cons_head c (split_newlines r)
        end
  end.

(** [s.replace(/\r?\n/g, '\r\n')] *)
Fixpoint replace_newlines (s : string) : string :=
  match s with
  | EmptyString => EmptyString
  | String c r =>
      if Ascii.eqb c LF then String CR (String LF (replace_newlines r))
      else
        match r with
        | String c2 r2 =>
            if Ascii.eqb c CR && Ascii.eqb c2 LF
            then String CR (String LF (replace_newlines r2))
            else String c (replace_newlines r)
        | EmptyString => String c (replace_newlines r)
        end
  end.

(** [lines.join(sep)] *)
Definition join (sep : string) (ls : list string) : string :=
  String.concat sep ls.

End Js.

(* ================================================================= *)
(** ** SDP minification ([src/lib/utils.ts]) *)

Definition isMediaJunk (line : string) : bool :=
  Js.startsWith line "a=rtpmap" ||
  Js.startsWith line "a=fmtp" ||
  Js.startsWith line "a=rtcp-fb" ||
  Js.startsWith line "a=ssrc" ||
  Js.startsWith line "a=extmap" ||
  Js.startsWith line "a=msid:".

(** The callback of [filter] in [minifySDP]. *)
Definition keepLine (line : string) : bool :=
  if Js.is_empty line then false
  else if Js.startsWith line "a=mid:" || Js.startsWith line "a=msid-semantic:"
       then true
       else negb (isMediaJunk line).

Definition minifySDP (sdp : string) : string :=
  Js.join Js.CRLF (List.filter keepLine (map Js.trim (Js.split_newlines sdp)))
  +:+ Js.CRLF.

Definition restoreSDP (minified : string) : string :=
  if Js.is_empty minified then EmptyString
  else
    let s := Js.replace_newlines minified in
    if Js.endsWith s Js.CRLF then s else s +:+ Js.CRLF.

(* ================================================================= *)
(** ** Base64: the browser's [btoa] and [atob] *)

Module Base64.

Definition alphabet : list ascii :=
  list_ascii_of_string
    "ABCDEFGHIJKLMNOPQRSTUVWXYZabcdefghijklmnopqrstuvwxyz0123456789+/".

Definition pad_char : ascii := "="%char.

Definition sextet_char (n : N) : ascii := nth (N.to_nat n) alphabet pad_char.

Fixpoint index_of (c : ascii) (l : list ascii) (i : N) : option N :=
  match l with
  | [] => None
  | x :: r => if Ascii.eqb c x then Some i else index_of c r (N.succ i)
  end.

Definition char_sextet (c : ascii) : option N := index_of c alphabet 0%N.

Definition code (c : ascii) : N := N_of_ascii c.
Definition byte_char (n : N) : ascii := ascii_of_N n.

(** Three octets give four sextets; one or two trailing octets give two or
    three. *)
Fixpoint sextets (l : list ascii) : list N :=
  match l with
  | a :: b :: c :: r =>
      let n := (code a * 65536 + code b * 256 + code c)%N in
      (n / 262144 :: (n / 4096) mod 64 :: (n / 64) mod 64 :: n mod 64
         :: sextets r)%N
  | [a; b] =>
      let n := (code a * 65536 + code b * 256)%N in
      [n / 262144; (n / 4096) mod 64; (n / 64) mod 64]%N
  | [a] =>
      let n := (code a * 65536)%N in
      [n / 262144; (n / 4096) mod 64]%N
  | [] => []
  end.

Definition padding (len : nat) : list ascii :=
  match (len mod 3)%nat with
  | 1%nat => [pad_char; pad_char]
  | 2%nat => [pad_char]
  | _ => []
  end.

(** [btoa] on a binary string (every code unit is below 256 in this
    embedding, so the [InvalidCharacterError] of the browser cannot arise). *)
Definition btoa (s : string) : string :=
  let l := list_ascii_of_string s in
  string_of_list_ascii (map sextet_char (sextets l) ++ padding (length l)).

Fixpoint octets (l : list N) : list ascii :=
  match l with
  | s1 :: s2 :: s3 :: s4 :: r =>
      let n := (s1 * 262144 + s2 * 4096 + s3 * 64 + s4)%N in
      (byte_char (n / 65536) :: byte_char ((n / 256) mod 256)
         :: byte_char (n mod 256) :: octets r)%N
  | [s1; s2; s3] =>
      let n := (s1 * 262144 + s2 * 4096 + s3 * 64)%N in
      [byte_char (n / 65536); byte_char ((n / 256) mod 256)]%N
  | [s1; s2] =>
      let n := (s1 * 262144 + s2 * 4096)%N in
      [byte_char (n / 65536)]%N
  | _ => []
  end.

(** ASCII white space of the forgiving-base64 decoder: TAB, LF, FF, CR and
    SPACE. *)
Definition is_ascii_ws (c : ascii) : bool :=
  let n := code c in
  ((n =? 9) || (n =? 10) || (n =? 12) || (n =? 13) || (n =? 32))%N.

Definition is_pad (c : ascii) : bool := Ascii.eqb c pad_char.

(** When the length is a multiple of four, one or two trailing [=] are
    removed. *)
Definition strip_padding (d : list ascii) : list ascii :=
  if (length d mod 4 =? 0)%nat then
    match rev d with
    | c1 :: c2 :: r =>
        if is_pad c1 then (if is_pad c2 then rev r else rev (c2 :: r)) else d
    | [c1] => if is_pad c1 then [] else d
    | [] => d
    end
  else d.

Fixpoint chars_sextets (d : list ascii) : option (list N) :=
  match d with
  | [] => Some []
  | c :: r =>
      match char_sextet c, chars_sextets r with
      | Some n, Some ns => Some (n :: ns)
      | _, _ => None
      end
  end.

(** [atob]: [None] stands for the [InvalidCharacterError] it throws. *)
Definition atob (s : string) : option string :=
  let d := List.filter (fun c => negb (is_ascii_ws c)) (list_ascii_of_string s) in
  let d := strip_padding d in
  if (length d mod 4 =? 1)%nat then None
  else match chars_sextets d with
       | None => None
       | Some sx => Some (string_of_list_ascii (octets sx))
       end.

End Base64.

(* ================================================================= *)
(** ** JSON values and JavaScript objects *)

(** The values that [JSON.parse] returns.  A number is an integer here: the
    protocol carries byte counts, chunk counts and timestamps. *)
Inductive json : Type :=
  | JNull
  | JBool (b : bool)
  | JNum (n : Z)
  | JStr (s : string)
  | JArr (l : list json)
  | JObj (fields : list (string * json)).

(** An object is the list of its own enumerable properties in insertion
    order, as [Object.entries] lists them. *)
Definition object : Type := list (string * json).

Fixpoint obj_get (k : string) (o : object) : option json :=
  match o with
  | [] => None
  | (k', v) :: r => if String.eqb k k' then Some v else obj_get k r
  end.

(** [o[k] = v]: an existing property keeps its place, a new one is added at
    the end. *)
Fixpoint obj_set (k : string) (v : json) (o : object) : object :=
  match o with
  | [] => [(k, v)]
  | (k', v') :: r =>
      if String.eqb k k' then (k, v) :: r else (k', v') :: obj_set k v r
  end.

(** [msg.k] on any value: only objects have the properties read here. *)
Definition field (k : string) (j : json) : option json :=
  match j with
  | JObj o => obj_get k o
  | _ => None
  end.

(** Truthiness, as [if (v)] and [v || w] test it. *)
Definition truthy (j : json) : bool :=
  match j with
  | JNull => false
  | JBool b => b
  | JNum n => negb (n =? 0)
  | JStr s => negb (Js.is_empty s)
  | JArr _ | JObj _ => true
  end.

(** What a callback throws: the [message] of the [Error]. *)
Inductive result (A : Type) : Type :=
  | Ok (a : A)
  | Throw (message : string).
Arguments Ok {A} a.
Arguments Throw {A} message.

(* ================================================================= *)
(** ** A reference instance of the library functions

    The theorems of this file hold for every [pako.deflate], [pako.inflate],
    [JSON.stringify], [JSON.parse] and [TextDecoder.decode].  To run the model
    on concrete inputs, this module gives one instance: JSON text for flat
    objects whose values are strings or integers, the identity as a
    (stored, uncompressed) deflate, and the byte-to-code-unit text decoder. *)

Module Reference.

Definition hex_digit (n : N) : ascii :=
  nth (N.to_nat n) (list_ascii_of_string "0123456789abcdef") "0"%char.

Definition hex_value (c : ascii) : option N :=
  Base64.index_of c (list_ascii_of_string "0123456789abcdef") 0%N.

Definition quote_char : ascii := ascii_of_nat 34.
Definition backslash : ascii := ascii_of_nat 92.

(** The escape of one code unit in a JSON string literal. *)
Definition escape_char (c : ascii) : string :=
  let n := N_of_ascii c in
  if (n =? 34)%N then String backslash (String quote_char EmptyString)
  else if (n =? 92)%N then String backslash (String backslash EmptyString)
  else if (n =? 8)%N then String backslash "b"
  else if (n =? 9)%N then String backslash "t"
  else if (n =? 10)%N then String backslash "n"
  else if (n =? 12)%N then String backslash "f"
  else if (n =? 13)%N then String backslash "r"
  else if (n <? 32)%N then
    String backslash
      ("u00" +:+ String (hex_digit (n / 16)) (String (hex_digit (n mod 16)) EmptyString))
  else String c EmptyString.

Fixpoint escape (s : string) : string :=
  match s with
  | EmptyString => EmptyString
  | String c r => escape_char c +:+ escape r
  end.

Definition quote (s : string) : string :=
  String quote_char (escape s +:+ String quote_char EmptyString).

Fixpoint digits (fuel : nat) (n : N) (acc : string) : string :=
  match fuel with
  | O => acc
  | S fuel' =>
      let acc' := String (hex_digit (n mod 10)) acc in
      if (n <? 10)%N then acc' else digits fuel' (n / 10) acc'
  end.

Definition number (z : Z) : string :=
  let n := Z.to_N (Z.abs z) in
  let d := digits (S (N.to_nat (N.log2 n))) n EmptyString in
  if z <? 0 then String "-" d else d.

Definition value (j : json) : string :=
  match j with
  | JStr s => quote s
  | JNum n => number n
  | JBool true => "true"
  | JBool false => "false"
  | _ => "null"
  end.

Definition member (kv : string * json) : string :=
  quote (fst kv) +:+ String ":" (value (snd kv)).

Definition JSON_stringify (j : json) : string :=
  match j with
  | JObj o => String "{" (Js.join "," (map member o) +:+ "}")
  | _ => value j
  end.

(** The text after an opening quote: the string it denotes and what follows
    the closing quote. *)
Fixpoint unquote (s : string) : option (string * string) :=
  match s with
  | EmptyString => None
  | String c r =>
      if Ascii.eqb c quote_char then Some (EmptyString, r)
      else if Ascii.eqb c backslash then
        match r with
        | EmptyString => None
        | String e r2 =>
            let continue (d : ascii) (rest : option (string * string)) :=
              match rest with
              | Some (t, k) => Some (String d t, k)
              | None => None
              end in
            if Ascii.eqb e "u" then
              match r2 with
              | String h1 (String h2 (String h3 (String h4 r3))) =>
                  match hex_value h1, hex_value h2, hex_value h3, hex_value h4 with
                  | Some 0%N, Some 0%N, Some a, Some b =>
                      continue (ascii_of_N (a * 16 + b)) (unquote r3)
                  | _, _, _, _ => None
                  end
              | _ => None
              end
            else if Ascii.eqb e "b" then continue (ascii_of_nat 8) (unquote r2)
            else if Ascii.eqb e "t" then continue (ascii_of_nat 9) (unquote r2)
            else if Ascii.eqb e "n" then continue (ascii_of_nat 10) (unquote r2)
            else if Ascii.eqb e "f" then continue (ascii_of_nat 12) (unquote r2)
            else if Ascii.eqb e "r" then continue (ascii_of_nat 13) (unquote r2)
            else if Ascii.eqb e quote_char || Ascii.eqb e backslash || Ascii.eqb e "/"
            then continue e (unquote r2)
            else None
        end
      else if (N_of_ascii c <? 32)%N then None
      else
        match unquote r with
        | Some (t, k) => Some (String c t, k)
        | None => None
        end
  end.

Definition digit_value (c : ascii) : option N :=
  Base64.index_of c (list_ascii_of_string "0123456789") 0%N.

(** The digits at the head of the text, as a number, and what follows. *)
Fixpoint unnumber (s : string) (acc : N) : N * string :=
  match s with
  | EmptyString => (acc, s)
  | String c r =>
      match digit_value c with
      | Some d => unnumber r (acc * 10 + d)%N
      | None => (acc, s)
      end
  end.

Definition unvalue (s : string) : option (json * string) :=
  match s with
  | EmptyString => None
  | String c r =>
      if Ascii.eqb c quote_char then
        match unquote r with
        | Some (t, k) => Some (JStr t, k)
        | None => None
        end
      else if Ascii.eqb c "-" then
        match r with
        | String d _ =>
            match digit_value d with
            | Some _ => let '(n, k) := unnumber r 0%N in Some (JNum (- Z.of_N n), k)
            | None => None
            end
        | EmptyString => None
        end
      else
        match digit_value c with
        | Some _ => let '(n, k) := unnumber s 0%N in Some (JNum (Z.of_N n), k)
        | None =>
            if String.prefix "true" s then Some (JBool true, String.substring 4 (String.length s - 4) s)
            else if String.prefix "false" s then Some (JBool false, String.substring 5 (String.length s - 5) s)
            else if String.prefix "null" s then Some (JNull, String.substring 4 (String.length s - 4) s)
            else None
        end
  end.

(** The members of an object after its opening brace. *)
Fixpoint unmembers (fuel : nat) (s : string) : option object :=
  match fuel with
  | O => None
  | S fuel' =>
      match s with
      | String q r =>
          if Ascii.eqb q quote_char then
            match unquote r with
            | Some (k, String colon r2) =>
                if Ascii.eqb colon ":" then
                  match unvalue r2 with
                  | Some (v, String sep r3) =>
                      if Ascii.eqb sep "," then
                        match unmembers fuel' r3 with
                        | Some o =>
                            (* a repeated key keeps its first place and its
                               last value *)
                            match obj_get k o with
                            | Some v' =>
                                Some ((k, v') ::
                                      List.filter (fun kv => negb (String.eqb k (fst kv))) o)
                            | None => Some ((k, v) :: o)
                            end
                        | None => None
                        end
                      else if Ascii.eqb sep "}" then
                        match r3 with
                        | EmptyString => Some [(k, v)]
                        | _ => None
                        end
                      else None
                  | _ => None
                  end
                else None
            | _ => None
            end
          else None
      | EmptyString => None
      end
  end.

(** [JSON.parse] on the texts above; [None] stands for a [SyntaxError]. *)
Definition JSON_parse (s : string) : option json :=
  match s with
  | String c r =>
      if Ascii.eqb c "{" then
        if String.eqb r "}" then Some (JObj [])
        else
          match unmembers (String.length r) r with
          | Some o => Some (JObj o)
          | None => None
          end
      else
        match unvalue s with
        | Some (v, EmptyString) => Some v
        | _ => None
        end
  | EmptyString => None
  end.

(** A stored (uncompressed) stream: the bytes of the text. *)
Definition deflate (s : string) : list Byte.byte := list_byte_of_string s.
Definition inflate (b : list Byte.byte) : option string := Some (string_of_list_byte b).

(** Each byte is one code unit. *)
Definition TextDecoder_decode (b : list Byte.byte) : string := string_of_list_byte b.

(** The text of a built-in function after the keyword [function], as V8
    prints it; [Object.prototype.constructor] is the function [Object]. *)
Definition native_function (k : string) : string :=
  " " +:+ (if String.eqb k "constructor" then "Object" else k)
  +:+ "() { [native code] }".

End Reference.


(* ================================================================= *)
(** ** JavaScript numbers

    A number is an IEEE 754 double: [spec_float] with 53 bits of precision
    and the exponent bound 1024, and its operations round to nearest, ties
    to even. *)

Module Number.

Definition double : Type := spec_float.

Definition zero : double := S754_zero false.

(** The double nearest to an integer *)
Definition of_Z (z : Z) : double := binary_normalize 53 1024 z 0 false.

(** [x / y], [x * y], [x - y] and [x < y] *)
Definition div : double -> double -> double := SFdiv 53 1024.
Definition mul : double -> double -> double := SFmul 53 1024.
Definition sub : double -> double -> double := SFsub 53 1024.
Definition ltb : double -> double -> bool := SFltb.

End Number.

(** A number without a fraction, as [Math.round] returns it and as
    [progress] holds it: an integer (the negative zero reads as 0), [NaN],
    or an infinity. *)
Inductive jsnum : Type :=
  | Num (z : Z)
  | NaN
  | Infinity (negative : bool).

(** [Math.round(x)]: the integer nearest to [x], the greater one of two;
    for a finite [x = n * 2^e] it is the floor of [x + 1/2], taken
    exactly. *)
Definition Math_round (x : Number.double) : jsnum :=
  match x with
  | S754_zero _ => Num 0
  | S754_infinity s => Infinity s
  | S754_nan => NaN
  | S754_finite s m e =>
      let n := if s then Zneg m else Zpos m in
      match e with
      | Zneg k => Num ((2 * n + 2 ^ Zpos k) / 2 ^ (Zpos k + 1))
      | _ => Num (n * 2 ^ e)
      end
  end.

(** [Math.min(a, x)] for an integer [a] *)
Definition Math_min (a : Z) (x : jsnum) : jsnum :=
  match x with
  | Num z => Num (Z.min a z)
  | NaN => NaN
  | Infinity true => Infinity true
  | Infinity false => Num a
  end.

(* ================================================================= *)
(** ** The signalling codec ([src/lib/utils.ts]) *)

(** The library functions the hook calls:
    - [pako.deflate] of a string and [pako.inflate] to a string ([None] is
      the exception [inflate] throws on a stream it cannot read);
    - [JSON.stringify] and [JSON.parse] ([None] is the [SyntaxError]);
    - [new TextDecoder().decode];
    and one text that the JavaScript engine chooses:
    - [native_function k], what follows the keyword [function] in the
      string conversion of the built-in function that [Object.prototype]
      holds under the name [k] (the conversion has the form
      [function ... { [native code] }], its spacing is left to the
      engine). *)
Class Libraries : Type := {
  pako_deflate : string -> list Byte.byte;
  pako_inflate : list Byte.byte -> option string;
  JSON_stringify : json -> string;
  JSON_parse : string -> option json;
  TextDecoder_decode : list Byte.byte -> string;
  native_function : string -> string
}.

(** The reference instance. *)
Definition reference : Libraries :=
  {| pako_deflate := Reference.deflate;
     pako_inflate := Reference.inflate;
     JSON_stringify := Reference.JSON_stringify;
     JSON_parse := Reference.JSON_parse;
     TextDecoder_decode := Reference.TextDecoder_decode;
     native_function := Reference.native_function |}.

Section Hook.

Context {lib : Libraries}.

Definition KEY_MAP : list (string * string) := [("type", "t"); ("sdp", "s")].

Definition REV_KEY_MAP : list (string * string) :=
  map (fun kv => (snd kv, fst kv)) KEY_MAP.

Fixpoint lookup_key (k : string) (m : list (string * string)) : option string :=
  match m with
  | [] => None
  | (k', v) :: r => if String.eqb k k' then Some v else lookup_key k r
  end.

(** The names of the properties that a plain object inherits from
    [Object.prototype].  Each holds a function, except [__proto__], an
    accessor that reads as [Object.prototype] itself. *)
Definition Object_prototype : list string :=
  ["constructor"; "__defineGetter__"; "__defineSetter__"; "hasOwnProperty";
   "__lookupGetter__"; "__lookupSetter__"; "isPrototypeOf"; "propertyIsEnumerable";
   "toString"; "valueOf"; "__proto__"; "toLocaleString"].

(** The property key that the inherited value [Object.prototype[k]]
    converts to, for a name [k] of [Object.prototype]. *)
Definition inherited_key (k : string) : option string :=
  if String.eqb k "__proto__" then Some "[object Object]"
  else if existsb (String.eqb k) Object_prototype
  then Some ("function" +:+ native_function k)
  else None.

(** [M[k] || k] as a property key, for a key map [M]: a plain object whose
    own values are non-empty strings.  The lookup [M[k]] finds an own
    property first and an inherited one next; the inherited values are
    truthy, and as a property key they are their string conversion. *)
Definition map_key (m : list (string * string)) (k : string) : string :=
  match lookup_key k m with
  | Some v => v
  | None =>
      match inherited_key k with
      | Some text => text
      | None => k
      end
  end.

(** The loop [for (const [k, v] of Object.entries(o)) out[f(k)] = v]. *)
Definition rename_keys (f : string -> string) (o : object) : object :=
  fold_left (fun out kv => obj_set (f (fst kv)) (snd kv) out) o [].

(** [Object.entries]: [None] is the [TypeError] on [null]. *)
Definition entries (j : json) : option object :=
  match j with
  | JObj o => Some o
  | JArr l => Some (imap (fun i v => (pretty i, v)) l)
  | JStr s =>
      Some (imap (fun i c => (pretty i, JStr (String c EmptyString)))
              (list_ascii_of_string s))
  | JBool _ | JNum _ => Some []
  | JNull => None
  end.

(** [if (o.sdp && typeof o.sdp === 'string') o.sdp = f(o.sdp)] *)
Definition map_sdp (f : string -> string) (o : object) : object :=
  match obj_get "sdp" o with
  | Some (JStr sdp) =>
      if Js.is_empty sdp then o else obj_set "sdp" (JStr (f sdp)) o
  | _ => o
  end.

(** [encodeSignal].  Its [catch] branch is not reached: [JSON.stringify] and
    [pako.deflate] do not throw on the values of this embedding, and [btoa]
    is applied to a string of bytes. *)
Definition encodeSignal (data : object) : string :=
  let payload := map_sdp minifySDP data in
  let mapped := rename_keys (map_key KEY_MAP) payload in
  let json := JSON_stringify (JObj mapped) in
  let compressed := pako_deflate json in
  let binaryString := string_of_list_byte compressed in
  Base64.btoa binaryString.

(** The body of the outer [try] of [decodeSignal]; [None] when a step
    throws. *)
Definition decodeCompressed (input : string) : option json :=
  binaryString ← Base64.atob input;
  let bytes := list_byte_of_string binaryString in
  decompressed ← pako_inflate bytes;
  mapped ← JSON_parse decompressed;
  es ← entries mapped;
  let data := rename_keys (map_key REV_KEY_MAP) es in
  Some (JObj (map_sdp restoreSDP data)).

(** The legacy path of the [catch] branch: [JSON.parse(atob(input))]. *)
Definition decodeLegacy (input : string) : option json :=
  Base64.atob input ≫= JSON_parse.

Definition decodeSignal (encoded : string) : result json :=
  let input := Js.trim encoded in
  match decodeCompressed input with
  | Some data => Ok data
  | None =>
      match decodeLegacy input with
      | Some data => Ok data
      | None => Throw "Failed to decode signaling data"
      end
  end.


(* ================================================================= *)
(** ** The state of the hook ([src/hooks/useWebRTC.ts]) *)

Definition CHUNK_SIZE : Z := 64 * 1024.
Definition HIGH_WATER_MARK : Z := 1024 * 1024.
Definition PROGRESS_THROTTLE : Z := 80.

Inductive ConnectionState : Type :=
  | Idle | WaitingForPeer | Connecting | Connected | Disconnected | StateError.

Inductive SignalStatus : Type := Gathering | Ready.

Inductive TransferStatus : Type :=
  | Queued | Transferring | Completed | Cancelled | StatusError.

Inductive Direction : Type := Send | Receive.

Inductive Sender : Type := Me | Them.

Record FileTransfer : Type := mkFileTransfer {
  ft_id : string;
  ft_name : string;
  ft_size : Z;
  ft_progress : jsnum;
  ft_speed : Number.double;
  ft_status : TransferStatus;
  ft_direction : Direction;
  ft_eta : option Number.double;
  ft_startTime : option Z;
  ft_endTime : option Z
}.

Record ChatMessage : Type := mkChatMessage {
  cm_id : string;
  cm_text : string;
  cm_sender : Sender;
  cm_timestamp : Z
}.

(** A [File]: its name and its bytes; [file.size] is their number. *)
Record File : Type := mkFile {
  f_name : string;
  f_content : list Byte.byte
}.

Definition f_size (f : File) : Z := Z.of_nat (length (f_content f)).

(** [incomingRef.current] *)
Record Incoming : Type := mkIncoming {
  inc_id : string;
  inc_name : string;
  inc_size : Z;
  inc_totalChunks : Z;
  inc_chunks : list (list Byte.byte);
  inc_receivedBytes : Z;
  inc_startTime : Z
}.

(** What travels on the data channel: a string or a byte buffer. *)
Inductive payload : Type :=
  | Text (s : string)
  | Binary (b : list Byte.byte).

(** A [simple-peer] instance, as far as the hook uses it: how it was
    constructed, whether it has been destroyed, whether its data channel is
    open, the signals fed to it with [peer.signal] and the payloads handed to
    [peer.send], oldest first. *)
Record Peer : Type := mkPeer {
  initiator : bool;
  destroyed : bool;
  channelOpen : bool;
  signalled : list json;
  sent : list payload
}.

(** The error object of the peer's ['error'] event. *)
Record PeerError : Type := mkPeerError {
  err_code : option string;
  err_message : option string
}.

(** The hook's state: the six reactive fields, the store of peers and the
    handle [peerRef] into it, the refs of the transfer engine, and the files
    handed to the browser for download. *)
Record world : Type := mkWorld {
  connectionState : ConnectionState;
  localSignal : option string;
  signalStatus : option SignalStatus;
  error : option string;
  transfers : list FileTransfer;
  messages : list ChatMessage;
  peers : list Peer;
  peerRef : option nat;
  sendQueueRef : list (string * File);
  isSendingRef : bool;
  cancelledRef : gset string;
  incomingRef : option Incoming;
  downloads : list (string * list (list Byte.byte))
}.

Definition initial : world :=
  {| connectionState := Idle; localSignal := None; signalStatus := None;
     error := None; transfers := []; messages := []; peers := [];
     peerRef := None; sendQueueRef := []; isSendingRef := false;
     cancelledRef := ∅; incomingRef := None; downloads := [] |}.

Definition set_connectionState (x : ConnectionState) (w : world) : world :=
  {| connectionState := x;
     localSignal := localSignal w;
     signalStatus := signalStatus w;
     error := error w;
     transfers := transfers w;
     messages := messages w;
     peers := peers w;
     peerRef := peerRef w;
     sendQueueRef := sendQueueRef w;
     isSendingRef := isSendingRef w;
     cancelledRef := cancelledRef w;
     incomingRef := incomingRef w;
     downloads := downloads w |}.

Definition set_localSignal (x : option string) (w : world) : world :=
  {| connectionState := connectionState w;
     localSignal := x;
     signalStatus := signalStatus w;
     error := error w;
     transfers := transfers w;
     messages := messages w;
     peers := peers w;
     peerRef := peerRef w;
     sendQueueRef := sendQueueRef w;
     isSendingRef := isSendingRef w;
     cancelledRef := cancelledRef w;
     incomingRef := incomingRef w;
     downloads := downloads w |}.

Definition set_signalStatus (x : option SignalStatus) (w : world) : world :=
  {| connectionState := connectionState w;
     localSignal := localSignal w;
     signalStatus := x;
     error := error w;
     transfers := transfers w;
     messages := messages w;
     peers := peers w;
     peerRef := peerRef w;
     sendQueueRef := sendQueueRef w;
     isSendingRef := isSendingRef w;
     cancelledRef := cancelledRef w;
     incomingRef := incomingRef w;
     downloads := downloads w |}.

Definition set_error (x : option string) (w : world) : world :=
  {| connectionState := connectionState w;
     localSignal := localSignal w;
     signalStatus := signalStatus w;
     error := x;
     transfers := transfers w;
     messages := messages w;
     peers := peers w;
     peerRef := peerRef w;
     sendQueueRef := sendQueueRef w;
     isSendingRef := isSendingRef w;
     cancelledRef := cancelledRef w;
     incomingRef := incomingRef w;
     downloads := downloads w |}.

Definition set_transfers (x : list FileTransfer) (w : world) : world :=
  {| connectionState := connectionState w;
     localSignal := localSignal w;
     signalStatus := signalStatus w;
     error := error w;
     transfers := x;
     messages := messages w;
     peers := peers w;
     peerRef := peerRef w;
     sendQueueRef := sendQueueRef w;
     isSendingRef := isSendingRef w;
     cancelledRef := cancelledRef w;
     incomingRef := incomingRef w;
     downloads := downloads w |}.

Definition set_messages (x : list ChatMessage) (w : world) : world :=
  {| connectionState := connectionState w;
     localSignal := localSignal w;
     signalStatus := signalStatus w;
     error := error w;
     transfers := transfers w;
     messages := x;
     peers := peers w;
     peerRef := peerRef w;
     sendQueueRef := sendQueueRef w;
     isSendingRef := isSendingRef w;
     cancelledRef := cancelledRef w;
     incomingRef := incomingRef w;
     downloads := downloads w |}.

Definition set_peers (x : list Peer) (w : world) : world :=
  {| connectionState := connectionState w;
     localSignal := localSignal w;
     signalStatus := signalStatus w;
     error := error w;
     transfers := transfers w;
     messages := messages w;
     peers := x;
     peerRef := peerRef w;
     sendQueueRef := sendQueueRef w;
     isSendingRef := isSendingRef w;
     cancelledRef := cancelledRef w;
     incomingRef := incomingRef w;
     downloads := downloads w |}.

Definition set_peerRef (x : option nat) (w : world) : world :=
  {| connectionState := connectionState w;
     localSignal := localSignal w;
     signalStatus := signalStatus w;
     error := error w;
     transfers := transfers w;
     messages := messages w;
     peers := peers w;
     peerRef := x;
     sendQueueRef := sendQueueRef w;
     isSendingRef := isSendingRef w;
     cancelledRef := cancelledRef w;
     incomingRef := incomingRef w;
     downloads := downloads w |}.

Definition set_sendQueueRef (x : list (string * File)) (w : world) : world :=
  {| connectionState := connectionState w;
     localSignal := localSignal w;
     signalStatus := signalStatus w;
     error := error w;
     transfers := transfers w;
     messages := messages w;
     peers := peers w;
     peerRef := peerRef w;
     sendQueueRef := x;
     isSendingRef := isSendingRef w;
     cancelledRef := cancelledRef w;
     incomingRef := incomingRef w;
     downloads := downloads w |}.

Definition set_isSendingRef (x : bool) (w : world) : world :=
  {| connectionState := connectionState w;
     localSignal := localSignal w;
     signalStatus := signalStatus w;
     error := error w;
     transfers := transfers w;
     messages := messages w;
     peers := peers w;
     peerRef := peerRef w;
     sendQueueRef := sendQueueRef w;
     isSendingRef := x;
     cancelledRef := cancelledRef w;
     incomingRef := incomingRef w;
     downloads := downloads w |}.

Definition set_cancelledRef (x : gset string) (w : world) : world :=
  {| connectionState := connectionState w;
     localSignal := localSignal w;
     signalStatus := signalStatus w;
     error := error w;
     transfers := transfers w;
     messages := messages w;
     peers := peers w;
     peerRef := peerRef w;
     sendQueueRef := sendQueueRef w;
     isSendingRef := isSendingRef w;
     cancelledRef := x;
     incomingRef := incomingRef w;
     downloads := downloads w |}.

Definition set_incomingRef (x : option Incoming) (w : world) : world :=
  {| connectionState := connectionState w;
     localSignal := localSignal w;
     signalStatus := signalStatus w;
     error := error w;
     transfers := transfers w;
     messages := messages w;
     peers := peers w;
     peerRef := peerRef w;
     sendQueueRef := sendQueueRef w;
     isSendingRef := isSendingRef w;
     cancelledRef := cancelledRef w;
     incomingRef := x;
     downloads := downloads w |}.

Definition set_downloads (x : list (string * list (list Byte.byte))) (w : world) : world :=
  {| connectionState := connectionState w;
     localSignal := localSignal w;
     signalStatus := signalStatus w;
     error := error w;
     transfers := transfers w;
     messages := messages w;
     peers := peers w;
     peerRef := peerRef w;
     sendQueueRef := sendQueueRef w;
     isSendingRef := isSendingRef w;
     cancelledRef := cancelledRef w;
     incomingRef := incomingRef w;
     downloads := x |}.

(** What the environment supplies to a callback: the value of [Date.now()],
    the values of the successive calls of [uid()], and
    [channel.bufferedAmount]. *)
Record env : Type := mkEnv {
  now : Z;
  uid : nat -> string;
  bufferedAmount : Z
}.

(** *** Updates of the transfer list *)

(** [p.map((t) => (cond(t) ? f(t) : t))] *)
Definition update_where (cond : FileTransfer -> bool)
    (f : FileTransfer -> FileTransfer) (p : list FileTransfer) : list FileTransfer :=
  map (fun t => if cond t then f t else t) p.

Definition has_id (id : string) (t : FileTransfer) : bool := String.eqb (ft_id t) id.

Definition setTransfers (f : list FileTransfer -> list FileTransfer) (w : world) : world :=
  set_transfers (f (transfers w)) w.

Definition setMessages (f : list ChatMessage -> list ChatMessage) (w : world) : world :=
  set_messages (f (messages w)) w.

(** [{ ...t, status: 'transferring', startTime }] *)
Definition mark_transferring (start : Z) (t : FileTransfer) : FileTransfer :=
  {| ft_id := ft_id t; ft_name := ft_name t; ft_size := ft_size t;
     ft_progress := ft_progress t; ft_speed := ft_speed t;
     ft_status := Transferring; ft_direction := ft_direction t;
     ft_eta := ft_eta t; ft_startTime := Some start; ft_endTime := ft_endTime t |}.

(** [{ ...t, status, speed: 0 }] *)
Definition mark_stopped (st : TransferStatus) (t : FileTransfer) : FileTransfer :=
  {| ft_id := ft_id t; ft_name := ft_name t; ft_size := ft_size t;
     ft_progress := ft_progress t; ft_speed := Number.zero;
     ft_status := st; ft_direction := ft_direction t;
     ft_eta := ft_eta t; ft_startTime := ft_startTime t; ft_endTime := ft_endTime t |}.

(** [{ ...t, progress, speed, eta }] *)
Definition mark_progress (progress : jsnum) (speed : Number.double)
    (eta : option Number.double)
    (t : FileTransfer) : FileTransfer :=
  {| ft_id := ft_id t; ft_name := ft_name t; ft_size := ft_size t;
     ft_progress := progress; ft_speed := speed;
     ft_status := ft_status t; ft_direction := ft_direction t;
     ft_eta := eta; ft_startTime := ft_startTime t; ft_endTime := ft_endTime t |}.

(** [{ ...t, progress: 100, status: 'completed', speed: 0, endTime }] *)
Definition mark_completed (endTime : Z) (t : FileTransfer) : FileTransfer :=
  {| ft_id := ft_id t; ft_name := ft_name t; ft_size := ft_size t;
     ft_progress := Num 100; ft_speed := Number.zero;
     ft_status := Completed; ft_direction := ft_direction t;
     ft_eta := ft_eta t; ft_startTime := ft_startTime t; ft_endTime := Some endTime |}.

(** *** Progress, speed and remaining time *)

(** [Math.min(100, Math.round((bytes / size) * 100))] *)
Definition percent (bytes size : Z) : jsnum :=
  Math_min 100
    (Math_round
       (Number.mul (Number.div (Number.of_Z bytes) (Number.of_Z size)) (Number.of_Z 100))).

(** [elapsed > 0 ? bytes / elapsed : 0] with
    [elapsed = (now - start) / 1000] *)
Definition rate (bytes now start : Z) : Number.double :=
  let elapsed :=
    Number.div (Number.sub (Number.of_Z now) (Number.of_Z start)) (Number.of_Z 1000) in
  if Number.ltb Number.zero elapsed
  then Number.div (Number.of_Z bytes) elapsed
  else Number.zero.

(** [speed > 0 ? (size - bytes) / speed : undefined] *)
Definition remaining (size bytes : Z) (speed : Number.double) : option Number.double :=
  if Number.ltb Number.zero speed
  then Some (Number.div (Number.sub (Number.of_Z size) (Number.of_Z bytes)) speed)
  else None.

(* ================================================================= *)
(** ** The peer store *)

Definition new_peer (init : bool) : Peer :=
  {| initiator := init; destroyed := false; channelOpen := false;
     signalled := []; sent := [] |}.

Definition with_destroyed (p : Peer) : Peer :=
  {| initiator := initiator p; destroyed := true; channelOpen := channelOpen p;
     signalled := signalled p; sent := sent p |}.

Definition with_open (p : Peer) : Peer :=
  {| initiator := initiator p; destroyed := destroyed p; channelOpen := true;
     signalled := signalled p; sent := sent p |}.

Definition with_signal (sig : json) (p : Peer) : Peer :=
  {| initiator := initiator p; destroyed := destroyed p;
     channelOpen := channelOpen p;
     signalled := signalled p ++ [sig]; sent := sent p |}.

Definition with_sent (d : payload) (p : Peer) : Peer :=
  {| initiator := initiator p; destroyed := destroyed p;
     channelOpen := channelOpen p;
     signalled := signalled p; sent := sent p ++ [d] |}.

Definition update_peer (f : Peer -> Peer) (h : nat) (w : world) : world :=
  set_peers (alter f h (peers w)) w.

(** [peer.destroyed] *)
Definition peer_destroyed (h : nat) (w : world) : bool :=
  match peers w !! h with
  | Some p => destroyed p
  | None => true
  end.

(** [peer.destroy()] *)
Definition peer_destroy (h : nat) (w : world) : world := update_peer with_destroyed h w.

(** [peer.send(d)]: [None] when it throws, which it does on a destroyed peer
    and on a peer whose data channel is not open. *)
Definition peer_send (h : nat) (d : payload) (w : world) : option world :=
  match peers w !! h with
  | Some p =>
      if destroyed p then None
      else if channelOpen p then Some (update_peer (with_sent d) h w)
      else None
  | None => None
  end.

(** [peer.signal(sig)]: it throws on a destroyed peer. *)
Definition peer_signal (h : nat) (sig : json) (w : world) : result world :=
  match peers w !! h with
  | Some p =>
      if destroyed p then Throw "cannot signal after peer is destroyed"
      else Ok (update_peer (with_signal sig) h w)
  | None => Throw "cannot signal after peer is destroyed"
  end.

(** [(peer as any)._channel] is set while the channel is open. *)
Definition peer_channel (h : nat) (w : world) : bool :=
  match peers w !! h with
  | Some p => negb (destroyed p) && channelOpen p
  | None => false
  end.

(* ================================================================= *)
(** ** Incoming data: [handleData] *)

(** Reading a property into a typed field of the hook's records.  The
    handler is typed [any]; a value of another type than the protocol gives
    the property reads as the empty string, as zero, or as an absent id. *)
Definition str_of (j : option json) : string :=
  match j with Some (JStr s) => s | _ => EmptyString end.

Definition num_of (j : option json) : Z :=
  match j with Some (JNum n) => n | _ => 0 end.

(** A truthy [msg.id] *)
Definition id_of (j : option json) : option string :=
  match j with
  | Some (JStr s) => if Js.is_empty s then None else Some s
  | _ => None
  end.

(** [msg.type === ty] *)
Definition is_type (ty : string) (msg : json) : bool :=
  match field "type" msg with
  | Some (JStr s) => String.eqb s ty
  | _ => false
  end.

Definition chunk_length (b : list Byte.byte) : Z := Z.of_nat (length b).

Definition on_file_meta (e : env) (msg : json) (w : world) : world :=
  let id := match id_of (field "id" msg) with Some i => i | None => uid e 0%nat end in
  let w1 :=
    set_incomingRef
      (Some {| inc_id := id;
               inc_name := str_of (field "name" msg);
               inc_size := num_of (field "size" msg);
               inc_totalChunks := num_of (field "totalChunks" msg);
               inc_chunks := [];
               inc_receivedBytes := 0;
               inc_startTime := now e |}) w in
  setTransfers
    (fun p =>
       p ++ [ {| ft_id := id;
                 ft_name := str_of (field "name" msg);
                 ft_size := num_of (field "size" msg);
                 ft_progress := Num 0;
                 ft_speed := Number.zero;
                 ft_status := Transferring;
                 ft_direction := Receive;
                 ft_eta := None;
                 ft_startTime := Some (now e);
                 ft_endTime := None |} ]) w1.

Definition on_file_complete (e : env) (inc : Incoming) (w : world) : world :=
  let w1 := set_downloads (downloads w ++ [(inc_name inc, inc_chunks inc)]) w in
  let w2 :=
    setTransfers (update_where (has_id (inc_id inc)) (mark_completed (now e))) w1 in
  set_incomingRef None w2.

Definition on_file_cancel (msg : json) (w : world) : world :=
  (* msg.id || incomingRef.current?.id *)
  let cancelId :=
    match id_of (field "id" msg) with
    | Some i => Some i
    | None => option_map inc_id (incomingRef w)
    end in
  let w1 :=
    match cancelId with
    | Some c =>
        if Js.is_empty c then w
        else
          setTransfers (update_where (has_id c) (mark_stopped Cancelled))
            (set_cancelledRef ({[c]} ∪ cancelledRef w) w)
    | None => w
    end in
  match incomingRef w1, cancelId with
  | Some inc, Some c =>
      if String.eqb (inc_id inc) c then set_incomingRef None w1 else w1
  | _, _ => w1
  end.

Definition on_chat (e : env) (msg : json) (w : world) : world :=
  setMessages
    (fun p =>
       p ++ [ {| cm_id := uid e 0%nat;
                 cm_text := str_of (field "text" msg);
                 cm_sender := Them;
                 cm_timestamp := num_of (field "timestamp" msg) |} ]) w.

(** The branch [if (isJson && msg)]. *)
Definition on_message (e : env) (msg : json) (w : world) : world :=
  let w1 := if is_type "file-meta" msg then on_file_meta e msg w else w in
  let w2 :=
    if is_type "file-complete" msg then
      match incomingRef w1 with
      | Some inc => on_file_complete e inc w1
      | None => w1
      end
    else w1 in
  let w3 := if is_type "file-cancel" msg then on_file_cancel msg w2 else w2 in
  if is_type "chat" msg then on_chat e msg w3 else w3.

(** Step 2: binary data is a chunk of the file being assembled. *)
Definition on_binary (e : env) (data : payload) (w : world) : world :=
  match incomingRef w, data with
  | Some inc, Binary chunk =>
      let received := inc_receivedBytes inc + chunk_length chunk in
      let inc' :=
        {| inc_id := inc_id inc; inc_name := inc_name inc;
           inc_size := inc_size inc; inc_totalChunks := inc_totalChunks inc;
           inc_chunks := inc_chunks inc ++ [chunk];
           inc_receivedBytes := received;
           inc_startTime := inc_startTime inc |} in
      let progress := percent received (inc_size inc) in
      let speed := rate received (now e) (inc_startTime inc) in
      let eta := remaining (inc_size inc) received speed in
      setTransfers (update_where (has_id (inc_id inc)) (mark_progress progress speed eta))
        (set_incomingRef (Some inc') w)
  | _, _ => w
  end.

(** Step 1: the value parsed from the payload, when there is one. *)
Definition parse_payload (data : payload) : option json :=
  match data with
  | Text s => JSON_parse s
  | Binary b =>
      let decoded := TextDecoder_decode b in
      if Js.startsWith decoded "{" && Js.endsWith decoded "}"
      then JSON_parse decoded
      else None
  end.

Definition handleData (e : env) (data : payload) (w : world) : world :=
  match parse_payload data with
  | Some msg => if truthy msg then on_message e msg w else on_binary e data w
  | None => on_binary e data w
  end.

(* ================================================================= *)
(** ** The connection controller *)

(** [createPeerInstance(initiator)]: the peer held by [peerRef] is destroyed
    and a new one is stored.  The constructor is taken to succeed. *)
Definition createPeerInstance (init : bool) (w : world) : world :=
  let w1 := match peerRef w with Some h => peer_destroy h w | None => w end in
  set_peerRef (Some (length (peers w1))) (set_peers (peers w1 ++ [new_peer init]) w1).

(** [peer.on('signal', ...)] *)
Definition on_signal (data : object) (w : world) : world :=
  match obj_get "type" data with
  | Some (JStr ty) =>
      if String.eqb ty "offer" || String.eqb ty "answer" then
        set_connectionState WaitingForPeer
          (set_signalStatus (Some Ready)
             (set_localSignal (Some (encodeSignal data)) w))
      else w
  | _ => w
  end.

(** [peer.on('connect', ...)] *)
Definition on_connect (w : world) : world :=
  set_error None (set_signalStatus None (set_connectionState Connected w)).

(** [peer.on('close', ...)] *)
Definition on_close (w : world) : world :=
  set_isSendingRef false (set_signalStatus None (set_connectionState Disconnected w)).

Definition opt_eqb (o : option string) (s : string) : bool :=
  match o with Some x => String.eqb x s | None => false end.

(** [peer.on('error', ...)] *)
Definition on_error (err : PeerError) (w : world) : world :=
  let code := err_code err in
  let msg :=
    match err_message err with
    | Some m => if Js.is_empty m then "Connection failed" else m
    | None => "Connection failed"
    end in
  let w1 :=
    if Js.includes msg "Ice connection" || Js.includes msg "ICE" then
      set_error (Some "iceFailed") w
    else if opt_eqb code "ERR_WEBRTC_SUPPORT" then
      set_error (Some "WebRTC not supported or blocked by browser.") w
    else set_error (Some msg) w in
  set_isSendingRef false (set_signalStatus None (set_connectionState StateError w1)).

Definition is_connected (c : ConnectionState) : bool :=
  match c with Connected => true | _ => false end.

Definition is_connecting (c : ConnectionState) : bool :=
  match c with Connecting => true | _ => false end.

Definition createOffer (w : world) : world :=
  createPeerInstance true
    (set_connectionState Connecting
       (set_signalStatus (Some Gathering)
          (set_localSignal None (set_error None w)))).

(** [e.message?.includes('JSON') || e.message?.includes('base64')] *)
Definition isDecodeError (message : string) : bool :=
  Js.includes message "JSON" || Js.includes message "base64".

Definition offer_failed (message : string) (w : world) : world :=
  set_signalStatus None
    (set_connectionState StateError
       (set_error
          (Some (if isDecodeError message then "invalidOfferFormat" else "invalidOffer"))
          w)).

Definition acceptOffer (encodedOffer : string) (w : world) : world :=
  if Js.is_empty (Js.trim encodedOffer) then w
  else if is_connected (connectionState w) then w
  else
    let w1 :=
      set_connectionState Connecting
        (set_signalStatus (Some Gathering)
           (set_localSignal None (set_error None w))) in
    let w2 := createPeerInstance false w1 in
    match decodeSignal (Js.trim encodedOffer) with
    | Ok signal =>
        match peerRef w2 with
        | Some peer =>
            match peer_signal peer signal w2 with
            | Ok w3 => w3
            | Throw m => offer_failed m w2
            end
        | None => offer_failed "Peer not initialized" w2
        end
    | Throw m => offer_failed m w2
    end.

Definition answer_failed (message : string) (w : world) : world :=
  set_connectionState StateError
    (set_error
       (Some (if isDecodeError message then "invalidAnswerFormat" else "invalidAnswer"))
       w).

Definition acceptAnswer (encodedAnswer : string) (w : world) : world :=
  if Js.is_empty (Js.trim encodedAnswer) then w
  else if is_connected (connectionState w) then w
  else
    let w1 := set_error None w in
    match decodeSignal (Js.trim encodedAnswer) with
    | Ok signal =>
        match peerRef w1 with
        | None => answer_failed "Peer not initialized" w1
        | Some h =>
            match peer_signal h signal w1 with
            | Ok w2 => w2
            | Throw m => answer_failed m w1
            end
        end
    | Throw m => answer_failed m w1
    end.

Definition disconnect (w : world) : world :=
  let w1 := match peerRef w with Some h => peer_destroy h w | None => w end in
  {| connectionState := Idle; localSignal := None; signalStatus := None;
     error := None; transfers := []; messages := []; peers := peers w1;
     peerRef := None; sendQueueRef := []; isSendingRef := false;
     cancelledRef := ∅; incomingRef := None; downloads := downloads w1 |}.

(** The callback of the connection timer (180 s in state [connecting]). *)
Definition on_timeout (w : world) : world :=
  if is_connecting (connectionState w) then
    let w1 := set_connectionState StateError (set_error (Some "connectionTimeout") w) in
    match peerRef w1 with Some h => peer_destroy h w1 | None => w1 end
  else w.

Definition clearError (w : world) : world := set_error None w.

(* ================================================================= *)
(** ** The transfer engine: the send loop [processNextFile]

    [processNextFile] is an [async] function.  It runs without interruption
    from one [await] to the next; at an [await] it is suspended, and the
    other callbacks of the hook may run before it is resumed.  A suspended
    run of the loop is a value of [pc]: the [await] it stands at, with the
    local variables that are live there. *)

(** [Math.ceil(a / b)] for a positive [b] *)
Definition ceil_div (a b : Z) : Z := - ((- a) / b).

(** [file.slice(start, stop)], read in full *)
Definition slice (f : File) (start stop : Z) : list Byte.byte :=
  firstn (Z.to_nat (stop - start)) (skipn (Z.to_nat start) (f_content f)).

Record locals : Type := mkLocals {
  l_id : string;
  l_file : File;
  l_peer : nat;
  l_totalChunks : Z;
  l_currentStartTime : Z;
  l_i : Z;
  l_sentBytes : Z;
  l_lastProgressUpdate : Z
}.

Inductive pc : Type :=
  | AwaitWakeLock                                   (* await requestWakeLock() *)
  | AwaitRead (l : locals)                          (* await file.slice(..).arrayBuffer() *)
  | AwaitDrain (l : locals) (chunk : list Byte.byte) (* await sleep(20) *)
  | AwaitPause.                                     (* await sleep(200) *)

Definition file_meta (id : string) (f : File) (totalChunks : Z) : json :=
  JObj [("type", JStr "file-meta"); ("id", JStr id); ("name", JStr (f_name f));
        ("size", JNum (f_size f)); ("totalChunks", JNum totalChunks)].

Definition file_complete : json := JObj [("type", JStr "file-complete")].

(** The cancel message of the send loop has no [id]. *)
Definition file_cancel : json := JObj [("type", JStr "file-cancel")].

(** The cancel message of [cancelTransfer] carries the [id]. *)
Definition file_cancel_id (id : string) : json :=
  JObj [("type", JStr "file-cancel"); ("id", JStr id)].

Definition chat (text : string) (timestamp : Z) : json :=
  JObj [("type", JStr "chat"); ("text", JStr text); ("timestamp", JNum timestamp)].

Definition control (j : json) : payload := Text (JSON_stringify j).

Definition is_cancelled (id : string) (w : world) : bool :=
  bool_decide (id ∈ cancelledRef w).

(** The [finally] block; the run of the loop is over. *)
Definition finish (w : world) : world * option pc :=
  (set_isSendingRef false w, None).

(** After the [for] loop: complete the file unless it failed or was
    cancelled, then pause. *)
Definition after_chunks (e : env) (transferFailed : bool) (l : locals) (w : world)
  : world * option pc :=
  if negb transferFailed && negb (is_cancelled (l_id l) w) then
    match peer_send (l_peer l) (control file_complete) w with
    | Some w1 =>
        (setTransfers (update_where (has_id (l_id l)) (mark_completed (now e))) w1,
         Some AwaitPause)
    | None => finish w
    end
  else (w, Some AwaitPause).

(** The test of the [for] loop and the head of its body, up to the
    [await] of the chunk. *)
Definition for_head (e : env) (l : locals) (w : world) : world * option pc :=
  if l_i l <? l_totalChunks l then
    if is_cancelled (l_id l) w then
      match peer_send (l_peer l) (control file_cancel) w with
      | Some w1 =>
          let w2 := set_cancelledRef (cancelledRef w1 ∖ {[l_id l]}) w1 in
          let w3 := setTransfers (update_where (has_id (l_id l)) (mark_stopped Cancelled)) w2 in
          after_chunks e true l w3
      | None => finish w
      end
    else if peer_destroyed (l_peer l) w then
      after_chunks e true l
        (setTransfers (update_where (has_id (l_id l)) (mark_stopped StatusError)) w)
    else (w, Some (AwaitRead l))
  else after_chunks e false l w.

Definition next_chunk (sentBytes lastProgressUpdate : Z) (l : locals) : locals :=
  {| l_id := l_id l; l_file := l_file l; l_peer := l_peer l;
     l_totalChunks := l_totalChunks l;
     l_currentStartTime := l_currentStartTime l;
     l_i := l_i l + 1;
     l_sentBytes := sentBytes;
     l_lastProgressUpdate := lastProgressUpdate |}.

(** [peer.send(chunk)], the progress update and the next turn of the loop. *)
Definition send_chunk (e : env) (l : locals) (chunk : list Byte.byte) (w : world)
  : world * option pc :=
  match peer_send (l_peer l) (Binary chunk) w with
  | None =>
      after_chunks e true l
        (setTransfers (update_where (has_id (l_id l)) (mark_stopped StatusError)) w)
  | Some w1 =>
      let sentBytes := l_sentBytes l + chunk_length chunk in
      let size := f_size (l_file l) in
      if (now e - l_lastProgressUpdate l >? PROGRESS_THROTTLE)
         || (l_i l =? l_totalChunks l - 1)
      then
        let speed := rate sentBytes (now e) (l_currentStartTime l) in
        let progress := percent sentBytes size in
        let eta := remaining size sentBytes speed in
        for_head e (next_chunk sentBytes (now e) l)
          (setTransfers (update_where (has_id (l_id l)) (mark_progress progress speed eta)) w1)
      else
        for_head e (next_chunk sentBytes (l_lastProgressUpdate l) l) w1
  end.

(** The test of the back-pressure loop. *)
Definition drain (e : env) (l : locals) (chunk : list Byte.byte) (w : world)
  : world * option pc :=
  if bufferedAmount e >? HIGH_WATER_MARK
  then (w, Some (AwaitDrain l chunk))
  else send_chunk e l chunk w.

(** The chunk has been read. *)
Definition chunk_read (e : env) (l : locals) (w : world) : world * option pc :=
  let start := l_i l * CHUNK_SIZE in
  let stop := Z.min (start + CHUNK_SIZE) (f_size (l_file l)) in
  let chunk := slice (l_file l) start stop in
  if peer_channel (l_peer l) w then drain e l chunk w else send_chunk e l chunk w.

(** The test of the [while] loop and the head of its body. *)
Definition while_head (e : env) (w : world) : world * option pc :=
  match sendQueueRef w with
  | [] => finish w
  | (id, file) :: rest =>
      let w1 := set_sendQueueRef rest w in
      match peerRef w1 with
      | None => finish w1
      | Some peer =>
          if peer_destroyed peer w1 then finish w1
          else
            let totalChunks := ceil_div (f_size file) CHUNK_SIZE in
            let currentStartTime := now e in
            let w2 :=
              setTransfers
                (update_where (has_id id) (mark_transferring currentStartTime)) w1 in
            match peer_send peer (control (file_meta id file totalChunks)) w2 with
            | None => finish w2
            | Some w3 =>
                for_head e
                  {| l_id := id; l_file := file; l_peer := peer;
                     l_totalChunks := totalChunks;
                     l_currentStartTime := currentStartTime;
                     l_i := 0; l_sentBytes := 0; l_lastProgressUpdate := 0 |} w3
            end
      end
  end.

(** A suspended run is resumed: it runs to its next [await] ([Some]) or to
    its end ([None]). *)
Definition resume (e : env) (p : pc) (w : world) : world * option pc :=
  match p with
  | AwaitWakeLock => while_head e w
  | AwaitRead l => chunk_read e l w
  | AwaitDrain l chunk => drain e l chunk w
  | AwaitPause => while_head e w
  end.

(** The call [processNextFile()]: the guard, and the run up to the first
    [await]. *)
Definition processNextFile (w : world) : world * option pc :=
  if isSendingRef w then (w, None)
  else (set_isSendingRef true w, Some AwaitWakeLock).

(* ================================================================= *)
(** ** The transfer engine: commands *)

Definition queued_transfer (e : env) (id : string) (f : File) : FileTransfer :=
  {| ft_id := id; ft_name := f_name f; ft_size := f_size f;
     ft_progress := Num 0; ft_speed := Number.zero; ft_status := Queued;
     ft_direction := Send; ft_eta := None;
     ft_startTime := Some (now e); ft_endTime := None |}.

(** The entries of the files of one call of [sendFiles]: the [k]-th file
    gets the id of the [k]-th call of [uid()]. *)
Definition new_entries (e : env) (files : list File) : list (string * File) :=
  imap (fun k f => (uid e k, f)) files.

Definition sendFiles (e : env) (files : list File) (w : world) : world * option pc :=
  let entries := new_entries e files in
  let newTransfers := map (fun idf => queued_transfer e (fst idf) (snd idf)) entries in
  let w1 := set_sendQueueRef (sendQueueRef w ++ entries) w in
  let w2 := setTransfers (fun p => p ++ newTransfers) w1 in
  if isSendingRef w2 then (w2, None) else processNextFile w2.

Definition is_status (s : TransferStatus) (t : FileTransfer) : bool :=
  match s, ft_status t with
  | Queued, Queued | Transferring, Transferring | Completed, Completed
  | Cancelled, Cancelled | StatusError, StatusError => true
  | _, _ => false
  end.

Definition cancelTransfer (id : string) (w : world) : world :=
  match find (has_id id) (transfers w) with
  | None => w
  | Some transfer =>
      let w1 := set_cancelledRef ({[id]} ∪ cancelledRef w) w in
      (* notify the peer; when [send] throws, so does [cancelTransfer] *)
      let notified :=
        if is_status Transferring transfer then
          match peerRef w1 with
          | Some peer =>
              if peer_destroyed peer w1 then Some w1
              else peer_send peer (control (file_cancel_id id)) w1
          | None => Some w1
          end
        else Some w1 in
      match notified with
      | None => w1
      | Some w2 =>
          let w3 :=
            set_sendQueueRef
              (List.filter (fun en => negb (String.eqb (fst en) id)) (sendQueueRef w2)) w2 in
          setTransfers
            (update_where
               (fun t => has_id id t && (is_status Queued t || is_status Transferring t))
               (mark_stopped Cancelled)) w3
      end
  end.

Definition sendMessage (e : env) (text : string) (w : world) : world :=
  if Js.is_empty (Js.trim text) then w
  else
    match peerRef w with
    | None => w
    | Some peer =>
        if peer_destroyed peer w then w
        else
          let timestamp := now e in
          match peer_send peer (control (chat (Js.trim text) timestamp)) w with
          | None => w
          | Some w1 =>
              setMessages
                (fun p =>
                   p ++ [ {| cm_id := uid e 0%nat; cm_text := Js.trim text;
                             cm_sender := Me; cm_timestamp := timestamp |} ]) w1
          end
    end.

(* ================================================================= *)
(** ** The hook as a transition system

    The state of the system is the hook's state together with the suspended
    runs of the send loop.  An event is a command of the user interface, an
    event of a peer, the expiry of the connection timer, or the resumption
    of a suspended run. *)

Record system : Type := mkSystem {
  sys_world : world;
  sys_loops : list pc
}.

Inductive event : Type :=
  | ECreateOffer
  | EAcceptOffer (encodedOffer : string)
  | EAcceptAnswer (encodedAnswer : string)
  | EDisconnect
  | ESendFiles (files : list File)
  | ECancelTransfer (id : string)
  | ESendMessage (text : string)
  | EClearError
  | ETimeout
  | EPeerSignal (h : nat) (data : object)
  | EPeerConnect (h : nat)
  | EPeerData (h : nat) (data : payload)
  | EPeerClose (h : nat)
  | EPeerError (h : nat) (err : PeerError)
  | EResume (k : nat).

Definition spawn (r : world * option pc) (loops : list pc) : system :=
  {| sys_world := fst r;
     sys_loops := match snd r with Some p => loops ++ [p] | None => loops end |}.

Definition only (w : world) (loops : list pc) : system :=
  {| sys_world := w; sys_loops := loops |}.

Definition step (e : env) (ev : event) (s : system) : system :=
  let w := sys_world s in
  let loops := sys_loops s in
  match ev with
  | ECreateOffer => only (createOffer w) loops
  | EAcceptOffer o => only (acceptOffer o w) loops
  | EAcceptAnswer a => only (acceptAnswer a w) loops
  | EDisconnect => only (disconnect w) loops
  | ESendFiles files => spawn (sendFiles e files w) loops
  | ECancelTransfer id => only (cancelTransfer id w) loops
  | ESendMessage text => only (sendMessage e text w) loops
  | EClearError => only (clearError w) loops
  | ETimeout => only (on_timeout w) loops
  | EPeerSignal h data => only (on_signal data w) loops
  | EPeerConnect h => only (on_connect (update_peer with_open h w)) loops
  | EPeerData h data => only (handleData e data w) loops
  | EPeerClose h => only (on_close (peer_destroy h w)) loops
  | EPeerError h err => only (on_error err (peer_destroy h w)) loops
  | EResume k =>
      match loops !! k with
      | None => s
      | Some p =>
          let r := resume e p w in
          {| sys_world := fst r;
             sys_loops :=
               match snd r with
               | Some p' => <[k := p']> loops
               | None => delete k loops
               end |}
      end
  end.

Definition initial_system : system := {| sys_world := initial; sys_loops := [] |}.

(** A run of the system: the events in order, each with its environment. *)
Fixpoint run (tr : list (env * event)) (s : system) : system :=
  match tr with
  | [] => s
  | (e, ev) :: tr' => run tr' (step e ev s)
  end.

(* ================================================================= *)
(** ** Vocabulary of the specification *)

(** An SDP body as the specification describes it: lines, each ended by
    CRLF or by LF. *)
Inductive eol : Type := EndCRLF | EndLF.

Definition eol_string (t : eol) : string :=
  match t with
  | EndCRLF => Js.CRLF
  | EndLF => String Js.LF EmptyString
  end.

Fixpoint sdp_text (ls : list (string * eol)) : string :=
  match ls with
  | [] => EmptyString
  | l :: r => fst l +:+ eol_string (snd l) +:+ sdp_text r
  end.

(** The lines of a text in which every line is followed by CRLF. *)
Fixpoint crlf_text (ls : list string) : string :=
  match ls with
  | [] => EmptyString
  | l :: r => l +:+ Js.CRLF +:+ crlf_text r
  end.

(** A line has no line break inside. *)
Fixpoint no_break (s : string) : bool :=
  match s with
  | EmptyString => true
  | String c r => negb (Ascii.eqb c Js.CR) && negb (Ascii.eqb c Js.LF) && no_break r
  end.

Definition strip_list : list string :=
  ["a=rtpmap"; "a=fmtp"; "a=rtcp-fb"; "a=ssrc"; "a=extmap"; "a=msid:"].

(** A line the specification retains: not empty, and with none of the
    prefixes of the strip list. *)
Definition retained (line : string) : bool :=
  negb (Js.is_empty line) &&
  forallb (fun p => negb (Js.startsWith line p)) strip_list.

Definition retained_lines (ls : list (string * eol)) : list string :=
  List.filter retained (map (fun l => Js.trim (fst l)) ls).

Definition non_empty (s : string) : bool := negb (Js.is_empty s).

(** A signal object with its two fields. *)
Definition signal (ty sdp : string) : object := [("type", JStr ty); ("sdp", JStr sdp)].

(** A string of white space only. *)
Fixpoint all_ws (s : string) : bool :=
  match s with
  | EmptyString => true
  | String c r => Js.is_ws c && all_ws r
  end.

(** The text is empty or starts with a character that is not white space. *)
Definition head_plain (s : string) : bool :=
  match s with
  | EmptyString => true
  | String c _ => negb (Js.is_ws c)
  end.

(** Step 1 of [handleData] finds a JSON message in the payload. *)
Definition is_json_message (data : payload) : bool :=
  match parse_payload data with
  | Some msg => truthy msg
  | None => false
  end.

(** The chunks of a file as the send loop cuts them. *)
Definition totalChunks_of (f : File) : Z := ceil_div (f_size f) CHUNK_SIZE.

Definition chunk_at (f : File) (k : nat) : list Byte.byte :=
  slice f (Z.of_nat k * CHUNK_SIZE)
    (Z.min (Z.of_nat k * CHUNK_SIZE + CHUNK_SIZE) (f_size f)).

Definition chunks_upto (f : File) (n : nat) : list (list Byte.byte) :=
  map (chunk_at f) (seq 0 n).

Definition file_chunks (f : File) : list (list Byte.byte) :=
  chunks_upto f (Z.to_nat (totalChunks_of f)).

(** The messages of one file on the wire: its [file-meta], its chunks, its
    [file-complete]. *)
Definition file_wire (id : string) (f : File) : list payload :=
  control (file_meta id f (totalChunks_of f))
  :: map Binary (file_chunks f) ++ [control file_complete].

(** What has been handed to [peer.send] of the peer [h]. *)
Definition sent_by (h : nat) (w : world) : list payload :=
  match peers w !! h with
  | Some p => sent p
  | None => []
  end.

(** The peer [h] is connected and alive, and [log] is what it has sent. *)
Definition peer_live (h : nat) (log : list payload) (w : world) : Prop :=
  ∃ p, peers w !! h = Some p ∧ destroyed p = false ∧ channelOpen p = true
       ∧ sent p = log.

(** One run of the send loop with nothing else happening: the run is
    resumed once for each environment of the schedule, until it ends. *)
Fixpoint run_loop (es : list env) (p : option pc) (w : world) : world * option pc :=
  match es, p with
  | e :: es', Some p' => let r := resume e p' w in run_loop es' (snd r) (fst r)
  | _, _ => (w, p)
  end.

(** The channel's buffer is not above the high-water mark. *)
Definition no_back_pressure (e : env) : Prop := bufferedAmount e <= HIGH_WATER_MARK.

(** The chunk that the loop reads at the suspension point [AwaitRead l]. *)
Definition chunk_of (l : locals) : list Byte.byte :=
  slice (l_file l) (l_i l * CHUNK_SIZE)
    (Z.min (l_i l * CHUNK_SIZE + CHUNK_SIZE) (f_size (l_file l))).

(** A [file-cancel] message on the wire. *)
Definition is_file_cancel (d : payload) : bool :=
  match d with
  | Text s =>
      match JSON_parse s with
      | Some msg => is_type "file-cancel" msg
      | None => false
      end
  | Binary _ => false
  end.

(** What a payload is, without its bytes: the text of a message, or the
    size of a chunk. *)
Inductive wire_kind : Type :=
  | Message (text : string)
  | Chunk (bytes : Z).

Definition kind_of (d : payload) : wire_kind :=
  match d with
  | Text s => Message s
  | Binary b => Chunk (chunk_length b)
  end.

(** The send loop at work on the file [f] with the id [id], on the peer
    [h] that had sent [base] before: nothing is queued, the id is not
    cancelled, and the peer is alive and has sent [log] after [base]. *)
Definition engine (id : string) (h : nat) (log : list payload) (w : world) : Prop :=
  sendQueueRef w = [] ∧ (id ∉ cancelledRef w) ∧ peer_live h log w.

Definition locals_at (id : string) (f : File) (h : nat) (k : nat) (l : locals) : Prop :=
  l_id l = id ∧ l_file l = f ∧ l_peer l = h
  ∧ l_totalChunks l = totalChunks_of f ∧ l_i l = Z.of_nat k.

Definition meta_and_chunks (id : string) (f : File) (k : nat) : list payload :=
  control (file_meta id f (totalChunks_of f)) :: map Binary (chunks_upto f k).

(** The state of such a run at each of its suspension points and at its
    end, with the number [m] of resumptions it still needs when the channel
    exerts no back-pressure. *)
Definition loop_inv (id : string) (f : File) (h : nat) (base : list payload)
    (m : nat) (p : option pc) (w : world) : Prop :=
  let n := Z.to_nat (totalChunks_of f) in
  match p with
  | Some AwaitWakeLock =>
      m = (n + 2)%nat ∧ sendQueueRef w = [(id, f)] ∧ peerRef w = Some h
      ∧ (id ∉ cancelledRef w) ∧ peer_live h base w
  | Some (AwaitRead l) =>
      ∃ k, m = (n - k + 1)%nat ∧ (k < n)%nat ∧ locals_at id f h k l
           ∧ engine id h (base ++ meta_and_chunks id f k) w
  | Some (AwaitDrain l chunk) =>
      ∃ k, m = (n - k + 1)%nat ∧ (k < n)%nat ∧ locals_at id f h k l
           ∧ chunk = chunk_at f k
           ∧ engine id h (base ++ meta_and_chunks id f k) w
  | Some AwaitPause =>
      m = 1%nat ∧ sendQueueRef w = [] ∧ peer_live h (base ++ file_wire id f) w
  | None =>
      m = 0%nat ∧ isSendingRef w = false ∧ peer_live h (base ++ file_wire id f) w
  end.

(** *** Reachable states

    The ids in use by the transfer engine: those of the queued files, the
    one each suspended run of the loop is sending, and the one of the
    incoming assembly. *)
Definition loop_id (p : pc) : list string :=
  match p with
  | AwaitRead l | AwaitDrain l _ => [l_id l]
  | AwaitWakeLock | AwaitPause => []
  end.

Definition opt_loop_id (r : option pc) : list string :=
  match r with Some p => loop_id p | None => [] end.

Definition incoming_id (w : world) : list string :=
  match incomingRef w with Some inc => [inc_id inc] | None => [] end.

Definition active_of (w : world) (loops : list pc) : list string :=
  map fst (sendQueueRef w) ++ concat (map loop_id loops) ++ incoming_id w.

Definition active_ids (s : system) : list string :=
  active_of (sys_world s) (sys_loops s).

(** An id is fresh when no record and no part of the engine has it. *)
Definition fresh_id (s : system) (id : string) : Prop :=
  (id ∉ map ft_id (transfers (sys_world s))) ∧ (id ∉ active_ids s).

(** The id that [handleData] gives to the file of a [file-meta] message. *)
Definition meta_id (e : env) (msg : json) : string :=
  match id_of (field "id" msg) with Some i => i | None => uid e 0%nat end.

(** Ids are unique within a session: the values of [uid()] are new, and so
    is the id of every [file-meta] the peer sends. *)
Definition fresh_ids (e : env) (ev : event) (s : system) : Prop :=
  match ev with
  | ESendFiles files =>
      NoDup (map fst (new_entries e files))
      ∧ Forall (fresh_id s) (map fst (new_entries e files))
  | EPeerData _ data =>
      match parse_payload data with
      | Some msg =>
          truthy msg = true → is_type "file-meta" msg = true →
          fresh_id s (meta_id e msg)
      | None => True
      end
  | _ => True
  end.

(** The states of the hook that can be observed: the initial state, and the
    state after every event. *)
Inductive reachable : system → Prop :=
  | reachable_initial : reachable initial_system
  | reachable_step (e : env) (ev : event) (s : system) :
      reachable s → fresh_ids e ev s → reachable (step e ev s).

(** The events of a run respect the uniqueness of ids. *)
Fixpoint fresh_run (tr : list (env * event)) (s : system) : Prop :=
  match tr with
  | [] => True
  | (e, ev) :: tr' => fresh_ids e ev s ∧ fresh_run tr' (step e ev s)
  end.

(** A completed record shows 100 percent. *)
Definition completed_full (t : FileTransfer) : Prop :=
  ft_status t = Completed → ft_progress t = Num 100.

(** The invariant of the transfer list [T] with respect to the ids [act]
    in use: no id is in use twice, no record with an id in use is
    completed, and every completed record shows 100 percent. *)
Definition tracked (T : list FileTransfer) (act : list string) : Prop :=
  NoDup act
  ∧ Forall (λ t, ft_id t ∈ act → ft_status t ≠ Completed) T
  ∧ Forall completed_full T.

(** A step [r] of a run of the loop, taken in the state [w] while the ids
    [act] are in use besides its own, keeps the invariant and leaves the
    queue and the incoming assembly alone. *)
Definition keeps_tracked (r : world * option pc) (w : world) (act : list string) : Prop :=
  tracked (transfers (fst r)) (opt_loop_id (snd r) ++ act)
  ∧ sendQueueRef (fst r) = sendQueueRef w
  ∧ incomingRef (fst r) = incomingRef w.

(** The invariant of a state of the system. *)
Definition system_inv (s : system) : Prop :=
  tracked (transfers (sys_world s)) (active_ids s).

(** Two states with the same transfer list, queue and incoming assembly. *)
Definition same_engine (w w' : world) : Prop :=
  transfers w' = transfers w
  ∧ sendQueueRef w' = sendQueueRef w
  ∧ incomingRef w' = incomingRef w.

(* ================================================================= *)
(** ** Vocabulary of the further properties *)

(** *** Texts and their lines *)

(** The text has no line feed. *)
Fixpoint no_lf (s : string) : bool :=
  match s with
  | EmptyString => true
  | String c r => negb (Ascii.eqb c Js.LF) && no_lf r
  end.

(** The text does not end with a carriage return. *)
Fixpoint no_cr_end (s : string) : bool :=
  match s with
  | EmptyString => true
  | String c EmptyString => negb (Ascii.eqb c Js.CR)
  | String _ r => no_cr_end r
  end.

(** Every line feed of the text follows a carriage return. *)
Fixpoint crlf_only (s : string) : bool :=
  match s with
  | EmptyString => true
  | String c r =>
      if Ascii.eqb c Js.LF then false
      else
        match r with
        | String c2 r2 =>
            if Ascii.eqb c Js.CR && Ascii.eqb c2 Js.LF then crlf_only r2
            else crlf_only r
        | EmptyString => true
        end
  end.

(** The text starts with a line feed. *)
Definition head_lf (s : string) : bool :=
  match s with String c _ => Ascii.eqb c Js.LF | EmptyString => false end.

(** The last character of the text is a line feed. *)
Fixpoint ends_lf (s : string) : bool :=
  match s with
  | EmptyString => false
  | String c EmptyString => Ascii.eqb c Js.LF
  | String _ r => ends_lf r
  end.

(** The last two characters of the text are CR and LF. *)
Fixpoint ends_crlf (s : string) : bool :=
  match s with
  | String c (String c2 EmptyString) => Ascii.eqb c Js.CR && Ascii.eqb c2 Js.LF
  | String _ r => ends_crlf r
  | EmptyString => false
  end.

(** A line as [minifySDP] keeps it: without line feed, trimmed, and passed
    by the filter. *)
Definition kept_line (l : string) : Prop :=
  no_lf l = true ∧ no_cr_end l = true ∧ Js.trim l = l ∧ keepLine l = true.

(** *** Numbers *)

(** A double that is zero, positive or [Infinity]. *)
Definition non_negative (x : Number.double) : Prop :=
  match x with
  | S754_zero false | S754_infinity false | S754_finite false _ _ => True
  | _ => False
  end.

(** *** Objects *)

Definition keys (o : object) : list string := map fst o.

(** No key occurs twice, the short keys of the wire format are free, and
    no key is the name of a property of [Object.prototype]. *)
Definition plain_keys (o : object) : Prop :=
  NoDup (keys o) ∧ ("t" ∉ keys o) ∧ ("s" ∉ keys o)
  ∧ Forall (λ k, k ∉ Object_prototype) (keys o).

(** *** The hook *)

(** The peer in [peerRef] cannot be used: there is none, or it has been
    destroyed. *)
Definition no_usable_peer (w : world) : Prop :=
  match peerRef w with
  | Some h => peer_destroyed h w = true
  | None => True
  end.

(** The records [sendFiles] adds for the files. *)
Definition queued_records (e : env) (files : list File) : list FileTransfer :=
  map (fun idf => queued_transfer e (fst idf) (snd idf)) (new_entries e files).

(** The chat message that [sendMessage] and [handleData] append. *)
Definition chat_message (e : env) (text : string) (from : Sender) (timestamp : Z)
  : ChatMessage :=
  {| cm_id := uid e 0%nat; cm_text := text; cm_sender := from;
     cm_timestamp := timestamp |}.

(** Step 1 of [handleData] finds a message of one of the four types of the
    protocol. *)
Definition known_message (data : payload) : bool :=
  match parse_payload data with
  | Some msg =>
      truthy msg &&
      (is_type "file-meta" msg || is_type "file-complete" msg
       || is_type "file-cancel" msg || is_type "chat" msg)
  | None => false
  end.

(** The payloads of the data channel are handled in the order of their
    arrival, each at its time. *)
Fixpoint receive (tr : list (env * payload)) (w : world) : world :=
  match tr with
  | [] => w
  | (e, d) :: tr' => receive tr' (handleData e d w)
  end.

(** The receiver assembles the file [id]: [chunks] have arrived, and the
    records are those of [T0] and, last, the one of this file. *)
Definition assembling (id name : string) (size : Z) (chunks : list (list Byte.byte))
    (T0 : list FileTransfer) (w : world) : Prop :=
  (∃ inc, incomingRef w = Some inc ∧ inc_id inc = id ∧ inc_name inc = name
          ∧ inc_chunks inc = chunks)
  ∧ ∃ t, transfers w = T0 ++ [t] ∧ ft_id t = id ∧ ft_name t = name
         ∧ ft_size t = size ∧ ft_status t = Transferring ∧ ft_direction t = Receive.

(** The peer a suspended run sends on has been destroyed. *)
Definition loop_peer_lost (p : pc) (w : world) : Prop :=
  match p with
  | AwaitRead l | AwaitDrain l _ => peer_destroyed (l_peer l) w = true
  | AwaitWakeLock | AwaitPause => True
  end.

(** The engine after [disconnect], as far as a run of the loop sees it. *)
Definition engine_reset (P : list Peer) (w : world) : Prop :=
  peers w = P ∧ transfers w = [] ∧ sendQueueRef w = [].

(** *** A queue of files through the send loop *)

(** The messages of the files of a queue, one file after the other. *)
Definition wires (entries : list (string * File)) : list payload :=
  concat (map (fun en => file_wire (fst en) (snd en)) entries).

(** The resumptions the files of a queue need when the channel exerts no
    back-pressure: one for each chunk, and one to start the file. *)
Definition resumptions (entries : list (string * File)) : nat :=
  list_sum (map (fun en => S (Z.to_nat (totalChunks_of (snd en)))) entries).

(** The engine between two steps of a run over a queue: the entries still
    queued, the peer in [peerRef], the cancelled ids, and what the peer has
    sent. *)
Definition steady (h : nat) (C : gset string) (log : list payload)
    (todo : list (string * File)) (w : world) : Prop :=
  sendQueueRef w = todo ∧ peerRef w = Some h ∧ cancelledRef w = C
  ∧ peer_live h log w.

(** The state of a run over the queue [all] at each of its suspension
    points and at its end, with the number [m] of resumptions it still
    needs when the channel exerts no back-pressure. *)
Definition queue_inv (h : nat) (C : gset string) (base : list payload)
    (all : list (string * File)) (m : nat) (p : option pc) (w : world) : Prop :=
  match p with
  | Some AwaitWakeLock | Some AwaitPause =>
      ∃ sent todo,
        all = sent ++ todo ∧ m = S (resumptions todo)
        ∧ steady h C (base ++ wires sent) todo w
  | Some (AwaitRead l) =>
      ∃ sent id f todo k,
        all = sent ++ (id, f) :: todo
        ∧ (k < Z.to_nat (totalChunks_of f))%nat
        ∧ m = (Z.to_nat (totalChunks_of f) - k + S (resumptions todo))%nat
        ∧ locals_at id f h k l
        ∧ steady h C (base ++ wires sent ++ meta_and_chunks id f k) todo w
  | Some (AwaitDrain l chunk) =>
      ∃ sent id f todo k,
        all = sent ++ (id, f) :: todo
        ∧ (k < Z.to_nat (totalChunks_of f))%nat
        ∧ m = (Z.to_nat (totalChunks_of f) - k + S (resumptions todo))%nat
        ∧ locals_at id f h k l
        ∧ chunk = chunk_at f k
        ∧ steady h C (base ++ wires sent ++ meta_and_chunks id f k) todo w
  | None =>
      m = 0%nat ∧ isSendingRef w = false ∧ peer_live h (base ++ wires all) w
  end.

End Hook.

(* ================================================================= *)
(* ================================================================= *)
(** ** Concrete inputs

    The scenarios of the specification, run on the reference instance. *)

Module Examples.

Definition ref_run : list (env * event) → system → system := run (lib := reference).

(** Time [t], the ids [id0], [id1], ... for the successive calls of
    [uid()], and an empty channel buffer. *)
Definition at_time (t : Z) : env :=
  {| now := t; uid := fun k => "id" +:+ pretty k; bufferedAmount := 0 |}.

(** The same, with the channel buffer above the high-water mark. *)
Definition congested (t : Z) : env :=
  {| now := t; uid := fun k => "id" +:+ pretty k; bufferedAmount := 2 * 1024 * 1024 |}.

(** The file of scenario 1: 1024 zero bytes. *)
Definition file1k : File := {| f_name := "a.bin"; f_content := repeat Byte.x00 (Z.to_nat 1024) |}.

(** The file of scenario 2: 98,304 bytes. *)
Definition file96k : File := {| f_name := "b.bin"; f_content := repeat Byte.x00 (Z.to_nat 98304) |}.

(** A sender whose data channel is open: the offer has been created and the
    peer has connected. *)
Definition connected : system :=
  ref_run [(at_time 0, ECreateOffer); (at_time 1, EPeerConnect 0)] initial_system.

(** The sender has queued the 96 KiB file, and the loop has sent the
    [file-meta] and stands at the read of the first chunk. *)
Definition sending96k : system :=
  ref_run [(at_time 2, ESendFiles [file96k]); (at_time 3, EResume 0)] connected.

(** Scenario 4: the transfer is cancelled in flight, and the loop is resumed
    until it has ended. *)
Definition cancelled96k : system :=
  ref_run [(at_time 4, ECancelTransfer "id0"); (at_time 100, EResume 0);
           (at_time 300, EResume 0)] sending96k.

(** The messages of a sender, as the receiver gets them. *)
Definition meta_A : payload :=
  Text (Reference.JSON_stringify (file_meta "A" file1k 1)).
Definition meta_B : payload :=
  Text (Reference.JSON_stringify (file_meta "B" file1k 1)).
Definition complete : payload := Text (Reference.JSON_stringify file_complete).

(** What the receiver reads in a payload: the value of a text, nothing in a
    chunk. *)
Definition read_payload (d : payload) : option json :=
  match d with
  | Text s => Reference.JSON_parse s
  | Binary _ => None
  end.

(** The receiver has got the [file-meta] of [A]. *)
Definition receiving_A : system :=
  ref_run [(at_time 0, EPeerData 0 meta_A)] initial_system.

(** ... and then its only chunk. *)
Definition received_A : system :=
  ref_run [(at_time 1, EPeerData 0 (Binary (f_content file1k)))] receiving_A.

(** ... and then its [file-complete]. *)
Definition completed_A : system :=
  ref_run [(at_time 2, EPeerData 0 complete)] received_A.

(** The receiver gets the [file-meta] of [B] while it assembles [A]. *)
Definition interrupted_A : system :=
  ref_run [(at_time 1, EPeerData 0 meta_B)] receiving_A.

(** An SDP body: a session line, a codec line and a padded media id. *)
Definition sdp_lines : list (string * eol) :=
  [("v=0", EndCRLF); ("a=rtpmap:111 opus/48000/2", EndLF); ("  a=mid:0 ", EndCRLF)].

(** An SDP body of which no line is retained. *)
Definition junk_lines : list (string * eol) :=
  [("a=rtpmap:111 opus/48000/2", EndCRLF)].

(** An initiator that has published its offer and waits for the answer. *)
Definition waiting : world :=
  sys_world
    (ref_run [(at_time 0, ECreateOffer);
              (at_time 1, EPeerSignal 0 (signal "offer" (sdp_text sdp_lines)))]
       initial_system).

(** The answer of the other side, encoded. *)
Definition answer : string :=
  encodeSignal (lib := reference) (signal "answer" (sdp_text sdp_lines)).

(** The error of a peer in an environment without WebRTC. *)
Definition unsupported : PeerError :=
  {| err_code := Some "ERR_WEBRTC_SUPPORT";
     err_message := Some "No WebRTC support: Not a supported browser" |}.

End Examples.

(* ================================================================= *)
(** ** Further concrete inputs *)

Module Cases.

Import Examples.

(** A text of two lines, the second without a line end. *)
Definition two_lines : string := "v=0" +:+ String Js.LF "a=mid:0".

(** A signal object with a field besides [type] and [sdp]. *)
Definition offer_object : object :=
  [("type", JStr "offer"); ("sdp", JStr (sdp_text sdp_lines)); ("n", JNum 7)].

(** Libraries whose deflate stream starts with the byte 0x78, as a zlib
    stream does, and whose [inflate] rejects every other input. *)
Definition framed : Libraries :=
  {| pako_deflate := fun s => Byte.x78 :: Reference.deflate s;
     pako_inflate := fun b =>
       match b with
       | Byte.x78 :: r => Reference.inflate r
       | _ => None
       end;
     JSON_stringify := Reference.JSON_stringify;
     JSON_parse := Reference.JSON_parse;
     TextDecoder_decode := Reference.TextDecoder_decode;
     native_function := Reference.native_function |}.

(** The offer of the other side, encoded. *)
Definition offer : string :=
  encodeSignal (lib := reference) (signal "offer" (sdp_text sdp_lines)).

(** A file of three bytes, and one of two. *)
Definition file3 : File :=
  {| f_name := "c.bin"; f_content := [Byte.x01; Byte.x02; Byte.x03] |}.
Definition file2 : File :=
  {| f_name := "d.bin"; f_content := [Byte.x0a; Byte.x0b] |}.

(** The file is queued while there is no peer. *)
Definition queued3 : world :=
  fst (sendFiles (at_time 0) [file3] initial).

(** The sender has queued the file of three bytes, and the loop has sent
    the [file-meta] and stands at the read of the only chunk. *)
Definition sending3 : system :=
  ref_run [(at_time 2, ESendFiles [file3]); (at_time 3, EResume 0)] connected.

(** ... and then the peer has closed. *)
Definition closed3 : system :=
  ref_run [(at_time 4, EPeerClose 0)] sending3.

(** The bytes of a chat message. *)
Definition chat_bytes : list Byte.byte :=
  list_byte_of_string (Reference.JSON_stringify (chat "hi" 1)).

End Cases.

(* ================================================================= *)
(** * Properties *)

Section Properties.

Context {lib : Libraries}.

(** ** Strings *)

Lemma app_nil_r_s (s : string) : s +:+ "" = s.
Proof. induction s as [|c s IH]; cbn; [done | by rewrite IH]. Qed.

Lemma app_assoc_s (a b c : string) : (a +:+ b) +:+ c = a +:+ (b +:+ c).
Proof. induction a as [|x a IH]; cbn; [done | by rewrite IH]. Qed.

Lemma prefix_app (p s : string) :
  String.prefix p s = true → ∃ r, s = p +:+ r.
Proof.
  revert s. induction p as [|a p IH]; intros s H.
  - by exists s.
  - destruct s as [|b s]; [done|]. cbn in H.
    destruct (ascii_dec a b) as [->|]; [|done].
    destruct (IH s H) as [r ->]. by exists r.
Qed.

Lemma trimStart_all_ws s : all_ws s = true → Js.trimStart s = "".
Proof.
  induction s as [|c s IH]; [done|]. cbn.
  intros [Hc Hs]%andb_prop. rewrite Hc. auto.
Qed.

Lemma trim_all_ws s : all_ws s = true ↔ Js.is_empty (Js.trim s) = true.
Proof.
  unfold Js.trim. split.
  - intros H. by rewrite trimStart_all_ws.
  - induction s as [|c s IH]; [done|]. cbn.
    destruct (Js.is_ws c) eqn:Hc; [exact IH|].
    cbn. by rewrite Hc.
Qed.

Lemma trimStart_head s : head_plain s = true → Js.trimStart s = s.
Proof. destruct s as [|c r]; [done|]. cbn. by intros ->%negb_true_iff. Qed.

Lemma head_plain_trimStart s : head_plain (Js.trimStart s) = true.
Proof.
  induction s as [|c s IH]; [done|]. cbn [Js.trimStart].
  destruct (Js.is_ws c) eqn:E; [done|]. cbn. by rewrite E.
Qed.

Lemma head_plain_trimEnd s : head_plain s = true → head_plain (Js.trimEnd s) = true.
Proof.
  destruct s as [|c r]; [done|]. cbn. intros H.
  apply negb_true_iff in H. rewrite H. cbn. by rewrite H.
Qed.

Lemma trimEnd_idem s : Js.trimEnd (Js.trimEnd s) = Js.trimEnd s.
Proof.
  induction s as [|c s IH]; [done|]. cbn [Js.trimEnd].
  destruct (Js.is_ws c && Js.is_empty (Js.trimEnd s)) eqn:E; [done|].
  cbn [Js.trimEnd]. by rewrite IH, E.
Qed.

Lemma trim_idem s : Js.trim (Js.trim s) = Js.trim s.
Proof.
  unfold Js.trim. rewrite (trimStart_head (Js.trimEnd _)).
  - apply trimEnd_idem.
  - apply head_plain_trimEnd, head_plain_trimStart.
Qed.

Lemma trimEnd_plain s :
  forallb (fun c => negb (Js.is_ws c)) (list_ascii_of_string s) = true →
  Js.trimEnd s = s.
Proof.
  induction s as [|c s IH]; [done|]. cbn.
  intros [Hc Hs]%andb_prop. rewrite (IH Hs).
  apply negb_true_iff in Hc. by rewrite Hc.
Qed.

Lemma trim_plain s :
  forallb (fun c => negb (Js.is_ws c)) (list_ascii_of_string s) = true →
  Js.trim s = s.
Proof.
  intros H. unfold Js.trim. rewrite trimStart_head; [by apply trimEnd_plain|].
  destruct s as [|c r]; [done|]. cbn in H. by apply andb_prop in H as [Hc _].
Qed.

(** ** Base64 *)

Ltac Zify.zify_post_hook ::= Z.to_euclidean_division_equations.

Lemma list_ind3 {A} (P : list A → Prop) :
  P [] → (∀ a, P [a]) → (∀ a b, P [a; b]) →
  (∀ a b c r, P r → P (a :: b :: c :: r)) → ∀ l, P l.
Proof.
  intros H0 H1 H2 H3.
  fix IH 1. intros [|a [|b [|c r]]]; [apply H0|apply H1|apply H2|apply H3, IH].
Qed.

Lemma code_lt c : (Base64.code c < 256)%N.
Proof. apply N_ascii_bounded. Qed.

Lemma byte_char_code c : Base64.byte_char (Base64.code c) = c.
Proof. apply ascii_N_embedding. Qed.

Lemma small_cases (P : N → Prop) (k : nat) :
  Forall P (map N.of_nat (seq 0 k)) → ∀ n, (n < N.of_nat k)%N → P n.
Proof.
  intros HF n Hn. rewrite Forall_forall in HF. apply HF.
  apply list_elem_of_In, in_map_iff. exists (N.to_nat n). split; [lia|].
  apply in_seq. lia.
Qed.

Lemma char_sextet_char n : (n < 64)%N → Base64.char_sextet (Base64.sextet_char n) = Some n.
Proof.
  revert n. apply (small_cases _ 64).
  repeat (apply Forall_cons; split; [reflexivity|]). apply Forall_nil. done.
Qed.

Lemma sextet_char_plain n :
  (n < 64)%N → Base64.is_pad (Base64.sextet_char n) = false ∧ Base64.is_ascii_ws (Base64.sextet_char n) = false.
Proof.
  revert n. apply (small_cases _ 64).
  repeat (apply Forall_cons; split; [split; reflexivity|]). apply Forall_nil. done.
Qed.

Lemma sextets_lt l : Forall (λ n, (n < 64)%N) (Base64.sextets l).
Proof.
  induction l as [|a|a b|a b c r IH] using list_ind3; cbn [Base64.sextets].
  - constructor.
  - pose proof (code_lt a). repeat constructor; lia.
  - pose proof (code_lt a). pose proof (code_lt b). repeat constructor; lia.
  - pose proof (code_lt a). pose proof (code_lt b). pose proof (code_lt c).
    repeat (constructor; [lia|]). exact IH.
Qed.

Lemma octets_sextets l : Base64.octets (Base64.sextets l) = l.
Proof.
  assert (Hb : ∀ c n, n = Base64.code c → Base64.byte_char n = c).
  { intros c n ->. apply byte_char_code. }
  induction l as [|a|a b|a b c r IH] using list_ind3; cbn [Base64.sextets Base64.octets].
  - reflexivity.
  - pose proof (code_lt a). cbv zeta. f_equal. apply Hb. lia.
  - pose proof (code_lt a). pose proof (code_lt b). cbv zeta.
    f_equal; [|f_equal]; apply Hb; lia.
  - pose proof (code_lt a). pose proof (code_lt b). pose proof (code_lt c).
    rewrite IH. cbv zeta. f_equal; [|f_equal; [|f_equal]]; apply Hb; lia.
Qed.

Lemma sextets_length l :
  ((length (Base64.sextets l) + length (Base64.padding (length l))) mod 4 = 0 ∧
   length (Base64.sextets l) mod 4 ≠ 1)%nat.
Proof.
  induction l as [|a|a b|a b c r [IH1 IH2]] using list_ind3.
  1-3: split; cbn; lia.
  cbn [Base64.sextets length].
  replace (Base64.padding (S (S (S (length r))))) with (Base64.padding (length r)).
  2:{ unfold Base64.padding.
      replace (S (S (S (length r)))) with (length r + 1 * 3)%nat by lia.
      by rewrite Nat.Div0.mod_add. }
  split.
  - replace (S (S (S (S (length (Base64.sextets r)))))
             + length (Base64.padding (length r)))%nat
      with ((length (Base64.sextets r) + length (Base64.padding (length r))) + 1 * 4)%nat
      by lia.
    by rewrite Nat.Div0.mod_add.
  - replace (S (S (S (S (length (Base64.sextets r))))))
      with (length (Base64.sextets r) + 1 * 4)%nat by lia.
    by rewrite Nat.Div0.mod_add.
Qed.

Lemma chars_sextets_chars sx :
  Forall (λ n, (n < 64)%N) sx → Base64.chars_sextets (map Base64.sextet_char sx) = Some sx.
Proof.
  induction 1 as [|n sx Hn _ IH]; [reflexivity|].
  cbn [map Base64.chars_sextets]. by rewrite char_sextet_char, IH.
Qed.

Lemma filter_plain sx pad :
  Forall (λ n, (n < 64)%N) sx → Forall (λ c, Base64.is_pad c = true) pad →
  List.filter (λ c, negb (Base64.is_ascii_ws c)) (map Base64.sextet_char sx ++ pad)%list
  = (map Base64.sextet_char sx ++ pad)%list.
Proof.
  intros Hs Hp. apply forallb_filter_id, forallb_forall.
  intros c [Hc|Hc]%in_app_or.
  - apply in_map_iff in Hc as (n & <- & Hn%list_elem_of_In).
    rewrite Forall_forall in Hs.
    by destruct (sextet_char_plain n (Hs n Hn)) as [_ ->].
  - apply list_elem_of_In in Hc. rewrite Forall_forall in Hp.
    specialize (Hp c Hc). unfold Base64.is_pad in Hp. apply Ascii.eqb_eq in Hp. by subst c.
Qed.

Lemma padding_cases len :
  Base64.padding len = [] ∨ Base64.padding len = [Base64.pad_char] ∨ Base64.padding len = [Base64.pad_char; Base64.pad_char].
Proof. unfold Base64.padding. destruct (len mod 3)%nat as [|[|[|k]]]; auto. Qed.

Lemma strip_padding_btoa sx len :
  Forall (λ n, (n < 64)%N) sx →
  ((length sx + length (Base64.padding len)) mod 4 = 0)%nat →
  Base64.strip_padding (map Base64.sextet_char sx ++ Base64.padding len)%list = map Base64.sextet_char sx.
Proof.
  intros Hs Hlen. unfold Base64.strip_padding.
  rewrite length_app, length_map, Hlen. cbn [Nat.eqb].
  assert (Hlast : ∀ c r, rev (map Base64.sextet_char sx) = c :: r → Base64.is_pad c = false).
  { intros c r Hr. rewrite <- map_rev in Hr.
    assert (Hs' : Forall (λ n, (n < 64)%N) (rev sx)) by by apply Forall_rev.
    destruct Hs' as [|n sx' Hn _]; [done|]. cbn in Hr. injection Hr as <- _.
    apply sextet_char_plain, Hn. }
  rewrite rev_app_distr.
  destruct (padding_cases len) as [-> | [-> | ->]]; cbn [rev app].
  - rewrite app_nil_r.
    destruct (rev (map Base64.sextet_char sx)) as [|c1 [|c2 r]] eqn:E; [done| |];
      by rewrite (Hlast c1 _ eq_refl).
  - destruct (rev (map Base64.sextet_char sx)) as [|c r] eqn:E.
    + apply (f_equal (@rev _)) in E. rewrite rev_involutive in E. by rewrite E.
    + change (Base64.is_pad Base64.pad_char) with true. cbv iota. rewrite (Hlast c r eq_refl).
      transitivity (rev (rev (map Base64.sextet_char sx))); [by rewrite E | apply rev_involutive].
  - change (Base64.is_pad Base64.pad_char) with true. cbv iota. by rewrite rev_involutive.
Qed.

Lemma padding_pad len : Forall (λ c, Base64.is_pad c = true) (Base64.padding len).
Proof. unfold Base64.padding. destruct (len mod 3)%nat as [|[|[|k]]]; repeat constructor. Qed.

Lemma atob_btoa s : Base64.atob (Base64.btoa s) = Some s.
Proof.
  unfold Base64.atob, Base64.btoa. rewrite list_ascii_of_string_of_list_ascii.
  pose proof (sextets_lt (list_ascii_of_string s)) as Hs.
  destruct (sextets_length (list_ascii_of_string s)) as [H1 H2].
  rewrite filter_plain by auto using padding_pad.
  rewrite strip_padding_btoa by done.
  rewrite length_map. apply Nat.eqb_neq in H2. rewrite H2.
  rewrite chars_sextets_chars by done.
  by rewrite octets_sextets, string_of_list_ascii_of_string.
Qed.


Lemma sextet_char_no_ws n : (n < 64)%N → Js.is_ws (Base64.sextet_char n) = false.
Proof.
  revert n. apply (small_cases _ 64).
  repeat (apply Forall_cons; split; [reflexivity|]). apply Forall_nil. done.
Qed.

Lemma btoa_plain s :
  forallb (fun c => negb (Js.is_ws c)) (list_ascii_of_string (Base64.btoa s)) = true.
Proof.
  unfold Base64.btoa. rewrite list_ascii_of_string_of_list_ascii.
  apply forallb_forall. intros c [Hc|Hc]%in_app_or.
  - apply in_map_iff in Hc as (n & <- & Hn%list_elem_of_In).
    pose proof (sextets_lt (list_ascii_of_string s)) as Hs.
    rewrite Forall_forall in Hs. by rewrite sextet_char_no_ws by auto.
  - destruct (padding_cases (length (list_ascii_of_string s))) as [E|[E|E]];
      rewrite E in Hc; cbn in Hc; intuition subst; done.
Qed.

Lemma trim_btoa s : Js.trim (Base64.btoa s) = Base64.btoa s.
Proof. apply trim_plain, btoa_plain. Qed.

(** ** SDP minification and restoration *)

Lemma split_newlines_cons c r :
  Js.split_newlines (String c r) =
  if Ascii.eqb c Js.LF then "" :: Js.split_newlines r
  else match r with
       | String c2 r2 =>
           if Ascii.eqb c Js.CR && Ascii.eqb c2 Js.LF
           then "" :: Js.split_newlines r2
           else Js.cons_head c (Js.split_newlines r)
       | EmptyString => Js.cons_head c (Js.split_newlines r)
       end.
Proof. reflexivity. Qed.

Lemma replace_newlines_cons c r :
  Js.replace_newlines (String c r) =
  if Ascii.eqb c Js.LF then String Js.CR (String Js.LF (Js.replace_newlines r))
  else match r with
       | String c2 r2 =>
           if Ascii.eqb c Js.CR && Ascii.eqb c2 Js.LF
           then String Js.CR (String Js.LF (Js.replace_newlines r2))
           else String c (Js.replace_newlines r)
       | EmptyString => String c (Js.replace_newlines r)
       end.
Proof. reflexivity. Qed.

Lemma no_break_cons c r :
  no_break (String c r) = true →
  Ascii.eqb c Js.CR = false ∧ Ascii.eqb c Js.LF = false ∧ no_break r = true.
Proof.
  cbn. intros [[H1 H2]%andb_prop H3]%andb_prop.
  by rewrite negb_true_iff in H1, H2.
Qed.

(** A line and its terminator are one piece of the split. *)
Lemma split_newlines_line l t rest :
  no_break l = true →
  Js.split_newlines (l +:+ eol_string t +:+ rest) = l :: Js.split_newlines rest.
Proof.
  induction l as [|c l IH]; intros Hl.
  - destruct t; reflexivity.
  - apply no_break_cons in Hl as (Hcr & Hlf & Hl). specialize (IH Hl).
    cbn [String.append]. rewrite split_newlines_cons, Hlf, Hcr.
    rewrite IH. by destruct (l +:+ eol_string t +:+ rest).
Qed.

Lemma split_newlines_sdp_text ls :
  Forall (λ l, no_break (fst l) = true) ls →
  Js.split_newlines (sdp_text ls) = map fst ls ++ [""].
Proof.
  induction 1 as [|l ls Hl _ IH]; [reflexivity|].
  cbn [sdp_text map app]. by rewrite split_newlines_line, IH.
Qed.

Lemma split_newlines_crlf_text ls :
  Forall (λ l, no_break l = true) ls →
  Js.split_newlines (crlf_text ls) = ls ++ [""].
Proof.
  induction 1 as [|l ls Hl _ IH]; [reflexivity|].
  cbn [crlf_text app]. by rewrite (split_newlines_line l EndCRLF), IH.
Qed.

Lemma replace_newlines_line l rest :
  no_break l = true →
  Js.replace_newlines (l +:+ Js.CRLF +:+ rest) = l +:+ Js.CRLF +:+ Js.replace_newlines rest.
Proof.
  induction l as [|c l IH]; intros Hl.
  - reflexivity.
  - apply no_break_cons in Hl as (Hcr & Hlf & Hl). specialize (IH Hl).
    cbn [String.append]. rewrite replace_newlines_cons, Hlf, Hcr.
    rewrite IH. by destruct (l +:+ Js.CRLF +:+ rest).
Qed.

Lemma replace_newlines_crlf_text ls :
  Forall (λ l, no_break l = true) ls →
  Js.replace_newlines (crlf_text ls) = crlf_text ls.
Proof.
  induction 1 as [|l ls Hl _ IH]; [reflexivity|].
  cbn [crlf_text]. by rewrite replace_newlines_line, IH.
Qed.

Lemma endsWith_app s p : Js.endsWith (s +:+ p) p = true.
Proof.
  induction s as [|c s IH].
  - cbn [String.append]. destruct p; cbn; [done|].
    by rewrite Ascii.eqb_refl, String.eqb_refl.
  - cbn [String.append Js.endsWith]. rewrite IH. apply orb_true_r.
Qed.

Lemma endsWith_crlf_text ls : ls ≠ [] → Js.endsWith (crlf_text ls) Js.CRLF = true.
Proof.
  induction ls as [|l ls IH]; [done|]. intros _. cbn [crlf_text].
  destruct ls as [|l' ls].
  - cbn [crlf_text]. rewrite (app_nil_r_s Js.CRLF). apply endsWith_app.
  - rewrite <- app_assoc_s.
    assert (H : ∀ a b p, Js.endsWith b p = true → Js.endsWith (a +:+ b) p = true).
    { intros a b p Hb. induction a as [|x a IHa]; [done|].
      cbn [String.append Js.endsWith]. rewrite IHa. apply orb_true_r. }
    apply H, IH. done.
Qed.

Lemma crlf_text_non_empty ls : ls ≠ [] → Js.is_empty (crlf_text ls) = false.
Proof. destruct ls as [|l ls]; [done|]. intros _. cbn. by destruct l. Qed.

(** [join] with a final CRLF: every line is followed by CRLF; with no line
    at all the text is one CRLF. *)
Lemma join_crlf ls :
  Js.join Js.CRLF ls +:+ Js.CRLF =
  crlf_text (match ls with [] => [""] | _ => ls end).
Proof.
  destruct ls as [|l ls]; [reflexivity|].
  revert l. induction ls as [|l' ls IH]; intros l.
  - cbn [Js.join String.concat crlf_text]. by rewrite (app_nil_r_s Js.CRLF).
  - change (Js.join Js.CRLF (l :: l' :: ls))
      with (l +:+ Js.CRLF +:+ Js.join Js.CRLF (l' :: ls)).
    rewrite !app_assoc_s, IH. reflexivity.
Qed.

Lemma no_break_trimStart s : no_break s = true → no_break (Js.trimStart s) = true.
Proof.
  induction s as [|c s IH]; [done|]. intros H.
  cbn [Js.trimStart]. destruct (Js.is_ws c); [|done].
  apply IH. by apply no_break_cons in H as (_ & _ & H).
Qed.

Lemma no_break_trimEnd s : no_break s = true → no_break (Js.trimEnd s) = true.
Proof.
  induction s as [|c s IH]; [done|]. intros H.
  apply no_break_cons in H as (H1 & H2 & H3).
  cbn [Js.trimEnd]. destruct (_ && _); [done|].
  cbn. by rewrite H1, H2, IH.
Qed.

Lemma no_break_trim s : no_break s = true → no_break (Js.trim s) = true.
Proof. intros H. by apply no_break_trimEnd, no_break_trimStart. Qed.

(** The filter of [minifySDP] keeps the lines the specification retains:
    the two prefixes it tests first are prefixes of no line of the strip
    list. *)
Lemma keepLine_retained line : keepLine line = retained line.
Proof.
  unfold keepLine, retained, isMediaJunk, strip_list, Js.startsWith.
  destruct (Js.is_empty line); [done|]. cbn [negb andb forallb].
  destruct (String.prefix "a=mid:" line) eqn:Hmid.
  { apply prefix_app in Hmid as [r ->]. reflexivity. }
  destruct (String.prefix "a=msid-semantic:" line) eqn:Hsem.
  { apply prefix_app in Hsem as [r ->]. reflexivity. }
  cbn [orb]. repeat destruct (String.prefix _ line); reflexivity.
Qed.

Lemma minifySDP_sdp_text ls :
  Forall (λ l, no_break (fst l) = true) ls →
  minifySDP (sdp_text ls) = Js.join Js.CRLF (retained_lines ls) +:+ Js.CRLF.
Proof.
  intros H. unfold minifySDP, retained_lines.
  rewrite split_newlines_sdp_text by done.
  rewrite map_app, List.filter_app, map_map. cbn [map List.filter Js.trim Js.trimStart
    Js.trimEnd keepLine Js.is_empty]. rewrite app_nil_r.
  do 2 f_equal. apply List.filter_ext. intros l. apply keepLine_retained.
Qed.

Lemma retained_lines_no_break ls :
  Forall (λ l, no_break (fst l) = true) ls →
  Forall (λ l, no_break l = true) (retained_lines ls).
Proof.
  intros H. unfold retained_lines. apply Forall_forall.
  intros l Hl%list_elem_of_In. apply List.filter_In in Hl as [Hl _].
  apply in_map_iff in Hl as (x & <- & Hx%list_elem_of_In).
  rewrite Forall_forall in H. by apply no_break_trim, H.
Qed.

Lemma retained_lines_non_empty ls :
  List.filter non_empty (retained_lines ls) = retained_lines ls.
Proof.
  apply forallb_filter_id, forallb_forall. intros l Hl.
  unfold retained_lines in Hl. apply List.filter_In in Hl as [_ Hl].
  unfold retained in Hl. by apply andb_prop in Hl as [Hl _].
Qed.

Lemma restoreSDP_crlf_text ls :
  ls ≠ [] → Forall (λ l, no_break l = true) ls →
  restoreSDP (crlf_text ls) = crlf_text ls.
Proof.
  intros Hne H. unfold restoreSDP.
  rewrite crlf_text_non_empty by done.
  rewrite replace_newlines_crlf_text by done.
  by rewrite endsWith_crlf_text.
Qed.

(** ** The signalling codec *)

Lemma sdp_text_non_empty ls : ls ≠ [] → Js.is_empty (sdp_text ls) = false.
Proof.
  destruct ls as [|[l t] ls]; [done|]. intros _. cbn [sdp_text fst snd].
  destruct l; [by destruct t | done].
Qed.

Lemma encodeSignal_signal ty sdp :
  Js.is_empty sdp = false →
  encodeSignal (signal ty sdp) =
  Base64.btoa (string_of_list_byte (pako_deflate
    (JSON_stringify (JObj [("t", JStr ty); ("s", JStr (minifySDP sdp))])))).
Proof.
  intros H. unfold encodeSignal, signal, map_sdp.
  change (obj_get "sdp" [("type", JStr ty); ("sdp", JStr sdp)]) with (Some (JStr sdp)).
  cbv beta iota zeta. rewrite H. reflexivity.
Qed.

Section CodecLaws.

(** The two libraries are lossless: [inflate] undoes [deflate], and
    [JSON.parse] reads back the object that [JSON.stringify] wrote for a
    signal. *)
Hypothesis inflate_deflate : ∀ s, pako_inflate (pako_deflate s) = Some s.
Hypothesis parse_stringify : ∀ t s,
  JSON_parse (JSON_stringify (JObj [("t", JStr t); ("s", JStr s)]))
  = Some (JObj [("t", JStr t); ("s", JStr s)]).

Lemma decodeSignal_encoded t s :
  decodeSignal (Base64.btoa (string_of_list_byte (pako_deflate
    (JSON_stringify (JObj [("t", JStr t); ("s", JStr s)])))))
  = Ok (JObj (map_sdp restoreSDP (signal t s))).
Proof.
  unfold decodeSignal, decodeCompressed. rewrite trim_btoa, atob_btoa.
  cbn [mbind option_bind]. rewrite list_byte_of_string_of_list_byte.
  rewrite inflate_deflate. cbn [mbind option_bind].
  rewrite parse_stringify. reflexivity.
Qed.

(** C2. For a signal [x] with a type and an SDP body of at least one line,
    the lines ended by CRLF or LF, [decodeSignal (encodeSignal x)] is an
    object with the type of [x] whose [sdp] is a text [out] of lines that
    are each followed by CRLF (so [out] ends with CRLF), and the non-empty
    lines of [out] are exactly the trimmed non-empty lines of the input
    that have none of the prefixes of the strip list.  [out] is these lines
    joined by CRLF, with a final CRLF. *)
Theorem decode_encode_signal (ty : string) (ls : list (string * eol)) :
  ls ≠ [] →
  Forall (λ l, no_break (fst l) = true) ls →
  ∃ out lines,
    decodeSignal (encodeSignal (signal ty (sdp_text ls))) = Ok (JObj (signal ty out))
    ∧ out = crlf_text lines
    ∧ Forall (λ l, no_break l = true) lines
    ∧ List.filter non_empty lines = retained_lines ls
    ∧ Js.endsWith out Js.CRLF = true
    ∧ out = Js.join Js.CRLF (retained_lines ls) +:+ Js.CRLF
    ∧ (retained_lines ls ≠ [] → lines = retained_lines ls).
Proof.
  intros Hne Hls.
  set (kept := retained_lines ls).
  set (lines := match kept with [] => [""] | _ => kept end).
  assert (Hlines_ne : lines ≠ []) by (subst lines; by destruct kept).
  assert (Hnb : Forall (λ l, no_break l = true) lines).
  { subst lines. pose proof (retained_lines_no_break ls Hls) as H.
    fold kept in H. destruct kept; [by repeat constructor | done]. }
  assert (Hmin : minifySDP (sdp_text ls) = crlf_text lines).
  { rewrite minifySDP_sdp_text by done. apply join_crlf. }
  exists (crlf_text lines), lines. repeat split.
  - rewrite encodeSignal_signal by by apply sdp_text_non_empty.
    rewrite decodeSignal_encoded, Hmin. unfold map_sdp, signal.
    change (obj_get "sdp" [("type", JStr ty); ("sdp", JStr (crlf_text lines))])
      with (Some (JStr (crlf_text lines))).
    cbv beta iota zeta. rewrite crlf_text_non_empty by done.
    by rewrite restoreSDP_crlf_text.
  - done.
  - subst lines. pose proof (retained_lines_non_empty ls) as H. fold kept in H.
    by destruct kept.
  - by apply endsWith_crlf_text.
  - symmetry. apply join_crlf.
  - intros Hk. subst lines. by destruct kept.
Qed.

End CodecLaws.

(** ** The connection controller *)

Lemma decodeSignal_trim s : decodeSignal (Js.trim s) = decodeSignal s.
Proof. unfold decodeSignal. by rewrite trim_idem. Qed.

Lemma is_connected_spec c : is_connected c = true ↔ c = Connected.
Proof. by destruct c. Qed.

(** C10. On an input of white space only (the empty string included), and
    on any input when the connection state is [connected], [acceptOffer] and
    [acceptAnswer] return at once: the whole state of the hook, peers
    included, is unchanged. *)
Theorem accept_is_noop (s : string) (w : world) :
  all_ws s = true ∨ connectionState w = Connected →
  acceptOffer s w = w ∧ acceptAnswer s w = w.
Proof.
  intros [Hws | Hc]; unfold acceptOffer, acceptAnswer.
  - apply trim_all_ws in Hws. by rewrite Hws.
  - rewrite Hc. cbn [is_connected]. by destruct (Js.is_empty _).
Qed.

(** What [createPeerInstance] leaves behind. *)
Lemma createPeerInstance_spec init w :
  let w' := createPeerInstance init w in
  let old := match peerRef w with
             | Some h => alter with_destroyed h (peers w)
             | None => peers w
             end in
  peers w' = old ++ [new_peer init]
  ∧ peerRef w' = Some (length (peers w))
  ∧ peers w' !! length (peers w) = Some (new_peer init)
  ∧ connectionState w' = connectionState w
  ∧ localSignal w' = localSignal w
  ∧ signalStatus w' = signalStatus w
  ∧ error w' = error w
  ∧ transfers w' = transfers w
  ∧ messages w' = messages w.
Proof.
  unfold createPeerInstance, peer_destroy, update_peer.
  destruct (peerRef w) as [h|]; cbn; rewrite ?length_alter;
    (repeat split; try done).
  - apply list_lookup_middle. by rewrite length_alter.
  - by apply list_lookup_middle.
Qed.

(** C5, as the code has it. When [decodeSignal] rejects the input (and the
    input is not blank and the state is not [connected]), [acceptOffer] ends
    in state [error] with [signalStatus] and [localSignal] null and [error]
    one of the two invalid-offer keys.  The peer is constructed before the
    input is decoded: the previous peer, if there is one, has been
    destroyed (and is otherwise as it was), no other peer has changed, and
    a new peer that is not the initiator has been added to the store, with
    [peerRef] pointing at it. *)
Theorem acceptOffer_rejected (s message : string) (w : world) :
  all_ws s = false →
  connectionState w ≠ Connected →
  decodeSignal s = Throw message →
  let w' := acceptOffer s w in
  connectionState w' = StateError
  ∧ signalStatus w' = None
  ∧ localSignal w' = None
  ∧ (error w' = Some "invalidOffer" ∨ error w' = Some "invalidOfferFormat")
  ∧ peerRef w' = Some (length (peers w))
  ∧ peers w' !! length (peers w) = Some (new_peer false)
  ∧ length (peers w') = S (length (peers w))
  ∧ (∀ h p, peerRef w = Some h → peers w !! h = Some p →
       peers w' !! h = Some (with_destroyed p))
  ∧ (∀ h p, peerRef w ≠ Some h → peers w !! h = Some p → peers w' !! h = Some p).
Proof.
  intros Hws Hc Hdec w'. subst w'. unfold acceptOffer.
  destruct (Js.is_empty (Js.trim s)) eqn:E.
  { apply trim_all_ws in E. congruence. }
  destruct (is_connected (connectionState w)) eqn:E2.
  { by apply is_connected_spec in E2. }
  rewrite decodeSignal_trim, Hdec.
  match goal with |- context [createPeerInstance false ?x] =>
    destruct (createPeerInstance_spec false x) as (Hp & Hr & Hl & _ & Hls & _);
    set (w2 := createPeerInstance false x) in *
  end.
  clearbody w2. cbn in Hp, Hr, Hl, Hls.
  unfold offer_failed. cbn. repeat split; try done.
  - destruct (isDecodeError message); auto.
  - rewrite Hp, length_app. cbn. destruct (peerRef w); rewrite ?length_alter; lia.
  - intros h p Hh Hlk. rewrite Hp, Hh.
    rewrite lookup_app_l by (rewrite length_alter; by eapply lookup_lt_Some).
    by rewrite list_lookup_alter_eq, Hlk.
  - intros h p Hh Hlk. rewrite Hp.
    assert (Hlt : (h < length (peers w))%nat) by (by eapply lookup_lt_Some).
    destruct (peerRef w) as [h'|].
    + rewrite lookup_app_l by (by rewrite length_alter).
      rewrite list_lookup_alter_ne by congruence. done.
    + by rewrite lookup_app_l.
Qed.

(** The only error [decodeSignal] throws says neither [JSON] nor
    [base64]. *)
Lemma decodeSignal_message s message :
  decodeSignal s = Throw message → isDecodeError message = false.
Proof.
  unfold decodeSignal.
  destruct (decodeCompressed _); [done|]. destruct (decodeLegacy _); [done|].
  by intros [= <-].
Qed.

(** C6, as the code has it. In state [waitingForPeer], with a live peer in
    [peerRef], [acceptAnswer] on a string that decodes feeds the decoded
    answer to the peer and clears [error]; the connection state stays
    [waitingForPeer]. *)
Theorem acceptAnswer_keeps_state (s : string) (sig : json) (h : nat) (p : Peer)
    (w : world) :
  all_ws s = false →
  connectionState w = WaitingForPeer →
  peerRef w = Some h →
  peers w !! h = Some p →
  destroyed p = false →
  decodeSignal s = Ok sig →
  let w' := acceptAnswer s w in
  peers w' !! h = Some (with_signal sig p)
  ∧ error w' = None
  ∧ connectionState w' = WaitingForPeer.
Proof.
  intros Hws Hc Hr Hp Hd Hdec w'. subst w'. unfold acceptAnswer.
  destruct (Js.is_empty (Js.trim s)) eqn:E.
  { apply trim_all_ws in E. congruence. }
  rewrite Hc. cbn [is_connected]. rewrite decodeSignal_trim, Hdec.
  cbn [peerRef set_error]. rewrite Hr. unfold peer_signal. cbn [peers set_error].
  rewrite Hp, Hd. cbn. repeat split; try done.
  by rewrite list_lookup_alter_eq, Hp.
Qed.

(** C8, as the code has it. On an error of the peer with the code
    [ERR_WEBRTC_SUPPORT], the connection state becomes [error] and [error]
    is the fixed English sentence of the handler, unless the message of the
    error mentions ICE, in which case it is the key [iceFailed]. *)
Theorem on_error_unsupported (err : PeerError) (w : world) :
  err_code err = Some "ERR_WEBRTC_SUPPORT" →
  let message := match err_message err with
                 | Some m => if Js.is_empty m then "Connection failed" else m
                 | None => "Connection failed"
                 end in
  let w' := on_error err w in
  connectionState w' = StateError
  ∧ signalStatus w' = None
  ∧ error w' =
      Some (if Js.includes message "Ice connection" || Js.includes message "ICE"
            then "iceFailed"
            else "WebRTC not supported or blocked by browser.").
Proof.
  intros Hcode message w'. subst w' message. unfold on_error. rewrite Hcode.
  cbn [opt_eqb]. rewrite String.eqb_refl.
  by destruct (_ || _).
Qed.

(** ** The receive path *)

(** C9. A binary payload that step 1 of [handleData] does not read as a
    JSON message, arriving while there is no incoming assembly, changes
    nothing: the state of the hook after [handleData] is the state
    before. *)
Theorem binary_without_assembly_dropped (e : env) (b : list Byte.byte) (w : world) :
  incomingRef w = None →
  is_json_message (Binary b) = false →
  handleData e (Binary b) w = w.
Proof.
  intros Hinc Hjson. unfold handleData, is_json_message in *.
  destruct (parse_payload (Binary b)) as [msg|].
  - rewrite Hjson. unfold on_binary. by rewrite Hinc.
  - unfold on_binary. by rewrite Hinc.
Qed.

Lemma is_type_inj a b msg : is_type a msg = true → is_type b msg = true → a = b.
Proof.
  unfold is_type. destruct (field "type" msg) as [[]|]; try done.
  intros ->%String.eqb_eq ->%String.eqb_eq. done.
Qed.

Lemma is_type_other a b msg : is_type a msg = true → a ≠ b → is_type b msg = false.
Proof.
  intros Ha Hne. destruct (is_type b msg) eqn:Hb; [|done].
  destruct Hne. by eapply is_type_inj.
Qed.

Lemma is_type_truthy a msg : is_type a msg = true → truthy msg = true.
Proof. unfold is_type, field. by destruct msg. Qed.

(** C7, as the code has it. When a [file-meta] message arrives while an
    assembly is held, the assembly is replaced by an empty one for the new
    file and a record for the new file is appended; the records already in
    the list, the one of the interrupted transfer among them, are left as
    they are (it keeps the status it had), and nothing else changes. *)
Theorem file_meta_replaces_assembly (e : env) (data : payload) (msg : json)
    (inc : Incoming) (w : world) :
  incomingRef w = Some inc →
  parse_payload data = Some msg →
  is_type "file-meta" msg = true →
  let w' := handleData e data w in
  let id := match id_of (field "id" msg) with Some i => i | None => uid e 0%nat end in
  transfers w' =
    transfers w ++
    [ {| ft_id := id; ft_name := str_of (field "name" msg);
         ft_size := num_of (field "size" msg); ft_progress := Num 0;
         ft_speed := Number.zero; ft_status := Transferring; ft_direction := Receive;
         ft_eta := None; ft_startTime := Some (now e); ft_endTime := None |} ]
  ∧ incomingRef w' =
      Some {| inc_id := id; inc_name := str_of (field "name" msg);
              inc_size := num_of (field "size" msg);
              inc_totalChunks := num_of (field "totalChunks" msg);
              inc_chunks := []; inc_receivedBytes := 0; inc_startTime := now e |}
  ∧ cancelledRef w' = cancelledRef w
  ∧ messages w' = messages w
  ∧ downloads w' = downloads w
  ∧ peers w' = peers w.
Proof.
  intros Hinc Hparse Hmeta w' id. subst w' id.
  unfold handleData. rewrite Hparse, (is_type_truthy _ _ Hmeta).
  unfold on_message. rewrite Hmeta.
  rewrite !(is_type_other _ _ _ Hmeta) by done.
  done.
Qed.

(** ** The chunks of a file *)

Lemma ceil_div_bounds a b :
  0 < b → (ceil_div a b - 1) * b < a ∧ a <= ceil_div a b * b.
Proof. unfold ceil_div. intros Hb. nia. Qed.

Lemma totalChunks_of_bounds f :
  0 <= totalChunks_of f
  ∧ (totalChunks_of f - 1) * CHUNK_SIZE < f_size f
  ∧ f_size f <= totalChunks_of f * CHUNK_SIZE.
Proof.
  unfold totalChunks_of.
  destruct (ceil_div_bounds (f_size f) CHUNK_SIZE) as [H1 H2]; [done|].
  assert (0 <= f_size f) by (unfold f_size; lia).
  unfold CHUNK_SIZE in *. lia.
Qed.

Lemma firstn_firstn_skipn {A} (l : list A) (a b : nat) :
  (a <= b)%nat → firstn a l ++ firstn (b - a) (skipn a l) = firstn b l.
Proof.
  revert a b. induction l as [|x l IH]; intros a b H.
  - by rewrite skipn_nil, !firstn_nil.
  - destruct a as [|a], b as [|b]; cbn; try done; try lia.
    f_equal. apply IH. lia.
Qed.

Lemma chunk_at_length f k :
  Z.of_nat k < totalChunks_of f →
  chunk_length (chunk_at f k) =
    if Z.of_nat k + 1 <? totalChunks_of f then CHUNK_SIZE
    else f_size f - Z.of_nat k * CHUNK_SIZE.
Proof.
  intros Hk. destruct (totalChunks_of_bounds f) as (H0 & H1 & H2).
  unfold chunk_length, chunk_at, slice, f_size in *.
  rewrite length_firstn, length_skipn. unfold CHUNK_SIZE in *.
  destruct (Z.ltb_spec (Z.of_nat k + 1) (totalChunks_of f)); lia.
Qed.

Lemma concat_chunks_upto f n :
  Z.of_nat n <= totalChunks_of f →
  concat (chunks_upto f n) =
  firstn (Z.to_nat (Z.min (Z.of_nat n * CHUNK_SIZE) (f_size f))) (f_content f).
Proof.
  destruct (totalChunks_of_bounds f) as (H0 & H1 & H2).
  unfold chunks_upto. induction n as [|n IH]; intros Hn.
  - replace (Z.to_nat (Z.min (Z.of_nat 0 * CHUNK_SIZE) (f_size f))) with 0%nat
      by (unfold f_size, CHUNK_SIZE; lia).
    reflexivity.
  - rewrite seq_S, map_app, concat_app, IH by lia. cbn [map concat Nat.add].
    rewrite app_nil_r. unfold chunk_at, slice.
    replace (Z.to_nat (Z.min (Z.of_nat n * CHUNK_SIZE + CHUNK_SIZE) (f_size f)
                       - Z.of_nat n * CHUNK_SIZE))
      with (Z.to_nat (Z.min (Z.of_nat (S n) * CHUNK_SIZE) (f_size f))
            - Z.to_nat (Z.min (Z.of_nat n * CHUNK_SIZE) (f_size f)))%nat
      by (unfold CHUNK_SIZE in *; lia).
    replace (Z.to_nat (Z.of_nat n * CHUNK_SIZE))
      with (Z.to_nat (Z.min (Z.of_nat n * CHUNK_SIZE) (f_size f)))
      by (unfold CHUNK_SIZE in *; lia).
    apply firstn_firstn_skipn. unfold CHUNK_SIZE in *. lia.
Qed.

Lemma concat_file_chunks f : concat (file_chunks f) = f_content f.
Proof.
  destruct (totalChunks_of_bounds f) as (H0 & H1 & H2).
  unfold file_chunks. rewrite concat_chunks_upto by lia.
  apply firstn_all2. unfold f_size, CHUNK_SIZE in *. lia.
Qed.

Lemma chunks_upto_S f n : chunks_upto f (S n) = chunks_upto f n ++ [chunk_at f n].
Proof. unfold chunks_upto. by rewrite seq_S, map_app. Qed.

Lemma chunks_upto_length f n : length (chunks_upto f n) = n.
Proof. unfold chunks_upto. by rewrite length_map, length_seq. Qed.

(** ** One file through the send loop *)

Lemma peer_live_send h log d w :
  peer_live h log w →
  peer_send h d w = Some (update_peer (with_sent d) h w)
  ∧ peer_live h (log ++ [d]) (update_peer (with_sent d) h w).
Proof.
  intros (p & Hp & Hd & Ho & Hs). unfold peer_send. rewrite Hp, Hd, Ho. split; [done|].
  exists (with_sent d p). cbn. rewrite list_lookup_alter_eq, Hp. cbn.
  by rewrite Hs.
Qed.

Lemma peer_live_frame h log w w' :
  peers w' = peers w → peer_live h log w → peer_live h log w'.
Proof. intros E (p & Hp & H). exists p. by rewrite E. Qed.

Lemma peer_live_flags h log w :
  peer_live h log w → peer_destroyed h w = false ∧ peer_channel h w = true.
Proof.
  intros (p & Hp & Hd & Ho & _). unfold peer_destroyed, peer_channel.
  by rewrite Hp, Hd, Ho.
Qed.

Lemma peer_live_sent_by h log w : peer_live h log w → sent_by h w = log.
Proof. intros (p & Hp & _ & _ & Hs). unfold sent_by. by rewrite Hp. Qed.

Lemma engine_send id h log d w :
  engine id h log w →
  peer_send h d w = Some (update_peer (with_sent d) h w)
  ∧ engine id h (log ++ [d]) (update_peer (with_sent d) h w).
Proof.
  intros (Hq & Hc & Hl). destruct (peer_live_send h log d w Hl) as [E Hl'].
  by repeat split.
Qed.

Lemma engine_setTransfers id h log g w :
  engine id h log w → engine id h log (setTransfers g w).
Proof. intros (Hq & Hc & Hl). repeat split; try done. Qed.

Lemma engine_not_cancelled id h log w : engine id h log w → is_cancelled id w = false.
Proof. intros (_ & Hc & _). unfold is_cancelled. by apply bool_decide_eq_false. Qed.

Section OneFile.

Variables (id : string) (f : File) (h : nat) (base : list payload).

Let n : nat := Z.to_nat (totalChunks_of f).

Lemma meta_and_chunks_S k :
  meta_and_chunks id f (S k) = meta_and_chunks id f k ++ [Binary (chunk_at f k)].
Proof. unfold meta_and_chunks. by rewrite chunks_upto_S, map_app. Qed.

Lemma meta_and_chunks_all :
  meta_and_chunks id f n ++ [control file_complete] = file_wire id f.
Proof. reflexivity. Qed.

Lemma for_head_inv e k l w :
  (k <= n)%nat → locals_at id f h k l →
  engine id h (base ++ meta_and_chunks id f k) w →
  loop_inv id f h base (n - k + 1) (snd (for_head e l w)) (fst (for_head e l w)).
Proof.
  intros Hk (Hid & Hf & Hh & Ht & Hi) He.
  pose proof (totalChunks_of_bounds f) as (H0 & _).
  unfold for_head. rewrite Hi, Ht, Hid, Hh.
  destruct (Z.ltb_spec (Z.of_nat k) (totalChunks_of f)) as [Hlt|Hge].
  - rewrite (engine_not_cancelled _ _ _ _ He).
    destruct He as (Hq & Hc & Hl).
    destruct (peer_live_flags _ _ _ Hl) as [-> _]. cbn [fst snd loop_inv].
    exists k. repeat split; try done; subst n; lia.
  - assert (k = n) as -> by (subst n; lia).
    unfold after_chunks. rewrite Hid, Hh, (engine_not_cancelled _ _ _ _ He).
    cbn [negb andb].
    destruct (engine_send _ _ _ (control file_complete) _ He) as [-> (Hq & Hc & Hl)].
    cbn [fst snd loop_inv]. rewrite <- app_assoc, meta_and_chunks_all in Hl.
    repeat split; [lia|done|done].
Qed.

Lemma send_chunk_inv e k l w :
  (k < n)%nat → locals_at id f h k l →
  engine id h (base ++ meta_and_chunks id f k) w →
  loop_inv id f h base (n - S k + 1)
    (snd (send_chunk e l (chunk_at f k) w)) (fst (send_chunk e l (chunk_at f k) w)).
Proof.
  intros Hk Hl He. pose proof Hl as (Hid & Hf & Hh & Ht & Hi).
  unfold send_chunk. rewrite Hh.
  destruct (engine_send _ _ _ (Binary (chunk_at f k)) _ He) as [-> He'].
  rewrite <- app_assoc, <- meta_and_chunks_S in He'.
  destruct (_ || _).
  - apply for_head_inv; [lia| |by apply engine_setTransfers].
    repeat split; cbn; try done. lia.
  - apply for_head_inv; [lia| |done].
    repeat split; cbn; try done. lia.
Qed.

(** One resumption of the run keeps the invariant; it never needs more
    resumptions than before, and one fewer when the channel exerts no
    back-pressure. *)
Lemma resume_inv e m p w :
  loop_inv id f h base m (Some p) w →
  ∃ m', loop_inv id f h base m' (snd (resume e p w)) (fst (resume e p w))
        ∧ (m' <= m)%nat ∧ (no_back_pressure e → m = S m').
Proof.
  destruct p as [|l|l chunk|]; cbn [loop_inv resume].
  - (* the loop starts: the head of the queue is taken *)
    intros (-> & Hq & Hr & Hc & Hl).
    exists (n - 0 + 1)%nat. split; [|subst n; lia].
    unfold while_head. rewrite Hq. cbn [peerRef set_sendQueueRef]. rewrite Hr.
    assert (Hl1 : peer_live h base (set_sendQueueRef [] w)) by done.
    destruct (peer_live_flags _ _ _ Hl1) as [-> _].
    set (w2 := setTransfers _ _).
    assert (He : engine id h base w2) by done.
    destruct (engine_send _ _ _ (control (file_meta id f (totalChunks_of f))) _ He)
      as [E He'].
    fold (totalChunks_of f). rewrite E.
    apply for_head_inv; [lia|done|done].
  - (* a chunk has been read *)
    intros (k & -> & Hk & Hl & He).
    pose proof Hl as (Hid & Hf & Hh & Ht & Hi).
    assert (Hchunk : slice (l_file l) (l_i l * CHUNK_SIZE)
              (Z.min (l_i l * CHUNK_SIZE + CHUNK_SIZE) (f_size (l_file l)))
            = chunk_at f k) by (by rewrite Hf, Hi).
    unfold chunk_read. rewrite Hchunk, Hh.
    destruct He as (Hq & Hc & Hlive).
    destruct (peer_live_flags _ _ _ Hlive) as [_ ->].
    unfold drain. destruct (Z.gtb_spec (bufferedAmount e) HIGH_WATER_MARK) as [Hbp|Hbp].
    + exists (n - k + 1)%nat. cbn [fst snd loop_inv].
      split; [by exists k|]. split; [lia|]. unfold no_back_pressure. lia.
    + exists (n - S k + 1)%nat. split; [by apply send_chunk_inv|]. lia.
  - (* the back-pressure loop tests the buffer again *)
    intros (k & -> & Hk & Hl & -> & He).
    unfold drain. destruct (Z.gtb_spec (bufferedAmount e) HIGH_WATER_MARK) as [Hbp|Hbp].
    + exists (n - k + 1)%nat. cbn [fst snd loop_inv].
      split; [by exists k|]. split; [lia|]. unfold no_back_pressure. lia.
    + exists (n - S k + 1)%nat. split; [by apply send_chunk_inv|]. lia.
  - (* after the pause the queue is empty: the run ends *)
    intros (-> & Hq & Hl). exists 0%nat.
    unfold while_head. rewrite Hq. cbn [fst snd finish loop_inv].
    repeat split; try done; lia.
Qed.

Lemma run_loop_inv es m p w :
  loop_inv id f h base m p w →
  ∃ m', loop_inv id f h base m' (snd (run_loop es p w)) (fst (run_loop es p w))
        ∧ (Forall no_back_pressure es → m' = (m - length es)%nat).
Proof.
  revert m p w. induction es as [|e es IH]; intros m p w Hinv.
  - exists m. split; [done|]. intros _. cbn. lia.
  - destruct p as [p|].
    + destruct (resume_inv e m p w Hinv) as (m1 & Hinv1 & Hle & Hdec).
      destruct (IH _ _ _ Hinv1) as (m2 & Hinv2 & Hm2).
      exists m2. split; [done|].
      intros [He Hes]%Forall_cons. rewrite (Hdec He), (Hm2 Hes). cbn. lia.
    + exists m. split; [done|]. intros _.
      cbn in Hinv. destruct Hinv as (-> & _). done.
Qed.

End OneFile.

Lemma file_chunks_lookup f k :
  Z.of_nat k < totalChunks_of f → file_chunks f !! k = Some (chunk_at f k).
Proof.
  intros Hk. unfold file_chunks, chunks_upto.
  rewrite list_lookup_fmap, lookup_seq_lt by lia. done.
Qed.

(** C1. A file of [N] bytes is queued with [sendFiles] while the loop is
    idle, the queue is empty, the peer is connected and alive and the id is
    not cancelled; then the loop runs with nothing else happening.
    - [totalChunks] is the ceiling of [N / 65536]: the least [k] with
      [N <= k * 65536].
    - The file has [totalChunks] chunks; each has 65536 bytes except the
      last, which has the rest; together they are the bytes of the file, so
      their sizes sum to [N].
    - Whatever the schedule of resumptions, when the run has ended the peer
      has sent, after what it had sent before, exactly: the text of one
      message [{type: 'file-meta', id, name, size: N, totalChunks}] with
      this [totalChunks], the chunks in order as binary payloads, and the
      text of one message [{type: 'file-complete'}].
    - The run does end: a schedule without back-pressure of
      [totalChunks + 2] resumptions is enough. *)
Theorem send_file_wire (e0 : env) (f : File) (h : nat) (base : list payload)
    (w : world) :
  peerRef w = Some h →
  peer_live h base w →
  sendQueueRef w = [] →
  isSendingRef w = false →
  uid e0 0%nat ∉ cancelledRef w →
  let id := uid e0 0%nat in
  let N := f_size f in
  let total := totalChunks_of f in
  (0 <= total ∧ (total - 1) * 65536 < N ∧ N <= total * 65536)
  ∧ length (file_chunks f) = Z.to_nat total
  ∧ (∀ k c, file_chunks f !! k = Some c →
       chunk_length c = if Z.of_nat k + 1 <? total then 65536 else N - Z.of_nat k * 65536)
  ∧ concat (file_chunks f) = f_content f
  ∧ Z.of_nat (list_sum (map length (file_chunks f))) = N
  ∧ ∃ w1, sendFiles e0 [f] w = (w1, Some AwaitWakeLock)
     ∧ ∀ es,
         (snd (run_loop es (Some AwaitWakeLock) w1) = None →
          sent_by h (fst (run_loop es (Some AwaitWakeLock) w1)) =
            base
            ++ [Text (JSON_stringify
                        (JObj [("type", JStr "file-meta"); ("id", JStr id);
                               ("name", JStr (f_name f)); ("size", JNum N);
                               ("totalChunks", JNum total)]))]
            ++ map Binary (file_chunks f)
            ++ [Text (JSON_stringify (JObj [("type", JStr "file-complete")]))])
         ∧ (Forall no_back_pressure es →
            (Z.to_nat total + 2 <= length es)%nat →
            snd (run_loop es (Some AwaitWakeLock) w1) = None).
Proof.
  intros Hr Hl Hq Hs Hc id N total.
  change (Text (JSON_stringify (JObj [("type", JStr "file-complete")])))
    with (control file_complete).
  change (Text (JSON_stringify
                  (JObj [("type", JStr "file-meta"); ("id", JStr id);
                         ("name", JStr (f_name f)); ("size", JNum N);
                         ("totalChunks", JNum total)])))
    with (control (file_meta id f total)).
  pose proof (totalChunks_of_bounds f) as (H0 & H1 & H2).
  split; [done|]. split; [apply chunks_upto_length|].
  split.
  { intros k c Hk.
    assert (Hlt : Z.of_nat k < total).
    { apply lookup_lt_Some in Hk. unfold file_chunks in Hk.
      rewrite chunks_upto_length in Hk. subst total. lia. }
    rewrite file_chunks_lookup in Hk by done. injection Hk as <-.
    by rewrite chunk_at_length. }
  split; [apply concat_file_chunks|].
  split.
  { rewrite <- length_concat, concat_file_chunks. done. }
  unfold sendFiles, processNextFile. cbn [isSendingRef setTransfers set_transfers
    set_sendQueueRef]. rewrite Hs, Hq. cbn [new_entries imap app].
  eexists. split; [reflexivity|]. intros es.
  match goal with |- context [run_loop es _ ?w1] =>
    assert (Hinv : loop_inv id f h base (Z.to_nat total + 2) (Some AwaitWakeLock) w1)
  end.
  { cbn [loop_inv]. repeat split; try done. }
  destruct (run_loop_inv id f h base es _ _ _ Hinv) as (m' & Hinv' & Hm').
  split.
  - intros E. rewrite E in Hinv'. destruct Hinv' as (_ & _ & Hlive).
    by apply peer_live_sent_by in Hlive.
  - intros Hes Hlen. specialize (Hm' Hes).
    destruct (snd (run_loop es _ _)) as [p|]; [|done].
    assert (m' = 0%nat) as -> by lia.
    destruct p; cbn [loop_inv] in Hinv'.
    + lia.
    + destruct Hinv' as (k & ? & ? & _). lia.
    + destruct Hinv' as (k & ? & ? & _). lia.
    + lia.
Qed.

(** ** Cancelling a transfer in flight *)

Lemma has_id_true id t : has_id id t = true ↔ ft_id t = id.
Proof. apply String.eqb_eq. Qed.

Lemma Forall_update_where (P Q : FileTransfer → Prop) c g T :
  Forall P T →
  (∀ t, P t → c t = true → Q (g t)) →
  (∀ t, P t → c t = false → Q t) →
  Forall Q (update_where c g T).
Proof.
  intros HT Hg Hk. unfold update_where. apply Forall_map.
  eapply Forall_impl; [exact HT|]. intros t Ht. cbn.
  destruct (c t) eqn:E; auto.
Qed.

Lemma update_where_ids c g T :
  (∀ t, ft_id (g t) = ft_id t) → map ft_id (update_where c g T) = map ft_id T.
Proof.
  intros Hg. unfold update_where. rewrite map_map. apply map_ext.
  intros t. by destruct (c t).
Qed.

(** [cancelTransfer] on a transfer that is being sent over a live peer. *)
Lemma cancelTransfer_transferring A h log w :
  peerRef w = Some h →
  peer_live h log w →
  (∃ t, In t (transfers w) ∧ ft_id t = A) →
  Forall (λ t, ft_id t = A → ft_status t = Transferring) (transfers w) →
  cancelTransfer A w =
    setTransfers
      (update_where
         (fun t => has_id A t && (is_status Queued t || is_status Transferring t))
         (mark_stopped Cancelled))
      (set_sendQueueRef
         (List.filter (fun en => negb (String.eqb (fst en) A)) (sendQueueRef w))
         (update_peer (with_sent (control (file_cancel_id A))) h
            (set_cancelledRef ({[A]} ∪ cancelledRef w) w))).
Proof.
  intros Hr Hl (t & Hin & Hid) Hall. unfold cancelTransfer.
  destruct (find (has_id A) (transfers w)) as [t0|] eqn:Hfind.
  2:{ eapply find_none in Hfind; [|exact Hin]. apply has_id_true in Hid. congruence. }
  apply find_some in Hfind as [Hin0 Hid0]. apply has_id_true in Hid0.
  rewrite Forall_forall in Hall. apply list_elem_of_In in Hin0.
  assert (Hst : is_status Transferring t0 = true).
  { unfold is_status. by rewrite (Hall t0 Hin0 Hid0). }
  rewrite Hst. cbn [peerRef set_cancelledRef]. rewrite Hr.
  set (w1 := set_cancelledRef _ w).
  assert (Hl1 : peer_live h log w1) by done.
  destruct (peer_live_flags _ _ _ Hl1) as [-> _].
  destruct (peer_live_send _ _ (control (file_cancel_id A)) _ Hl1) as [-> _].
  reflexivity.
Qed.

(** C4, as the code has it. The transfer [A] is being sent: the loop stands
    at the read of a chunk or in the back-pressure loop, the peer it sends
    on is the one in [peerRef] and is alive with an open data channel, and
    the records of [A] have the status [transferring].  [cancelTransfer] is
    called on it, and the loop is resumed next.
    - [cancelTransfer] sends the text of one message
      [{type: 'file-cancel', id: A}], takes [A] off the queue and marks it
      [cancelled].
    - While the channel exerts back-pressure the loop only waits.
    - At its next resumption without back-pressure the loop sends the chunk
      it had read; then, if chunks remain, it finds the cancellation at the
      head of its next turn and sends the text of a second message
      [{type: 'file-cancel'}], which has no [id]; it sends no further chunk
      and stands at the pause between files.
    - [A] is [cancelled] at that point. *)
Theorem cancel_in_flight (e : env) (A : string) (l : locals) (h : nat)
    (log : list payload) (p : pc) (w : world) :
  peerRef w = Some h →
  peer_live h log w →
  l_id l = A →
  l_peer l = h →
  p = AwaitRead l ∨ p = AwaitDrain l (chunk_of l) →
  (∃ t, In t (transfers w) ∧ ft_id t = A) →
  Forall (λ t, ft_id t = A → ft_status t = Transferring) (transfers w) →
  let w1 := cancelTransfer A w in
  let r := resume e p w1 in
  let cancel_with_id :=
    Text (JSON_stringify (JObj [("type", JStr "file-cancel"); ("id", JStr A)])) in
  let cancel_without_id :=
    Text (JSON_stringify (JObj [("type", JStr "file-cancel")])) in
  sent_by h w1 = log ++ [cancel_with_id]
  ∧ Forall (λ t, ft_id t = A → ft_status t = Cancelled) (transfers w1)
  ∧ Forall (λ en, fst en ≠ A) (sendQueueRef w1)
  ∧ (¬ no_back_pressure e → r = (w1, Some (AwaitDrain l (chunk_of l))))
  ∧ (no_back_pressure e →
       snd r = Some AwaitPause
       ∧ sent_by h (fst r) =
           log
           ++ [cancel_with_id; Binary (chunk_of l)]
           ++ (if l_i l + 1 <? l_totalChunks l then [cancel_without_id] else [])
       ∧ Forall (λ t, ft_id t = A → ft_status t = Cancelled) (transfers (fst r))
       ∧ map ft_id (transfers (fst r)) = map ft_id (transfers w)
       ∧ sendQueueRef (fst r) = sendQueueRef w1).
Proof.
  intros Hr Hl Hid Hh Hp Hex Hall w1 r cancel_with_id cancel_without_id.
  change cancel_with_id with (control (file_cancel_id A)).
  change cancel_without_id with (control file_cancel).
  clear cancel_with_id cancel_without_id.
  assert (Ew1 : w1 = _)
    by (subst w1; exact (cancelTransfer_transferring A h log w Hr Hl Hex Hall)).
  set (T1 := update_where
         (fun t => has_id A t && (is_status Queued t || is_status Transferring t))
         (mark_stopped Cancelled) (transfers w)).
  assert (HT1 : Forall (λ t, ft_id t = A → ft_status t = Cancelled) T1).
  { subst T1. eapply Forall_update_where; [exact Hall|..]; [done|].
    intros t Ht Hc Hidt. specialize (Ht Hidt). apply has_id_true in Hidt.
    unfold is_status in Hc. rewrite Hidt, Ht in Hc. done. }
  assert (Hl1 : peer_live h (log ++ [control (file_cancel_id A)]) w1).
  { rewrite Ew1. eapply peer_live_frame; [|by eapply peer_live_send]. done. }
  assert (Hc1 : is_cancelled A w1 = true).
  { rewrite Ew1. unfold is_cancelled. cbn. apply bool_decide_eq_true.
    by apply elem_of_union_l, elem_of_singleton. }
  assert (HTw1 : transfers w1 = T1) by (by rewrite Ew1).
  split; [by apply peer_live_sent_by|].
  split; [by rewrite HTw1|].
  split.
  { rewrite Ew1. cbn. apply Forall_forall. intros en Hen%list_elem_of_In.
    apply List.filter_In in Hen as [_ Hen]. apply negb_true_iff in Hen.
    apply String.eqb_neq in Hen. done. }
  clearbody w1.
  (* the resumption *)
  assert (Hres : r = drain e l (chunk_of l) w1).
  { subst r. destruct Hp as [-> | ->]; cbn [resume]; [|done].
    unfold chunk_read. fold (chunk_of l). rewrite Hh.
    by destruct (peer_live_flags _ _ _ Hl1) as [_ ->]. }
  rewrite Hres. clear Hres r. unfold drain, no_back_pressure.
  destruct (Z.gtb_spec (bufferedAmount e) HIGH_WATER_MARK) as [Hbp|Hbp].
  { split; [done|]. lia. }
  split; [lia|]. intros _.
  unfold send_chunk. rewrite Hh.
  destruct (peer_live_send _ _ (Binary (chunk_of l)) _ Hl1) as [-> Hl2].
  set (w2 := update_peer _ h w1) in *.
  (* the state after the progress update, whichever branch is taken *)
  assert (Hnext : ∃ l' w3,
    (if (now e - l_lastProgressUpdate l >? PROGRESS_THROTTLE)
        || (l_i l =? l_totalChunks l - 1)
     then for_head e
            (next_chunk (l_sentBytes l + chunk_length (chunk_of l)) (now e) l)
            (setTransfers
               (update_where (has_id (l_id l))
                  (mark_progress
                     (percent (l_sentBytes l + chunk_length (chunk_of l)) (f_size (l_file l)))
                     (rate (l_sentBytes l + chunk_length (chunk_of l)) (now e)
                        (l_currentStartTime l))
                     (remaining (f_size (l_file l))
                        (l_sentBytes l + chunk_length (chunk_of l))
                        (rate (l_sentBytes l + chunk_length (chunk_of l)) (now e)
                           (l_currentStartTime l))))) w2)
     else for_head e
            (next_chunk (l_sentBytes l + chunk_length (chunk_of l))
               (l_lastProgressUpdate l) l) w2)
    = for_head e l' w3
    ∧ l_id l' = A ∧ l_peer l' = h ∧ l_i l' = l_i l + 1
    ∧ l_totalChunks l' = l_totalChunks l
    ∧ peers w3 = peers w2 ∧ cancelledRef w3 = cancelledRef w1
    ∧ sendQueueRef w3 = sendQueueRef w1
    ∧ Forall (λ t, ft_id t = A → ft_status t = Cancelled) (transfers w3)
    ∧ map ft_id (transfers w3) = map ft_id (transfers w)).
  { destruct (_ || _); eexists _, _; (split; [reflexivity|]);
      repeat split; try done.
    - cbn [transfers setTransfers set_transfers]. subst w2.
      cbn [transfers update_peer set_peers]. rewrite HTw1.
      eapply Forall_update_where; [exact HT1|..]; done.
    - cbn [transfers setTransfers set_transfers]. subst w2.
      cbn [transfers update_peer set_peers]. rewrite HTw1. subst T1.
      by rewrite !update_where_ids.
    - subst w2. cbn [transfers update_peer set_peers]. by rewrite HTw1.
    - subst w2. cbn [transfers update_peer set_peers]. rewrite HTw1. subst T1.
      by rewrite update_where_ids. }
  destruct Hnext as (l' & w3 & -> & Hid' & Hh' & Hi' & Ht' & Hp3 & Hc3 & Hq3 & HT3 & Hids3).
  assert (Hl3 : peer_live h ((log ++ [control (file_cancel_id A)]) ++ [Binary (chunk_of l)]) w3)
    by (by eapply peer_live_frame).
  assert (Hcan3 : is_cancelled A w3 = true).
  { unfold is_cancelled in *. by rewrite Hc3. }
  unfold for_head. rewrite Hi', Ht', Hid', Hh', Hcan3.
  destruct (Z.ltb_spec (l_i l + 1) (l_totalChunks l)) as [Hlt|Hge].
  - destruct (peer_live_send _ _ (control file_cancel) _ Hl3) as [-> Hl4].
    unfold after_chunks. cbn [negb andb fst snd].
    split; [done|]. split.
    { erewrite peer_live_sent_by; [|eapply peer_live_frame; [|exact Hl4]; done].
      by rewrite <- !app_assoc. }
    split.
    { cbn [transfers setTransfers set_transfers set_cancelledRef update_peer set_peers].
      eapply Forall_update_where; [exact HT3|..]; done. }
    split.
    { cbn [transfers setTransfers set_transfers set_cancelledRef update_peer set_peers].
      by rewrite update_where_ids. }
    done.
  - unfold after_chunks. rewrite Hid', Hcan3. cbn [negb andb fst snd].
    split; [done|]. split.
    { erewrite peer_live_sent_by; [|exact Hl3]. by rewrite <- !app_assoc, app_nil_r. }
    done.
Qed.

(** ** Progress and completion in every reachable state *)

Lemma NoDup_submseteq_mono (l k : list string) : NoDup k → l ⊆+ k → NoDup l.
Proof.
  intros Hk Hl. apply submseteq_Permutation in Hl as [k' Hp].
  rewrite Hp in Hk. by apply NoDup_app in Hk as [? _].
Qed.

Lemma tracked_shrink T act act' : act' ⊆+ act → tracked T act → tracked T act'.
Proof.
  intros Hs (Hnd & Hact & Hfull). repeat split; [by eapply NoDup_submseteq_mono| |done].
  eapply Forall_impl; [exact Hact|]. cbn. intros t Ht Hin.
  apply Ht. by eapply elem_of_submseteq.
Qed.

(** Records of the condition [c] are stopped ([cancelled] or [error]) or
    marked [transferring]. *)
Lemma tracked_update_status T act c g :
  (∀ t, ft_id (g t) = ft_id t) →
  (∀ t, ft_status (g t) ≠ Completed) →
  tracked T act → tracked (update_where c g T) act.
Proof.
  intros Hid Hst (Hnd & Hact & Hfull). repeat split; [done|..].
  - eapply Forall_update_where; [exact Hact|..]; cbn; [|done].
    intros t _ _ _. apply Hst.
  - eapply Forall_update_where; [exact Hfull|..]; cbn; [|done].
    intros t _ _ E. by apply Hst in E.
Qed.

(** The progress of the records of an id in use is updated. *)
Lemma tracked_update_progress T act X p sp eta :
  X ∈ act →
  tracked T act → tracked (update_where (has_id X) (mark_progress p sp eta) T) act.
Proof.
  intros HX (Hnd & Hact & Hfull). repeat split; [done|..].
  - eapply Forall_update_where; [exact Hact|..]; cbn; done.
  - apply Forall_forall. intros t' Ht'. unfold update_where in Ht'.
    apply list_elem_of_fmap in Ht' as (t & -> & Ht).
    rewrite Forall_forall in Hact, Hfull.
    destruct (has_id X t) eqn:E; [|by apply Hfull].
    intros Hc. cbn in Hc. apply has_id_true in E.
    exfalso. apply (Hact t Ht); [by rewrite E | done].
Qed.

(** The records of an id are completed when the id goes out of use. *)
Lemma tracked_complete T act X endTime :
  tracked T (X :: act) →
  tracked (update_where (has_id X) (mark_completed endTime) T) act.
Proof.
  intros (Hnd & Hact & Hfull). apply NoDup_cons in Hnd as [HX Hnd].
  rewrite Forall_forall in Hact, Hfull.
  repeat split; [done|..]; apply Forall_forall; intros t' Ht';
    unfold update_where in Ht'; apply list_elem_of_fmap in Ht' as (t & -> & Ht);
    destruct (has_id X t) eqn:E.
  - apply has_id_true in E. cbn. intros Hin. by rewrite E in Hin.
  - intros Hin. apply (Hact t Ht). by apply elem_of_cons; right.
  - done.
  - by apply Hfull.
Qed.

(** New records with new ids are appended. *)
Lemma tracked_append T act news :
  NoDup (map ft_id news) →
  Forall (λ x, (x ∉ act) ∧ (x ∉ map ft_id T)) (map ft_id news) →
  Forall (λ t, ft_status t ≠ Completed) news →
  tracked T act → tracked (T ++ news) (act ++ map ft_id news).
Proof.
  intros Hnd' Hfresh Hnew (Hnd & Hact & Hfull).
  rewrite Forall_forall in Hfresh.
  repeat split.
  - apply NoDup_app. repeat split; [done| |done].
    intros x Hx Hx'. by destruct (Hfresh x Hx').
  - apply Forall_app. split.
    + rewrite Forall_forall in Hact. apply Forall_forall. intros t Ht Hin.
      apply elem_of_app in Hin as [Hin|Hin]; [by apply Hact|].
      destruct (Hfresh _ Hin) as [_ Hn]. destruct Hn.
      apply list_elem_of_fmap. by exists t.
    + eapply Forall_impl; [exact Hnew|]. done.
  - apply Forall_app. split; [done|].
    eapply Forall_impl; [exact Hnew|]. intros t Ht Hc. done.
Qed.

Lemma peer_send_Some h d w w' :
  peer_send h d w = Some w' → w' = update_peer (with_sent d) h w.
Proof.
  unfold peer_send. destruct (peers w !! h) as [p|]; [|done].
  destruct (destroyed p); [done|]. destruct (channelOpen p); [|done].
  by intros [= <-].
Qed.

Lemma keeps_tracked_frame r w w' act :
  sendQueueRef w' = sendQueueRef w → incomingRef w' = incomingRef w →
  keeps_tracked r w' act → keeps_tracked r w act.
Proof. intros Hq Hi (H1 & H2 & H3). split; [done|]. split; congruence. Qed.

Lemma keeps_tracked_stop w act flag :
  tracked (transfers w) act →
  keeps_tracked (set_isSendingRef flag w, None) w act.
Proof. intros H. split; [done | by split]. Qed.

Lemma after_chunks_tracked e b l w act :
  tracked (transfers w) (l_id l :: act) →
  keeps_tracked (after_chunks e b l w) w act.
Proof.
  intros H. unfold after_chunks.
  assert (Hs : tracked (transfers w) act).
  { eapply tracked_shrink; [|exact H]. solve_submseteq. }
  destruct (negb b && _).
  - destruct (peer_send _ _ w) as [w1|] eqn:E.
    + apply peer_send_Some in E as ->.
      split; [by apply tracked_complete | by split].
    + by apply keeps_tracked_stop.
  - split; [done | by split].
Qed.

Lemma for_head_tracked e l w act :
  tracked (transfers w) (l_id l :: act) →
  keeps_tracked (for_head e l w) w act.
Proof.
  intros H. unfold for_head.
  assert (Hs : tracked (transfers w) act).
  { eapply tracked_shrink; [|exact H]. solve_submseteq. }
  destruct (l_i l <? l_totalChunks l); [|by apply after_chunks_tracked].
  destruct (is_cancelled (l_id l) w).
  - destruct (peer_send _ _ w) as [w1|] eqn:E; [|by apply keeps_tracked_stop].
    apply peer_send_Some in E as ->.
    eapply keeps_tracked_frame; [| |apply after_chunks_tracked]; [done|done|].
    by apply tracked_update_status.
  - destruct (peer_destroyed (l_peer l) w).
    + eapply keeps_tracked_frame; [| |apply after_chunks_tracked]; [done|done|].
      by apply tracked_update_status.
    + split; [done | by split].
Qed.

Lemma send_chunk_tracked e l chunk w act :
  tracked (transfers w) (l_id l :: act) →
  keeps_tracked (send_chunk e l chunk w) w act.
Proof.
  intros H. unfold send_chunk.
  destruct (peer_send _ _ w) as [w1|] eqn:E.
  - apply peer_send_Some in E as ->.
    destruct (_ || _).
    + eapply keeps_tracked_frame; [| |apply for_head_tracked]; [done|done|].
      apply tracked_update_progress; [|done]. by apply elem_of_cons; left.
    + eapply keeps_tracked_frame; [| |apply for_head_tracked]; done.
  - eapply keeps_tracked_frame; [| |apply after_chunks_tracked]; [done|done|].
    by apply tracked_update_status.
Qed.

Lemma drain_tracked e l chunk w act :
  tracked (transfers w) (l_id l :: act) →
  keeps_tracked (drain e l chunk w) w act.
Proof.
  intros H. unfold drain. destruct (_ >? _); [split; [done | by split]|].
  by apply send_chunk_tracked.
Qed.

Lemma chunk_read_tracked e l w act :
  tracked (transfers w) (l_id l :: act) →
  keeps_tracked (chunk_read e l w) w act.
Proof.
  intros H. unfold chunk_read.
  destruct (peer_channel _ _); [by apply drain_tracked | by apply send_chunk_tracked].
Qed.

Lemma while_head_tracked e w act :
  tracked (transfers w) (map fst (sendQueueRef w) ++ act) →
  tracked (transfers (fst (while_head e w)))
    (opt_loop_id (snd (while_head e w))
     ++ map fst (sendQueueRef (fst (while_head e w))) ++ act)
  ∧ incomingRef (fst (while_head e w)) = incomingRef w.
Proof.
  intros H. unfold while_head.
  destruct (sendQueueRef w) as [|[id file] rest] eqn:Hq.
  { cbn. by rewrite Hq. }
  cbn [map fst app] in H.
  assert (Hs : tracked (transfers w) (map fst rest ++ act)).
  { eapply tracked_shrink; [|exact H]. solve_submseteq. }
  cbn [peerRef set_sendQueueRef].
  destruct (peerRef w) as [peer|]; [|done].
  destruct (peer_destroyed _ _).
  { done. }
  set (w2 := setTransfers _ _).
  assert (H2 : tracked (transfers w2) (id :: map fst rest ++ act)).
  { subst w2. by apply tracked_update_status. }
  destruct (peer_send _ _ w2) as [w3|] eqn:E.
  - apply peer_send_Some in E as ->.
    match goal with |- context [for_head e ?l ?w3] =>
      destruct (for_head_tracked e l w3 (map fst rest ++ act)) as (Ht & Hq' & Hi')
    end; [done|].
    by rewrite Hq', Hi'.
  - cbn [fst snd finish opt_loop_id app]. split; [|done].
    eapply tracked_shrink; [|exact H2]. cbn. solve_submseteq.
Qed.

Lemma same_engine_tracked w w' loops :
  same_engine w w' →
  tracked (transfers w) (active_of w loops) →
  tracked (transfers w') (active_of w' loops).
Proof.
  intros (Ht & Hq & Hi). unfold active_of, incoming_id. by rewrite Ht, Hq, Hi.
Qed.

Lemma same_engine_refl w : same_engine w w.
Proof. by repeat split. Qed.

Lemma same_engine_trans w1 w2 w3 :
  same_engine w1 w2 → same_engine w2 w3 → same_engine w1 w3.
Proof. intros (?&?&?) (?&?&?). repeat split; congruence. Qed.

Lemma same_engine_update_peer g h w : same_engine w (update_peer g h w).
Proof. by repeat split. Qed.

Lemma same_engine_createPeerInstance init w : same_engine w (createPeerInstance init w).
Proof. unfold createPeerInstance. by destruct (peerRef w). Qed.

Lemma same_engine_peer_signal h sig w w' :
  peer_signal h sig w = Ok w' → same_engine w w'.
Proof.
  unfold peer_signal. destruct (peers w !! h) as [p|]; [|done].
  destruct (destroyed p); [done|]. by intros [= <-].
Qed.

Lemma same_engine_acceptOffer o w : same_engine w (acceptOffer o w).
Proof.
  unfold acceptOffer.
  destruct (Js.is_empty _); [apply same_engine_refl|].
  destruct (is_connected _); [apply same_engine_refl|].
  set (w1 := set_connectionState _ _).
  assert (H1 : same_engine w (createPeerInstance false w1)).
  { eapply (same_engine_trans _ w1); [done | apply same_engine_createPeerInstance]. }
  destruct (decodeSignal _); [|done].
  destruct (peerRef _); [|done].
  destruct (peer_signal _ _ _) as [w3|] eqn:E; [|done].
  eapply same_engine_trans; [exact H1|]. by eapply same_engine_peer_signal.
Qed.

Lemma same_engine_acceptAnswer a w : same_engine w (acceptAnswer a w).
Proof.
  unfold acceptAnswer.
  destruct (Js.is_empty _); [apply same_engine_refl|].
  destruct (is_connected _); [apply same_engine_refl|].
  destruct (decodeSignal _); [|done].
  cbn [peerRef set_error]. destruct (peerRef w); [|done].
  destruct (peer_signal _ _ _) as [w3|] eqn:E; [|done].
  eapply (same_engine_trans _ (set_error None w)); [done|].
  by eapply same_engine_peer_signal.
Qed.

Lemma same_engine_sendMessage e text w : same_engine w (sendMessage e text w).
Proof.
  unfold sendMessage.
  destruct (Js.is_empty _); [apply same_engine_refl|].
  destruct (peerRef w); [|apply same_engine_refl].
  destruct (peer_destroyed _ _); [apply same_engine_refl|].
  destruct (peer_send _ _ _) as [w1|] eqn:E; [|apply same_engine_refl].
  by apply peer_send_Some in E as ->.
Qed.

Lemma same_engine_on_signal data w : same_engine w (on_signal data w).
Proof.
  unfold on_signal. destruct (obj_get _ _) as [[]|]; try apply same_engine_refl.
  destruct (_ || _); [done | apply same_engine_refl].
Qed.

Lemma same_engine_on_error err w : same_engine w (on_error err w).
Proof.
  unfold on_error. destruct (_ || _); [done|]. by destruct (opt_eqb _ _).
Qed.

Lemma same_engine_on_timeout w : same_engine w (on_timeout w).
Proof.
  unfold on_timeout. destruct (is_connecting _); [|apply same_engine_refl].
  cbn [peerRef set_connectionState set_error]. by destruct (peerRef w).
Qed.

Lemma filter_queue_submseteq (g : string * File → bool) (q : list (string * File)) :
  map fst (List.filter g q) ⊆+ map fst q.
Proof.
  induction q as [|en q IH]; [done|].
  cbn [List.filter]. destruct (g en); cbn [map];
    [by apply submseteq_skip | by apply submseteq_cons].
Qed.

(** *** The receive path keeps the invariant *)

Section Handlers.

Variable loops : list pc.

Let lids : list string := concat (map loop_id loops).

Lemma on_file_meta_tracked e msg w :
  meta_id e msg ∉ map ft_id (transfers w) →
  meta_id e msg ∉ active_of w loops →
  tracked (transfers w) (active_of w loops) →
  tracked (transfers (on_file_meta e msg w)) (active_of (on_file_meta e msg w) loops).
Proof.
  intros Hf1 Hf2 H. unfold on_file_meta. fold (meta_id e msg).
  unfold active_of, incoming_id in *.
  cbn [transfers setTransfers set_transfers set_incomingRef sendQueueRef incomingRef
       inc_id].
  fold lids in H, Hf2 |- *.
  set (new := mkFileTransfer _ _ _ _ _ _ _ _ _ _).
  change [meta_id e msg] with (map ft_id [new]).
  rewrite app_assoc. apply tracked_append.
  - apply NoDup_singleton.
  - apply Forall_singleton. split; [|done].
    intros Hin. apply Hf2. rewrite app_assoc. apply elem_of_app. by left.
  - by apply Forall_singleton.
  - eapply tracked_shrink; [|exact H]. solve_submseteq.
Qed.

Lemma on_file_complete_tracked e inc w :
  incomingRef w = Some inc →
  tracked (transfers w) (active_of w loops) →
  tracked (transfers (on_file_complete e inc w))
    (active_of (on_file_complete e inc w) loops).
Proof.
  intros Hi H. unfold on_file_complete, active_of, incoming_id in *.
  cbn [transfers setTransfers set_transfers set_incomingRef set_downloads
       sendQueueRef incomingRef].
  rewrite Hi in H. fold lids in H |- *. rewrite app_nil_r.
  apply tracked_complete. eapply tracked_shrink; [|exact H]. solve_submseteq.
Qed.

Lemma on_file_cancel_tracked msg w :
  tracked (transfers w) (active_of w loops) →
  tracked (transfers (on_file_cancel msg w)) (active_of (on_file_cancel msg w) loops).
Proof.
  intros H. unfold on_file_cancel.
  set (cancelId := match id_of _ with Some i => Some i | None => _ end).
  set (w1 := match cancelId with Some c => _ | None => w end).
  assert (H1 : tracked (transfers w1) (active_of w1 loops)).
  { subst w1. destruct cancelId as [c|]; [|done].
    destruct (Js.is_empty c); [done|].
    unfold active_of, incoming_id.
    cbn [transfers setTransfers set_transfers set_cancelledRef sendQueueRef incomingRef].
    by apply tracked_update_status. }
  clearbody w1. destruct (incomingRef w1) as [inc|] eqn:Hi; [|done].
  destruct cancelId as [c|]; [|done].
  destruct (String.eqb _ _); [|done].
  unfold active_of, incoming_id in *.
  cbn [transfers set_incomingRef sendQueueRef incomingRef]. rewrite Hi in H1.
  eapply tracked_shrink; [|exact H1]. solve_submseteq.
Qed.

Lemma on_binary_tracked e data w :
  tracked (transfers w) (active_of w loops) →
  tracked (transfers (on_binary e data w)) (active_of (on_binary e data w) loops).
Proof.
  intros H. unfold on_binary.
  destruct (incomingRef w) as [inc|] eqn:Hi; [|done].
  destruct data as [|chunk]; [done|].
  unfold active_of, incoming_id in *.
  cbn [transfers setTransfers set_transfers set_incomingRef sendQueueRef incomingRef
       inc_id].
  rewrite Hi in H.
  apply tracked_update_progress; [|done].
  apply elem_of_app; right. apply elem_of_app; right. by apply list_elem_of_singleton.
Qed.

Lemma handleData_tracked e data w :
  match parse_payload data with
  | Some msg =>
      truthy msg = true → is_type "file-meta" msg = true →
      (meta_id e msg ∉ map ft_id (transfers w)) ∧ (meta_id e msg ∉ active_of w loops)
  | None => True
  end →
  tracked (transfers w) (active_of w loops) →
  tracked (transfers (handleData e data w)) (active_of (handleData e data w) loops).
Proof.
  intros Hfresh H. unfold handleData.
  destruct (parse_payload data) as [msg|]; [|by apply on_binary_tracked].
  destruct (truthy msg) eqn:Ht; [|by apply on_binary_tracked].
  unfold on_message.
  set (w1 := if is_type "file-meta" msg then _ else w).
  assert (H1 : tracked (transfers w1) (active_of w1 loops)).
  { subst w1. destruct (is_type "file-meta" msg) eqn:Hm; [|done].
    destruct (Hfresh eq_refl eq_refl). by apply on_file_meta_tracked. }
  clearbody w1.
  set (w2 := if is_type "file-complete" msg then _ else w1).
  assert (H2 : tracked (transfers w2) (active_of w2 loops)).
  { subst w2. destruct (is_type "file-complete" msg); [|done].
    destruct (incomingRef w1) eqn:Hi; [|done]. by apply on_file_complete_tracked. }
  clearbody w2.
  set (w3 := if is_type "file-cancel" msg then _ else w2).
  assert (H3 : tracked (transfers w3) (active_of w3 loops)).
  { subst w3. destruct (is_type "file-cancel" msg); [|done].
    by apply on_file_cancel_tracked. }
  clearbody w3.
  by destruct (is_type "chat" msg).
Qed.

(** *** The commands keep the invariant *)

Lemma cancelTransfer_tracked id w :
  tracked (transfers w) (active_of w loops) →
  tracked (transfers (cancelTransfer id w)) (active_of (cancelTransfer id w) loops).
Proof.
  intros H. unfold cancelTransfer.
  destruct (find _ _) as [transfer|]; [|done].
  set (w1 := set_cancelledRef _ w).
  assert (H1 : tracked (transfers w1) (active_of w1 loops)) by done.
  set (notified := if is_status Transferring transfer then _ else Some w1).
  assert (Hn : ∀ w2, notified = Some w2 → same_engine w1 w2).
  { subst notified. intros w2. destruct (is_status _ _).
    - destruct (peerRef w1).
      + destruct (peer_destroyed _ _).
        * intros [= <-]. apply same_engine_refl.
        * intros E. apply peer_send_Some in E as ->. apply same_engine_update_peer.
      + intros [= <-]. apply same_engine_refl.
    - intros [= <-]. apply same_engine_refl. }
  destruct notified as [w2|]; [|done].
  specialize (Hn w2 eq_refl).
  apply (same_engine_tracked _ _ loops Hn) in H1.
  unfold active_of, incoming_id in *.
  cbn [transfers setTransfers set_transfers set_sendQueueRef sendQueueRef incomingRef].
  apply tracked_update_status; [done|done|].
  eapply tracked_shrink; [|exact H1].
  apply submseteq_skips_r, filter_queue_submseteq.
Qed.

Lemma disconnect_tracked w :
  tracked (transfers w) (active_of w loops) →
  tracked (transfers (disconnect w)) (active_of (disconnect w) loops).
Proof.
  intros H. unfold disconnect, active_of, incoming_id in *.
  cbn [transfers sendQueueRef incomingRef map app].
  repeat split; [|done|done].
  destruct H as (Hnd & _). eapply NoDup_submseteq_mono; [exact Hnd|].
  solve_submseteq.
Qed.

End Handlers.

(** *** The send loop and [sendFiles] keep the invariant *)

Lemma loops_update k p (loops : list pc) (r : option pc) :
  loops !! k = Some p →
  match r with Some p' => <[k := p']> loops | None => delete k loops end
  = take k loops ++ option_list r ++ drop (S k) loops.
Proof.
  intros Hk. destruct r as [p'|]; cbn [option_list app].
  - apply insert_take_drop. by eapply lookup_lt_Some.
  - apply delete_take_drop.
Qed.

Lemma loop_ids_update (L1 L2 : list pc) (r : option pc) :
  concat (map loop_id (L1 ++ option_list r ++ L2))
  = concat (map loop_id L1) ++ opt_loop_id r ++ concat (map loop_id L2).
Proof.
  rewrite !map_app, !concat_app. destruct r; cbn; [|done]. by rewrite app_nil_r.
Qed.

Lemma resume_tracked e k p w loops :
  loops !! k = Some p →
  tracked (transfers w) (active_of w loops) →
  tracked (transfers (fst (resume e p w)))
    (active_of (fst (resume e p w))
       (match snd (resume e p w) with
        | Some p' => <[k := p']> loops
        | None => delete k loops
        end)).
Proof.
  intros Hk H. rewrite (loops_update k p) by done.
  rewrite <- (take_drop_middle loops k p Hk) in H.
  unfold active_of in *.
  change (p :: drop (S k) loops) with (option_list (Some p) ++ drop (S k) loops) in H.
  rewrite loop_ids_update in *. cbn [opt_loop_id] in H.
  set (L1 := concat (map loop_id (take k loops))) in *.
  set (L2 := concat (map loop_id (drop (S k) loops))) in *.
  assert (Hloop : ∀ l r,
    loop_id p = [l_id l] →
    keeps_tracked r w (map fst (sendQueueRef w) ++ L1 ++ L2 ++ incoming_id w) →
    tracked (transfers (fst r))
      (map fst (sendQueueRef (fst r)) ++ (L1 ++ opt_loop_id (snd r) ++ L2)
       ++ incoming_id (fst r))).
  { intros l r Hp (Ht & Hq & Hi).
    assert (Hinc : incoming_id (fst r) = incoming_id w)
      by (unfold incoming_id; by rewrite Hi).
    rewrite Hq, Hinc. eapply tracked_shrink; [|exact Ht]. solve_submseteq. }
  assert (Hwhile : loop_id p = [] →
    tracked (transfers (fst (while_head e w)))
      (map fst (sendQueueRef (fst (while_head e w)))
       ++ (L1 ++ opt_loop_id (snd (while_head e w)) ++ L2)
       ++ incoming_id (fst (while_head e w)))).
  { intros Hp. rewrite Hp in H.
    destruct (while_head_tracked e w (L1 ++ L2 ++ incoming_id w)) as [Ht Hi].
    { eapply tracked_shrink; [|exact H]. solve_submseteq. }
    assert (Hinc : incoming_id (fst (while_head e w)) = incoming_id w)
      by (unfold incoming_id; by rewrite Hi).
    rewrite Hinc. eapply tracked_shrink; [|exact Ht]. solve_submseteq. }
  destruct p as [|l|l chunk|]; cbn [resume].
  - by apply Hwhile.
  - apply (Hloop l); [done|]. apply chunk_read_tracked.
    eapply tracked_shrink; [|exact H]. cbn [loop_id]. solve_submseteq.
  - apply (Hloop l); [done|]. apply drain_tracked.
    eapply tracked_shrink; [|exact H]. cbn [loop_id]. solve_submseteq.
  - by apply Hwhile.
Qed.

Lemma new_transfers_ids e (entries : list (string * File)) :
  map ft_id (map (fun idf => queued_transfer e (fst idf) (snd idf)) entries)
  = map fst entries.
Proof. rewrite map_map. by apply map_ext. Qed.

Lemma sendFiles_tracked e files w loops :
  NoDup (map fst (new_entries e files)) →
  Forall (fresh_id (mkSystem w loops)) (map fst (new_entries e files)) →
  tracked (transfers w) (active_of w loops) →
  tracked (transfers (fst (sendFiles e files w)))
    (active_of (fst (sendFiles e files w))
       (loops ++ option_list (snd (sendFiles e files w)))).
Proof.
  intros Hnd Hfresh H. unfold sendFiles.
  set (entries := new_entries e files) in *.
  set (news := map _ entries).
  set (w2 := setTransfers _ _).
  assert (H2 : tracked (transfers w2) (active_of w2 loops)).
  { subst w2. unfold active_of, incoming_id.
    cbn [transfers setTransfers set_transfers set_sendQueueRef sendQueueRef incomingRef].
    fold (incoming_id w). rewrite map_app.
    eapply (tracked_shrink _ (active_of w loops ++ map ft_id news)).
    { subst news. rewrite new_transfers_ids. unfold active_of. solve_submseteq. }
    apply tracked_append.
    - subst news. by rewrite new_transfers_ids.
    - subst news. rewrite new_transfers_ids.
      eapply Forall_impl; [exact Hfresh|]. intros x [Hx1 Hx2]. by split.
    - subst news. apply Forall_map, Forall_forall. done.
    - done. }
  clearbody w2.
  assert (Hnil : ∀ w', same_engine w2 w' →
            tracked (transfers w') (active_of w' (loops ++ option_list (Some AwaitWakeLock)))).
  { intros w' Hs. apply (same_engine_tracked _ _ _ Hs).
    unfold active_of in *. rewrite map_app, concat_app. cbn.
    by rewrite !app_nil_r. }
  unfold processNextFile.
  destruct (isSendingRef w2); cbn [fst snd option_list]; rewrite ?app_nil_r; try done.
  by apply Hnil.
Qed.

(** Every event keeps the invariant. *)
Lemma step_tracked e ev s :
  fresh_ids e ev s → system_inv s → system_inv (step e ev s).
Proof.
  destruct s as [w loops]. unfold system_inv, active_ids, step.
  cbn [sys_world sys_loops]. intros Hfresh H.
  assert (Hsame : ∀ w', same_engine w w' →
            tracked (transfers w') (active_of w' loops)).
  { intros w' Hs. by apply (same_engine_tracked w). }
  destruct ev; cbn [only spawn sys_world sys_loops].
  - apply Hsame. unfold createOffer.
    eapply same_engine_trans; [|apply same_engine_createPeerInstance]. done.
  - apply Hsame, same_engine_acceptOffer.
  - apply Hsame, same_engine_acceptAnswer.
  - by apply disconnect_tracked.
  - destruct Hfresh as [Hnd Hf].
    pose proof (sendFiles_tracked e files w loops Hnd Hf H) as Hs.
    by destruct (snd (sendFiles e files w)); cbn in Hs |- *; rewrite ?app_nil_r in Hs.
  - by apply cancelTransfer_tracked.
  - apply Hsame, same_engine_sendMessage.
  - by apply Hsame.
  - apply Hsame, same_engine_on_timeout.
  - apply Hsame, same_engine_on_signal.
  - by apply Hsame.
  - apply handleData_tracked; [|done]. cbn in Hfresh.
    destruct (parse_payload data); [|done]. intros Ht Hm.
    by destruct (Hfresh Ht Hm).
  - by apply Hsame.
  - apply Hsame. eapply same_engine_trans; [|apply same_engine_on_error]. done.
  - destruct (loops !! k) as [p|] eqn:Hk; [|done].
    cbn [sys_world sys_loops]. by apply resume_tracked.
Qed.

Lemma reachable_inv s : reachable s → system_inv s.
Proof.
  induction 1 as [|e ev s _ IH Hfresh].
  - repeat split; [apply NoDup_nil_2 | apply Forall_nil_2 | apply Forall_nil_2].
  - by apply step_tracked.
Qed.

Lemma reachable_run tr s : reachable s → fresh_run tr s → reachable (run tr s).
Proof.
  revert s. induction tr as [|[e ev] tr IH]; intros s Hs Hf; [done|].
  destruct Hf as [Hf Hrest]. cbn [run]. apply IH; [|done]. by constructor.
Qed.

(** C3, as the code has it. In a session whose ids are unique, at every
    observable point (the initial state and the state after every event on
    the send side or the receive side) a record with [status = completed]
    has [progress = 100].  (The converse does not hold: the update after a
    chunk can bring [progress] to 100 while the status is still
    [transferring].) *)
Theorem completed_has_full_progress (s : system) (t : FileTransfer) :
  reachable s →
  t ∈ transfers (sys_world s) →
  ft_status t = Completed →
  ft_progress t = Num 100.
Proof.
  intros Hs Ht Hc. apply reachable_inv in Hs as (_ & _ & Hfull).
  rewrite Forall_forall in Hfull. by apply (Hfull t).
Qed.

End Properties.

(* ================================================================= *)
(** * Further properties of the code *)

Section MoreProperties.

Context {lib : Libraries}.

(** ** SDP texts: [minifySDP] and [restoreSDP] on any string *)

Lemma string_ind2 (P : string → Prop) :
  P "" → (∀ c, P (String c "")) →
  (∀ c c2 r, P r → P (String c2 r) → P (String c (String c2 r))) →
  ∀ s, P s.
Proof.
  intros H0 H1 H2.
  assert (H : ∀ s, P s ∧ ∀ c, P (String c s)).
  { induction s as [|c s [IH1 IH2]]; [by split|]. split; [apply IH2|].
    intros c0. apply H2; [exact IH1|apply IH2]. }
  intros s. apply H.
Qed.

Lemma cons_head_no_lf c ls :
  Ascii.eqb c Js.LF = false → Forall (λ l, no_lf l = true) ls →
  Forall (λ l, no_lf l = true) (Js.cons_head c ls).
Proof.
  intros Hc [|l ls' Hl Hls]; cbn.
  - repeat constructor. cbn. by rewrite Hc.
  - constructor; [|done]. cbn. by rewrite Hc.
Qed.

Lemma split_newlines_no_lf s : Forall (λ l, no_lf l = true) (Js.split_newlines s).
Proof.
  induction s as [|c|c c2 r IH1 IH2] using string_ind2.
  - by repeat constructor.
  - cbn. destruct (Ascii.eqb c Js.LF) eqn:E; [by repeat constructor|].
    repeat constructor. cbn. by rewrite E.
  - rewrite split_newlines_cons.
    destruct (Ascii.eqb c Js.LF) eqn:E; [by constructor|].
    destruct (Ascii.eqb c Js.CR && Ascii.eqb c2 Js.LF); [by constructor|].
    by apply cons_head_no_lf.
Qed.

Lemma no_lf_trimStart s : no_lf s = true → no_lf (Js.trimStart s) = true.
Proof.
  induction s as [|c s IH]; [done|]. cbn [Js.trimStart no_lf].
  intros [H1 H2]%andb_prop. destruct (Js.is_ws c); [by apply IH|].
  cbn. by rewrite H1, H2.
Qed.

Lemma no_lf_trimEnd s : no_lf s = true → no_lf (Js.trimEnd s) = true.
Proof.
  induction s as [|c s IH]; [done|]. cbn [Js.trimEnd no_lf].
  intros [H1 H2]%andb_prop. destruct (_ && _); [done|].
  cbn. by rewrite H1, IH.
Qed.

Lemma no_cr_end_trimEnd s : no_cr_end (Js.trimEnd s) = true.
Proof.
  induction s as [|c s IH]; [done|]. cbn [Js.trimEnd].
  destruct (Js.trimEnd s) as [|c' s'] eqn:E.
  - cbn. destruct (Js.is_ws c) eqn:Hc; [done|]. cbn.
    destruct (Ascii.eqb_spec c Js.CR) as [->|]; [done|done].
  - rewrite andb_false_r. exact IH.
Qed.

(** A line that has no line feed and does not end with a carriage return,
    followed by CRLF, is one piece of the split. *)
Lemma split_newlines_crlf_line l rest :
  no_lf l = true → no_cr_end l = true →
  Js.split_newlines (l +:+ Js.CRLF +:+ rest) = l :: Js.split_newlines rest.
Proof.
  induction l as [|c|c c2 r IH1 IH2] using string_ind2; intros Hlf Hcr.
  - reflexivity.
  - cbn in Hlf, Hcr. rewrite andb_true_r in Hlf.
    apply negb_true_iff in Hlf, Hcr.
    cbn [String.append]. rewrite split_newlines_cons, Hlf.
    change (Js.CRLF +:+ rest) with (String Js.CR (String Js.LF rest)).
    rewrite Hcr. cbn [andb]. rewrite split_newlines_cons. cbn. done.
  - cbn [no_lf] in Hlf. apply andb_prop in Hlf as [Hc Hlf].
    apply negb_true_iff in Hc. pose proof Hlf as Hlf2.
    cbn [no_lf] in Hlf2. apply andb_prop in Hlf2 as [Hc2 _].
    apply negb_true_iff in Hc2.
    change (no_cr_end (String c (String c2 r))) with (no_cr_end (String c2 r)) in Hcr.
    specialize (IH2 Hlf Hcr).
    cbn [String.append] in *. rewrite split_newlines_cons, Hc, Hc2, andb_false_r.
    by rewrite IH2.
Qed.

Lemma replace_newlines_crlf_line l rest :
  no_lf l = true → no_cr_end l = true →
  Js.replace_newlines (l +:+ Js.CRLF +:+ rest) = l +:+ Js.CRLF +:+ Js.replace_newlines rest.
Proof.
  induction l as [|c|c c2 r IH1 IH2] using string_ind2; intros Hlf Hcr.
  - reflexivity.
  - cbn in Hlf, Hcr. rewrite andb_true_r in Hlf.
    apply negb_true_iff in Hlf, Hcr.
    cbn [String.append]. rewrite replace_newlines_cons, Hlf.
    change (Js.CRLF +:+ rest) with (String Js.CR (String Js.LF rest)).
    rewrite Hcr. cbn [andb]. rewrite replace_newlines_cons. cbn. done.
  - cbn [no_lf] in Hlf. apply andb_prop in Hlf as [Hc Hlf].
    apply negb_true_iff in Hc. pose proof Hlf as Hlf2.
    cbn [no_lf] in Hlf2. apply andb_prop in Hlf2 as [Hc2 _].
    apply negb_true_iff in Hc2.
    change (no_cr_end (String c (String c2 r))) with (no_cr_end (String c2 r)) in Hcr.
    specialize (IH2 Hlf Hcr).
    cbn [String.append] in *. rewrite replace_newlines_cons, Hc, Hc2, andb_false_r.
    by rewrite IH2.
Qed.

(** Whatever the input, the lines that [minifySDP] keeps are kept lines. *)
Lemma kept_lines sdp :
  Forall kept_line (List.filter keepLine (map Js.trim (Js.split_newlines sdp))).
Proof.
  apply Forall_forall. intros l Hl%list_elem_of_In.
  apply List.filter_In in Hl as [Hl Hk].
  apply in_map_iff in Hl as (x & <- & Hx%list_elem_of_In).
  pose proof (split_newlines_no_lf sdp) as H. rewrite Forall_forall in H.
  repeat split.
  - by apply no_lf_trimEnd, no_lf_trimStart, H.
  - apply no_cr_end_trimEnd.
  - apply trim_idem.
  - done.
Qed.

Lemma split_newlines_kept ls :
  Forall kept_line ls → Js.split_newlines (crlf_text ls) = ls ++ [""].
Proof.
  induction 1 as [|l ls (H1 & H2 & _) _ IH]; [reflexivity|].
  cbn [crlf_text app]. by rewrite split_newlines_crlf_line, IH.
Qed.

Lemma replace_newlines_kept ls :
  Forall kept_line ls → Js.replace_newlines (crlf_text ls) = crlf_text ls.
Proof.
  induction 1 as [|l ls (H1 & H2 & _) _ IH]; [reflexivity|].
  cbn [crlf_text]. by rewrite replace_newlines_crlf_line, IH.
Qed.

Lemma filter_trim_kept ls :
  Forall kept_line ls →
  List.filter keepLine (map Js.trim ls) = ls.
Proof.
  induction 1 as [|l ls (_ & _ & H3 & H4) _ IH]; [reflexivity|].
  cbn [map List.filter]. by rewrite H3, H4, IH.
Qed.

Lemma minifySDP_kept ls :
  Forall kept_line ls →
  minifySDP (Js.join Js.CRLF ls +:+ Js.CRLF) = Js.join Js.CRLF ls +:+ Js.CRLF.
Proof.
  intros H. rewrite join_crlf. destruct ls as [|l ls]; [reflexivity|].
  unfold minifySDP. rewrite split_newlines_kept by done.
  rewrite map_app, List.filter_app, filter_trim_kept by done.
  cbn [map List.filter Js.trim Js.trimStart Js.trimEnd keepLine Js.is_empty].
  by rewrite app_nil_r, join_crlf.
Qed.

Lemma restoreSDP_kept ls :
  Forall kept_line ls →
  restoreSDP (Js.join Js.CRLF ls +:+ Js.CRLF) = Js.join Js.CRLF ls +:+ Js.CRLF.
Proof.
  intros H. rewrite join_crlf. destruct ls as [|l ls]; [reflexivity|].
  unfold restoreSDP. rewrite crlf_text_non_empty by done.
  rewrite replace_newlines_kept by done.
  by rewrite endsWith_crlf_text.
Qed.

(** X1. [minifySDP] is idempotent on every string: a minified SDP body is
    left as it is by a second minification. *)
Theorem minifySDP_idempotent (sdp : string) :
  minifySDP (minifySDP sdp) = minifySDP sdp.
Proof. unfold minifySDP at 2 3. apply minifySDP_kept, kept_lines. Qed.

(** X2. [restoreSDP] leaves the output of [minifySDP] as it is, whatever
    string was minified: what [decodeSignal] restores is exactly what
    [encodeSignal] had minified. *)
Theorem restoreSDP_minifySDP (sdp : string) :
  restoreSDP (minifySDP sdp) = minifySDP sdp.
Proof. unfold minifySDP. apply restoreSDP_kept, kept_lines. Qed.

Lemma replace_newlines_head s : head_lf (Js.replace_newlines s) = false.
Proof.
  destruct s as [|c [|c2 r]]; [done|..].
  - cbn. by destruct (Ascii.eqb c Js.LF) eqn:E.
  - rewrite replace_newlines_cons.
    destruct (Ascii.eqb c Js.LF) eqn:E; [done|].
    destruct (Ascii.eqb c Js.CR && Ascii.eqb c2 Js.LF); [done|]. cbn. done.
Qed.

Lemma crlf_only_cons c r :
  crlf_only (String c r) =
  if Ascii.eqb c Js.LF then false
  else match r with
       | String c2 r2 =>
           if Ascii.eqb c Js.CR && Ascii.eqb c2 Js.LF then crlf_only r2
           else crlf_only r
       | EmptyString => true
       end.
Proof. reflexivity. Qed.

Lemma crlf_only_plain_cons c s :
  Ascii.eqb c Js.LF = false → head_lf s = false →
  crlf_only (String c s) = crlf_only s.
Proof.
  intros Hc Hs. rewrite crlf_only_cons, Hc. destruct s as [|c2 r]; [done|].
  cbn in Hs. by rewrite Hs, andb_false_r.
Qed.

Lemma crlf_only_replace_newlines s : crlf_only (Js.replace_newlines s) = true.
Proof.
  induction s as [|c|c c2 r IH1 IH2] using string_ind2.
  - done.
  - cbn. by destruct (Ascii.eqb c Js.LF) eqn:E; cbn; rewrite ?E.
  - rewrite replace_newlines_cons.
    destruct (Ascii.eqb c Js.LF) eqn:E; [exact IH2|].
    destruct (Ascii.eqb c Js.CR && Ascii.eqb c2 Js.LF); [exact IH1|].
    rewrite crlf_only_plain_cons; [exact IH2|done|apply replace_newlines_head].
Qed.

Lemma replace_newlines_crlf_only s :
  crlf_only s = true → Js.replace_newlines s = s.
Proof.
  induction s as [|c|c c2 r IH1 IH2] using string_ind2.
  - done.
  - cbn. by destruct (Ascii.eqb c Js.LF).
  - rewrite crlf_only_cons, replace_newlines_cons.
    destruct (Ascii.eqb c Js.LF) eqn:E; [done|].
    destruct (Ascii.eqb c Js.CR && Ascii.eqb c2 Js.LF) eqn:E2.
    + apply andb_prop in E2 as [->%Ascii.eqb_eq ->%Ascii.eqb_eq].
      intros H. by rewrite IH1.
    + intros H. by rewrite IH2.
Qed.

Lemma crlf_only_app_crlf s : crlf_only (s +:+ Js.CRLF) = crlf_only s.
Proof.
  induction s as [|c|c c2 r IH1 IH2] using string_ind2.
  - done.
  - cbn [String.append]. change (Js.CRLF) with (String Js.CR (String Js.LF "")).
    rewrite !crlf_only_cons. destruct (Ascii.eqb c Js.LF); [done|].
    by rewrite andb_false_r.
  - cbn [String.append] in *. rewrite !(crlf_only_cons c).
    destruct (Ascii.eqb c Js.LF); [done|].
    destruct (Ascii.eqb c Js.CR && Ascii.eqb c2 Js.LF); [exact IH1|exact IH2].
Qed.

Lemma replace_newlines_empty s :
  Js.is_empty (Js.replace_newlines s) = Js.is_empty s.
Proof.
  destruct s as [|c [|c2 r]]; [done|..].
  - cbn. by destruct (Ascii.eqb c Js.LF).
  - rewrite replace_newlines_cons. destruct (Ascii.eqb c Js.LF); [done|].
    by destruct (_ && _).
Qed.

Lemma split_newlines_crlf s :
  Js.split_newlines (String Js.CR (String Js.LF s)) = "" :: Js.split_newlines s.
Proof. reflexivity. Qed.

(** The replacement of the line ends changes no line. *)
Lemma split_newlines_replace_newlines s :
  Js.split_newlines (Js.replace_newlines s) = Js.split_newlines s.
Proof.
  induction s as [|c|c c2 r IH1 IH2] using string_ind2.
  - done.
  - cbn. by destruct (Ascii.eqb c Js.LF) eqn:E; cbn; rewrite ?E.
  - rewrite replace_newlines_cons, (split_newlines_cons c).
    destruct (Ascii.eqb c Js.LF) eqn:E.
    { by rewrite split_newlines_crlf, IH2. }
    destruct (Ascii.eqb c Js.CR && Ascii.eqb c2 Js.LF) eqn:E2.
    { by rewrite split_newlines_crlf, IH1. }
    rewrite split_newlines_cons, E.
    pose proof (replace_newlines_head (String c2 r)) as Hh.
    destruct (Js.replace_newlines (String c2 r)) as [|x1 x'] eqn:EX.
    + by rewrite <- IH2.
    + cbn in Hh. rewrite Hh, andb_false_r. by rewrite <- IH2.
Qed.

Lemma split_newlines_non_nil s : Js.split_newlines s ≠ [].
Proof.
  induction s as [|c|c c2 r IH1 IH2] using string_ind2; [done|..].
  - cbn. by destruct (Ascii.eqb c Js.LF).
  - rewrite split_newlines_cons. destruct (Ascii.eqb c Js.LF); [done|].
    destruct (_ && _); [done|]. by destruct (Js.split_newlines (String c2 r)).
Qed.

Lemma cons_head_app c l k : l ≠ [] → Js.cons_head c (l ++ k) = Js.cons_head c l ++ k.
Proof. by destruct l. Qed.

Lemma split_newlines_app_crlf s :
  Js.split_newlines (s +:+ Js.CRLF) = Js.split_newlines s ++ [""].
Proof.
  induction s as [|c|c c2 r IH1 IH2] using string_ind2.
  - done.
  - cbn [String.append]. change (Js.CRLF) with (String Js.CR (String Js.LF "")).
    rewrite (split_newlines_cons c), split_newlines_crlf.
    cbn. destruct (Ascii.eqb c Js.LF) eqn:E; [done|].
    by rewrite andb_false_r.
  - cbn [String.append] in *. rewrite !(split_newlines_cons c).
    destruct (Ascii.eqb c Js.LF); [by rewrite IH2|].
    destruct (Ascii.eqb c Js.CR && Ascii.eqb c2 Js.LF); [by rewrite IH1|].
    rewrite IH2. apply cons_head_app, split_newlines_non_nil.
Qed.

Lemma endsWith_cons c s p :
  Js.endsWith (String c s) p = String.eqb (String c s) p || Js.endsWith s p.
Proof. reflexivity. Qed.

Lemma endsWith_lf s : Js.endsWith s (String Js.LF "") = ends_lf s.
Proof.
  induction s as [|c|c c2 r IH1 IH2] using string_ind2; [done|..].
  - cbn. by destruct (Ascii.eqb c Js.LF).
  - rewrite endsWith_cons, IH2.
    change (ends_lf (String c (String c2 r))) with (ends_lf (String c2 r)).
    cbn. by destruct (Ascii.eqb c Js.LF).
Qed.

Lemma endsWith_crlf s : Js.endsWith s Js.CRLF = ends_crlf s.
Proof.
  induction s as [|c|c c2 r IH1 IH2] using string_ind2; [done|..].
  - cbn. by destruct (Ascii.eqb c Js.CR).
  - rewrite endsWith_cons, IH2. destruct r as [|c3 r].
    + cbn. by destruct (Ascii.eqb c Js.CR), (Ascii.eqb c2 Js.LF).
    + change (ends_crlf (String c (String c2 (String c3 r))))
        with (ends_crlf (String c2 (String c3 r))).
      cbn. by destruct (Ascii.eqb c Js.CR), (Ascii.eqb c2 Js.LF).
Qed.

Lemma ends_crlf_cons c s :
  Js.is_empty s = false → Ascii.eqb c Js.CR && head_lf s = false →
  ends_crlf (String c s) = ends_crlf s.
Proof.
  destruct s as [|c2 [|c3 r]]; [done|..]; intros _ H; [|done].
  cbn in *. by rewrite H.
Qed.

Lemma ends_crlf_cons2 c c2 s :
  Js.is_empty s = false →
  ends_crlf (String c (String c2 s)) = ends_crlf (String c2 s).
Proof. by destruct s. Qed.

Lemma ends_crlf_replace_newlines s : ends_crlf (Js.replace_newlines s) = ends_lf s.
Proof.
  induction s as [|c|c c2 r IH1 IH2] using string_ind2.
  - done.
  - cbn. by destruct (Ascii.eqb c Js.LF) eqn:E.
  - rewrite replace_newlines_cons.
    change (ends_lf (String c (String c2 r))) with (ends_lf (String c2 r)).
    pose proof (replace_newlines_empty (String c2 r)) as He.
    pose proof (replace_newlines_head (String c2 r)) as Hh.
    destruct (Ascii.eqb c Js.LF) eqn:E.
    { rewrite <- IH2. rewrite ends_crlf_cons2 by done.
      by apply ends_crlf_cons. }
    destruct (Ascii.eqb c Js.CR && Ascii.eqb c2 Js.LF) eqn:E2.
    { apply andb_prop in E2 as [_ ->%Ascii.eqb_eq].
      destruct r as [|c3 r]; [done|].
      change (ends_lf (String Js.LF (String c3 r))) with (ends_lf (String c3 r)).
      rewrite <- IH1.
      pose proof (replace_newlines_empty (String c3 r)) as He3.
      pose proof (replace_newlines_head (String c3 r)) as Hh3.
      rewrite ends_crlf_cons2 by done.
      by apply ends_crlf_cons. }
    rewrite <- IH2. apply ends_crlf_cons; [done|]. by rewrite Hh, andb_false_r.
Qed.

Lemma endsWith_replace_newlines s :
  Js.endsWith (Js.replace_newlines s) Js.CRLF = Js.endsWith s (String Js.LF "").
Proof. by rewrite endsWith_crlf, endsWith_lf, ends_crlf_replace_newlines. Qed.

(** X3. The result of [restoreSDP] on any string is in normal form: every
    line feed in it follows a carriage return, it ends with CRLF exactly
    when the input is not empty (the empty input gives the empty string),
    and a second [restoreSDP] changes nothing. *)
Theorem restoreSDP_normal_form (s : string) :
  crlf_only (restoreSDP s) = true
  ∧ Js.endsWith (restoreSDP s) Js.CRLF = negb (Js.is_empty s)
  ∧ restoreSDP (restoreSDP s) = restoreSDP s.
Proof.
  destruct (Js.is_empty s) eqn:Hs.
  { destruct s; [|done]. by repeat split. }
  assert (E : restoreSDP s =
              if Js.endsWith (Js.replace_newlines s) Js.CRLF
              then Js.replace_newlines s else Js.replace_newlines s +:+ Js.CRLF).
  { unfold restoreSDP. by rewrite Hs. }
  set (t := Js.replace_newlines s) in E.
  assert (Ht : crlf_only t = true) by apply crlf_only_replace_newlines.
  assert (Hne : Js.is_empty t = false) by (subst t; by rewrite replace_newlines_empty).
  rewrite E. clear E. destruct (Js.endsWith t Js.CRLF) eqn:He.
  - repeat split; [done..|]. unfold restoreSDP.
    by rewrite Hne, (replace_newlines_crlf_only t Ht), He.
  - assert (Ht' : crlf_only (t +:+ Js.CRLF) = true) by (by rewrite crlf_only_app_crlf).
    repeat split; [done|apply endsWith_app|].
    unfold restoreSDP. rewrite (replace_newlines_crlf_only _ Ht'), endsWith_app.
    by destruct t.
Qed.

(** X4. [restoreSDP] changes no line of a non-empty text: the lines of the
    result (its pieces between line ends, a line end being LF or CRLF) are
    the lines of the input, followed by one empty line when the input does
    not end with a line feed. *)
Theorem restoreSDP_lines (s : string) :
  Js.is_empty s = false →
  Js.split_newlines (restoreSDP s) =
  Js.split_newlines s ++ (if Js.endsWith s (String Js.LF "") then [] else [""]).
Proof.
  intros Hs. unfold restoreSDP. rewrite Hs, endsWith_replace_newlines.
  destruct (Js.endsWith s (String Js.LF "")).
  - by rewrite split_newlines_replace_newlines, app_nil_r.
  - by rewrite split_newlines_app_crlf, split_newlines_replace_newlines.
Qed.

(** ** The signalling codec on any object *)

Lemma obj_set_new k v o : k ∉ keys o → obj_set k v o = o ++ [(k, v)].
Proof.
  induction o as [|[k' v'] o IH]; [done|]. intros H. cbn.
  apply not_elem_of_cons in H as [Hne H].
  destruct (String.eqb_spec k k') as [->|_]; [done|]. by rewrite IH.
Qed.

Lemma rename_keys_acc f o acc :
  NoDup (keys acc ++ map f (keys o)) →
  fold_left (fun out kv => obj_set (f (fst kv)) (snd kv) out) o acc
  = acc ++ map (λ kv, (f (fst kv), snd kv)) o.
Proof.
  revert acc. induction o as [|[k v] o IH]; intros acc H.
  - by rewrite app_nil_r.
  - cbn [fold_left fst snd map]. cbn [keys map fst] in H.
    rewrite obj_set_new.
    2:{ apply NoDup_app in H as (_ & H & _). intros Hin. apply (H _ Hin). by left. }
    rewrite IH.
    + by rewrite <- app_assoc.
    + unfold keys in *. rewrite map_app, <- app_assoc. exact H.
Qed.

(** When the new keys are distinct, the loop of the codec renames the keys
    in place. *)
Lemma rename_keys_map f o :
  NoDup (map f (keys o)) →
  rename_keys f o = map (λ kv, (f (fst kv), snd kv)) o.
Proof. intros H. unfold rename_keys. by rewrite rename_keys_acc. Qed.

Lemma keys_rename f (o : object) :
  keys (map (λ kv, (f (fst kv), snd kv)) o) = map f (keys o).
Proof. unfold keys. rewrite !map_map. done. Qed.

Lemma inherited_key_None k : k ∉ Object_prototype → inherited_key k = None.
Proof.
  intros H. unfold inherited_key.
  destruct (String.eqb_spec k "__proto__") as [->|_].
  { exfalso. apply H. unfold Object_prototype. set_solver. }
  destruct (existsb (String.eqb k) Object_prototype) eqn:E; [|done].
  apply existsb_exists in E as (k' & Hin & ->%String.eqb_eq).
  by apply list_elem_of_In in Hin.
Qed.

Lemma map_key_short k :
  k ≠ "t" → k ≠ "s" → k ∉ Object_prototype →
  map_key REV_KEY_MAP (map_key KEY_MAP k) = k.
Proof.
  intros Ht Hs Hp.
  destruct (String.eqb_spec k "type") as [->|H1]; [reflexivity|].
  destruct (String.eqb_spec k "sdp") as [->|H2]; [reflexivity|].
  assert (E1 : lookup_key k KEY_MAP = None).
  { cbn. by rewrite (proj2 (String.eqb_neq _ _) H1), (proj2 (String.eqb_neq _ _) H2). }
  assert (E2 : lookup_key k REV_KEY_MAP = None).
  { cbn. by rewrite (proj2 (String.eqb_neq _ _) Ht), (proj2 (String.eqb_neq _ _) Hs). }
  unfold map_key. by rewrite E1, (inherited_key_None k Hp), E2, (inherited_key_None k Hp).
Qed.

Lemma map_key_inj k k' :
  k ≠ "t" → k ≠ "s" → k ∉ Object_prototype →
  k' ≠ "t" → k' ≠ "s" → k' ∉ Object_prototype →
  map_key KEY_MAP k = map_key KEY_MAP k' → k = k'.
Proof.
  intros H1 H2 H3 H4 H5 H6 E.
  by rewrite <- (map_key_short k), <- (map_key_short k'), E.
Qed.

(** The two renamings of the codec undo each other on an object in which
    the short keys are free and no key is a name of [Object.prototype]. *)
Lemma rename_keys_round_trip o :
  plain_keys o →
  rename_keys (map_key REV_KEY_MAP) (rename_keys (map_key KEY_MAP) o) = o.
Proof.
  intros (Hnd & Ht & Hs & Hp).
  assert (Hk : Forall (λ k, k ≠ "t" ∧ k ≠ "s" ∧ k ∉ Object_prototype) (keys o)).
  { apply Forall_forall. intros k Hk. rewrite Forall_forall in Hp.
    split; [by intros ->|]. split; [by intros ->|]. by apply Hp. }
  assert (H1 : NoDup (map (map_key KEY_MAP) (keys o))).
  { clear Ht Hs Hp. induction Hnd as [|k ks Hnin Hnd IH]; [constructor|].
    apply Forall_cons in Hk as [(Hkt & Hks & Hkp) Hk]. cbn.
    constructor; [|by apply IH].
    intros Hin. apply list_elem_of_fmap in Hin as (k' & E & Hin).
    rewrite Forall_forall in Hk. destruct (Hk k' Hin) as (? & ? & ?).
    apply map_key_inj in E; try done. by subst. }
  rewrite (rename_keys_map _ o H1).
  assert (E : map (λ kv, (map_key REV_KEY_MAP (fst kv), snd kv))
                (map (λ kv, (map_key KEY_MAP (fst kv), snd kv)) o) = o).
  { rewrite map_map. rewrite <- (map_id o) at 2. apply map_ext_Forall.
    unfold keys in Hk. rewrite Forall_map in Hk.
    eapply Forall_impl; [exact Hk|]. intros [k v] (? & ? & ?). cbn.
    by rewrite map_key_short. }
  rewrite rename_keys_map; [exact E|].
  rewrite keys_rename, map_map.
  replace (map (λ x, map_key REV_KEY_MAP (map_key KEY_MAP x)) (keys o)) with (keys o);
    [done|].
  rewrite <- (map_id (keys o)) at 1. apply map_ext_Forall.
  eapply Forall_impl; [exact Hk|]. intros k (? & ? & ?). cbn. by rewrite map_key_short.
Qed.

Lemma obj_set_keys k v v' o :
  obj_get k o = Some v' → keys (obj_set k v o) = keys o.
Proof.
  unfold keys. induction o as [|[k' w] o IH]; [done|]. cbn.
  destruct (String.eqb_spec k k') as [->|_]; [done|].
  intros H. cbn. by rewrite IH.
Qed.

Lemma map_sdp_keys f o : keys (map_sdp f o) = keys o.
Proof.
  unfold map_sdp. destruct (obj_get "sdp" o) as [[| | |sdp| |]|] eqn:E; try done.
  destruct (Js.is_empty sdp); [done|]. by eapply obj_set_keys.
Qed.

Lemma obj_get_set k v o : obj_get k (obj_set k v o) = Some v.
Proof.
  induction o as [|[k' w] o IH]; cbn.
  - by rewrite String.eqb_refl.
  - destruct (String.eqb_spec k k') as [->|Hne]; cbn.
    + by rewrite String.eqb_refl.
    + by destruct (String.eqb_spec k k').
Qed.

Lemma obj_set_set k v v' o : obj_set k v (obj_set k v' o) = obj_set k v o.
Proof.
  induction o as [|[k' w] o IH]; cbn.
  - by rewrite String.eqb_refl.
  - destruct (String.eqb_spec k k') as [->|Hne]; cbn.
    + by rewrite String.eqb_refl.
    + destruct (String.eqb_spec k k'); [done|]. by rewrite IH.
Qed.

Lemma minifySDP_non_empty sdp : Js.is_empty (minifySDP sdp) = false.
Proof. unfold minifySDP. by destruct (Js.join _ _). Qed.

Lemma map_sdp_restore_minify o :
  map_sdp restoreSDP (map_sdp minifySDP o) = map_sdp minifySDP o.
Proof.
  unfold map_sdp at 2 3.
  destruct (obj_get "sdp" o) as [[| | |sdp| |]|] eqn:E;
    try (unfold map_sdp; by rewrite E).
  destruct (Js.is_empty sdp) eqn:Hs; [unfold map_sdp; by rewrite E, Hs|].
  unfold map_sdp. rewrite obj_get_set, minifySDP_non_empty.
  unfold minifySDP at 1. rewrite restoreSDP_kept by apply kept_lines.
  apply obj_set_set.
Qed.

(** X5. For every object [o] in which no key occurs twice, the short keys
    [t] and [s] are free and no key is the name of a property of
    [Object.prototype], [decodeSignal (encodeSignal o)] is [o] with
    its [sdp] minified (when [sdp] is a non-empty string) and everything
    else as it was: the same keys in the same order with the same values.
    The libraries are taken to be lossless on this input: [inflate] undoes
    [deflate], and [JSON.parse] reads back the object that
    [JSON.stringify] wrote. *)
Theorem decode_encode_object (o : object) :
  (∀ s, pako_inflate (pako_deflate s) = Some s) →
  plain_keys o →
  JSON_parse (JSON_stringify (JObj (rename_keys (map_key KEY_MAP) (map_sdp minifySDP o))))
    = Some (JObj (rename_keys (map_key KEY_MAP) (map_sdp minifySDP o))) →
  decodeSignal (encodeSignal o) = Ok (JObj (map_sdp minifySDP o)).
Proof.
  intros inflate_deflate Hk Hparse.
  unfold decodeSignal, decodeCompressed, encodeSignal.
  rewrite trim_btoa, atob_btoa. cbn [mbind option_bind].
  rewrite list_byte_of_string_of_list_byte, inflate_deflate. cbn [mbind option_bind].
  rewrite Hparse. cbn [mbind option_bind entries].
  rewrite rename_keys_round_trip.
  - by rewrite map_sdp_restore_minify.
  - unfold plain_keys. by rewrite map_sdp_keys.
Qed.

(** X6. A blob of the legacy format, the base64 text of the JSON text of a
    value (what the fallback of [encodeSignal] writes), is decoded by the
    fallback of [decodeSignal] to that value as it is, with no key renamed
    and no [sdp] restored, whenever the compressed path fails because the
    bytes are no deflate stream. *)
Theorem decode_legacy (j : json) :
  pako_inflate (list_byte_of_string (JSON_stringify j)) = None →
  JSON_parse (JSON_stringify j) = Some j →
  decodeSignal (Base64.btoa (JSON_stringify j)) = Ok j.
Proof.
  intros Hinf Hparse. unfold decodeSignal, decodeCompressed, decodeLegacy.
  rewrite trim_btoa, atob_btoa. cbn [mbind option_bind].
  by rewrite Hinf, Hparse.
Qed.

(** ** The connection controller: accepting an offer or an answer *)

(** X7. On an input that is not blank and that [decodeSignal] accepts, in a
    state other than [connected], [acceptOffer] ends in state [connecting]
    with [signalStatus = gathering], [localSignal] and [error] null; the
    peer that [peerRef] held is destroyed, a new peer that is not the
    initiator is added to the store and put in [peerRef], and the decoded
    signal is the one signal fed to it.  Transfers and messages are
    untouched. *)
Theorem acceptOffer_accepted (s : string) (sig : json) (w : world) :
  all_ws s = false →
  connectionState w ≠ Connected →
  decodeSignal s = Ok sig →
  let w' := acceptOffer s w in
  let h' := length (peers w) in
  connectionState w' = Connecting
  ∧ signalStatus w' = Some Gathering
  ∧ localSignal w' = None
  ∧ error w' = None
  ∧ peerRef w' = Some h'
  ∧ peers w' =
      match peerRef w with
      | Some h => alter with_destroyed h (peers w)
      | None => peers w
      end ++ [with_signal sig (new_peer false)]
  ∧ transfers w' = transfers w
  ∧ messages w' = messages w.
Proof.
  intros Hws Hc Hdec w' h'. subst w' h'. unfold acceptOffer.
  destruct (Js.is_empty (Js.trim s)) eqn:E.
  { apply trim_all_ws in E. congruence. }
  destruct (is_connected (connectionState w)) eqn:E2.
  { by apply is_connected_spec in E2. }
  rewrite decodeSignal_trim, Hdec.
  match goal with |- context [createPeerInstance false ?x] =>
    destruct (createPeerInstance_spec false x)
      as (Hp & Hr & Hl & Hcs & Hls & Hss & He & Ht & Hm);
    set (w2 := createPeerInstance false x) in *
  end.
  clearbody w2. cbn in Hp, Hr, Hl, Hcs, Hls, Hss, He, Ht, Hm.
  rewrite Hr. unfold peer_signal. rewrite Hl. cbn [destroyed new_peer].
  unfold update_peer. cbn.
  repeat split; try done.
  rewrite Hp.
  set (old := match peerRef w with Some h => _ | None => _ end).
  assert (Hlen : length old = length (peers w)).
  { subst old. destruct (peerRef w); by rewrite ?length_alter. }
  rewrite <- Hlen. rewrite alter_app_r_alt by lia.
  by rewrite Nat.sub_diag.
Qed.

(** X8. When [acceptAnswer] gets an input that is not blank, in a state
    other than [connected], and the input does not decode, or there is no
    peer in [peerRef], or that peer has been destroyed, the result is the
    state before with [connectionState = error] and
    [error = invalidAnswer], and nothing else changed: no peer is
    constructed or signalled, and [signalStatus] and [localSignal] keep
    their values. *)
Theorem acceptAnswer_rejected (s : string) (w : world) :
  all_ws s = false →
  connectionState w ≠ Connected →
  (∃ m, decodeSignal s = Throw m) ∨ no_usable_peer w →
  acceptAnswer s w =
    set_connectionState StateError (set_error (Some "invalidAnswer") w).
Proof.
  intros Hws Hc H. unfold acceptAnswer.
  destruct (Js.is_empty (Js.trim s)) eqn:E.
  { apply trim_all_ws in E. congruence. }
  destruct (is_connected (connectionState w)) eqn:E2.
  { by apply is_connected_spec in E2. }
  rewrite decodeSignal_trim.
  destruct (decodeSignal s) as [sig|m] eqn:Hdec.
  - destruct H as [[m H]|H]; [done|]. unfold no_usable_peer in H.
    cbn [peerRef set_error]. destruct (peerRef w) as [h|]; [|done].
    unfold peer_signal, peer_destroyed in *. cbn [peers set_error].
    destruct (peers w !! h) as [p|]; [|done]. by rewrite H.
  - apply decodeSignal_message in Hdec. unfold answer_failed. by rewrite Hdec.
Qed.

(** ** The commands of the transfer engine *)

(** X10. [sendFiles] on a non-empty list of files while there is no usable
    peer (none in [peerRef], or a destroyed one) and no run of the loop:
    the files are queued and recorded as [queued], a run of the loop is
    started, and at its first resumption the run takes the first entry off
    the queue and ends.  Nothing is sent, every record keeps the status
    [queued], and the first entry of the queue is lost to later runs. *)
Theorem sendFiles_without_peer (e e' : env) (files : list File) (w : world) :
  no_usable_peer w →
  isSendingRef w = false →
  files ≠ [] →
  ∃ w1,
    sendFiles e files w = (w1, Some AwaitWakeLock)
    ∧ resume e' AwaitWakeLock w1 =
        (set_isSendingRef false
           (set_sendQueueRef (tail (sendQueueRef w ++ new_entries e files))
              (setTransfers (fun p => p ++ queued_records e files) w)),
         None).
Proof.
  intros Hp Hs Hf. unfold sendFiles, processNextFile.
  cbn [isSendingRef setTransfers set_transfers set_sendQueueRef]. rewrite Hs.
  eexists. split; [reflexivity|].
  cbn [resume]. unfold while_head, queued_records.
  cbn [sendQueueRef setTransfers set_isSendingRef set_transfers set_sendQueueRef].
  destruct (sendQueueRef w ++ new_entries e files) as [|[id f] rest] eqn:E.
  { apply app_eq_nil in E as [_ E]. destruct files; [congruence|]. discriminate E. }
  cbn [peerRef setTransfers set_sendQueueRef set_isSendingRef set_transfers tail].
  unfold no_usable_peer in Hp. destruct (peerRef w) as [h|]; [|done].
  unfold peer_destroyed in *.
  cbn [peers setTransfers set_sendQueueRef set_isSendingRef set_transfers].
  by rewrite Hp.
Qed.

(** X11. [cancelTransfer] notifies the peer only for a transfer in flight:
    when the first record with the id is not [transferring] (or there is no
    such record), nothing is handed to any peer, and the messages and the
    incoming assembly are untouched; with no record of that id the call
    changes nothing at all. *)
Theorem cancelTransfer_silent (id : string) (w : world) :
  (∀ t, find (has_id id) (transfers w) = Some t → ft_status t ≠ Transferring) →
  peers (cancelTransfer id w) = peers w
  ∧ messages (cancelTransfer id w) = messages w
  ∧ incomingRef (cancelTransfer id w) = incomingRef w
  ∧ (find (has_id id) (transfers w) = None → cancelTransfer id w = w).
Proof.
  intros H. unfold cancelTransfer.
  destruct (find (has_id id) (transfers w)) as [t|]; [|done].
  specialize (H t eq_refl).
  assert (E : is_status Transferring t = false).
  { unfold is_status. by destruct (ft_status t). }
  rewrite E. done.
Qed.

(** X12. [cancelTransfer] on a transfer whose records are all [queued]:
    its entries are taken off the send queue (the other entries keep their
    order), so the loop will never start it; its records become
    [cancelled]; the list of records keeps its ids; nothing is sent to the
    peer; and the id is recorded in [cancelledRef]. *)
Theorem cancel_queued (id : string) (w : world) :
  (∃ t, In t (transfers w) ∧ ft_id t = id) →
  Forall (λ t, ft_id t = id → ft_status t = Queued) (transfers w) →
  let w' := cancelTransfer id w in
  sendQueueRef w' =
    List.filter (fun en => negb (String.eqb (fst en) id)) (sendQueueRef w)
  ∧ (id ∉ map fst (sendQueueRef w'))
  ∧ Forall (λ t, ft_id t = id → ft_status t = Cancelled) (transfers w')
  ∧ map ft_id (transfers w') = map ft_id (transfers w)
  ∧ peers w' = peers w
  ∧ id ∈ cancelledRef w'.
Proof.
  intros (t & Hin & Hid) Hall w'. subst w'. unfold cancelTransfer.
  destruct (find (has_id id) (transfers w)) as [t0|] eqn:Hfind.
  2:{ eapply find_none in Hfind; [|exact Hin]. apply has_id_true in Hid. congruence. }
  apply find_some in Hfind as [Hin0 Hid0]. apply has_id_true in Hid0.
  pose proof Hall as Hall'.
  rewrite Forall_forall in Hall'. apply list_elem_of_In in Hin0.
  assert (Hst : is_status Transferring t0 = false).
  { unfold is_status. by rewrite (Hall' t0 Hin0 Hid0). }
  rewrite Hst.
  cbn [sendQueueRef transfers peers cancelledRef setTransfers set_transfers
       set_sendQueueRef set_cancelledRef].
  repeat split; try done.
  - intros Hc. apply list_elem_of_fmap in Hc as (en & -> & Hen%list_elem_of_In).
    apply List.filter_In in Hen as [_ Hen]. apply negb_true_iff in Hen.
    by apply String.eqb_neq in Hen.
  - eapply Forall_update_where; [exact Hall|..].
    + done.
    + intros x Hx Hc Hidx. specialize (Hx Hidx). apply has_id_true in Hidx.
      unfold is_status in Hc. by rewrite Hidx, Hx in Hc.
  - by rewrite update_where_ids.
  - by apply elem_of_union_l, elem_of_singleton.
Qed.

(** X13. [sendMessage] changes nothing when the text is blank, when there
    is no usable peer, or when the data channel of the peer is not open:
    no chat message is recorded that was not sent. *)
Theorem sendMessage_noop (e : env) (text : string) (w : world) :
  all_ws text = true ∨ no_usable_peer w ∨
    (∃ h, peerRef w = Some h ∧ peer_channel h w = false) →
  sendMessage e text w = w.
Proof.
  unfold sendMessage. intros [H|[H|(h & Hr & Hc)]].
  - apply trim_all_ws in H. by rewrite H.
  - destruct (Js.is_empty _); [done|]. unfold no_usable_peer in H.
    destruct (peerRef w); [|done]. by rewrite H.
  - destruct (Js.is_empty _); [done|]. rewrite Hr.
    destruct (peer_destroyed h w); [done|].
    unfold peer_send, peer_channel in *.
    destruct (peers w !! h) as [p|]; [|done].
    destruct (destroyed p); [done|]. cbn in Hc. by rewrite Hc.
Qed.

(** X14. A chat message from one side to the other.  [sendMessage] on a
    text that is not blank, over a live peer, hands exactly one payload to
    the peer and appends to its own messages the trimmed text with sender
    [me] and the time of sending; [handleData] on that payload, in any
    state of the other side, appends a message with the same text and the
    same timestamp and sender [peer], and changes nothing else.
    [JSON.parse] is taken to read back the message [JSON.stringify]
    wrote. *)
Theorem chat_round_trip (e : env) (text : string) (h : nat) (log : list payload)
    (w : world) :
  all_ws text = false →
  peerRef w = Some h →
  peer_live h log w →
  JSON_parse (JSON_stringify (chat (Js.trim text) (now e)))
    = Some (chat (Js.trim text) (now e)) →
  let w' := sendMessage e text w in
  let d := control (chat (Js.trim text) (now e)) in
  sent_by h w' = log ++ [d]
  ∧ messages w' = messages w ++ [chat_message e (Js.trim text) Me (now e)]
  ∧ transfers w' = transfers w
  ∧ ∀ e' wb,
      handleData e' d wb =
      setMessages (fun p => p ++ [chat_message e' (Js.trim text) Them (now e)]) wb.
Proof.
  intros Hws Hr Hl Hparse w' d. subst w' d. unfold sendMessage.
  destruct (Js.is_empty (Js.trim text)) eqn:E.
  { apply trim_all_ws in E. congruence. }
  rewrite Hr. destruct (peer_live_flags _ _ _ Hl) as [-> _].
  destruct (peer_live_send _ _ (control (chat (Js.trim text) (now e))) _ Hl) as [-> Hl'].
  split.
  { erewrite peer_live_sent_by; [done|]. eapply peer_live_frame; [|exact Hl']. done. }
  split; [done|]. split; [done|].
  intros e' wb. unfold handleData, control, parse_payload. rewrite Hparse.
  reflexivity.
Qed.

(** ** The receive path *)

Lemma update_where_last id g T0 t :
  (id ∉ map ft_id T0) → ft_id t = id →
  update_where (has_id id) g (T0 ++ [t]) = T0 ++ [g t].
Proof.
  intros Hn Ht. unfold update_where. rewrite map_app. cbn.
  assert (E : has_id id t = true) by (by apply has_id_true).
  rewrite E. f_equal.
  rewrite <- (map_id T0) at 2. apply map_ext_Forall, Forall_forall.
  intros x Hx. destruct (has_id id x) eqn:Hid; [|done].
  apply has_id_true in Hid. destruct Hn. apply list_elem_of_fmap. by exists x.
Qed.

Lemma handleData_chunk e b w :
  is_json_message (Binary b) = false →
  handleData e (Binary b) w = on_binary e (Binary b) w.
Proof.
  unfold handleData, is_json_message.
  destruct (parse_payload _); [|done]. by intros ->.
Qed.

Lemma assembling_chunk e id name size chunks T0 b w :
  (id ∉ map ft_id T0) →
  is_json_message (Binary b) = false →
  assembling id name size chunks T0 w →
  assembling id name size (chunks ++ [b]) T0 (handleData e (Binary b) w)
  ∧ downloads (handleData e (Binary b) w) = downloads w
  ∧ messages (handleData e (Binary b) w) = messages w.
Proof.
  intros Hn Hj ((inc & Hinc & Hid & Hname & Hch) & (t & HT & Ht)).
  rewrite handleData_chunk by done. unfold on_binary, assembling. rewrite Hinc.
  cbn [setTransfers set_transfers set_incomingRef transfers incomingRef downloads
       messages].
  split; [|done]. split.
  - eexists. split; [reflexivity|]. cbn. by rewrite Hch.
  - rewrite HT, Hid. destruct Ht as (Ht1 & Ht2 & Ht3 & Ht4 & Ht5).
    rewrite update_where_last by done.
    eexists. split; [reflexivity|]. done.
Qed.

Lemma assembling_chunks id name size T0 cs :
  (id ∉ map ft_id T0) →
  Forall (λ c, is_json_message (Binary c) = false) cs →
  ∀ es pre w,
    length es = length cs →
    assembling id name size pre T0 w →
    let w' := receive (zip es (map Binary cs)) w in
    assembling id name size (pre ++ cs) T0 w'
    ∧ downloads w' = downloads w ∧ messages w' = messages w.
Proof.
  intros Hn. induction 1 as [|c cs Hc _ IH]; intros es pre w Hlen Hw.
  - destruct es; [|done]. cbn. by rewrite app_nil_r.
  - destruct es as [|e es]; [done|]. cbn [map zip zip_with receive].
    destruct (assembling_chunk e _ _ _ _ _ c w Hn Hc Hw) as (H1 & H2 & H3).
    destruct (IH es (pre ++ [c]) _ ltac:(by injection Hlen) H1) as (H4 & H5 & H6).
    rewrite <- app_assoc in H4. cbn [app] in H4.
    split; [exact H4|]. split; congruence.
Qed.

Lemma receive_app tr1 tr2 w : receive (tr1 ++ tr2) w = receive tr2 (receive tr1 w).
Proof. revert w. induction tr1 as [|[e d] tr1 IH]; intros w; [done|]. apply IH. Qed.

(** X15. A file from the send loop to the download.  The receiver handles,
    in order, the messages that the send loop puts on the wire for a file
    (C1): its [file-meta], its chunks, its [file-complete].  If the id is
    not empty and not yet in the list of records, and no chunk is read as
    a JSON message by step 1 of [handleData], then one download is
    triggered, with the name of the file and its chunks in order, whose
    bytes are the bytes of the file; the assembly is discarded; and one
    record is appended, which is [completed] with progress 100.
    [JSON.parse] is taken to read back the two control messages. *)
Theorem receive_file (e0 e1 : env) (es : list env) (id : string) (f : File)
    (w : world) :
  Js.is_empty id = false →
  (id ∉ map ft_id (transfers w)) →
  JSON_parse (JSON_stringify (file_meta id f (totalChunks_of f)))
    = Some (file_meta id f (totalChunks_of f)) →
  JSON_parse (JSON_stringify file_complete) = Some file_complete →
  Forall (λ c, is_json_message (Binary c) = false) (file_chunks f) →
  length es = length (file_chunks f) →
  let w' :=
    receive ((e0, control (file_meta id f (totalChunks_of f)))
             :: zip es (map Binary (file_chunks f))
             ++ [(e1, control file_complete)]) w in
  downloads w' = downloads w ++ [(f_name f, file_chunks f)]
  ∧ concat (file_chunks f) = f_content f
  ∧ incomingRef w' = None
  ∧ messages w' = messages w
  ∧ ∃ t, transfers w' = transfers w ++ [t]
         ∧ ft_id t = id ∧ ft_name t = f_name f ∧ ft_size t = f_size f
         ∧ ft_direction t = Receive
         ∧ ft_status t = Completed ∧ ft_progress t = Num 100
         ∧ ft_endTime t = Some (now e1).
Proof.
  intros Hid Hfresh Hmeta Hcomplete Hchunks Hlen w'. subst w'.
  cbn [receive]. rewrite receive_app. cbn [receive].
  set (w1 := handleData e0 _ w).
  assert (H1 : assembling id (f_name f) (f_size f) [] (transfers w) w1
               ∧ downloads w1 = downloads w ∧ messages w1 = messages w).
  { subst w1. unfold handleData, control, parse_payload. rewrite Hmeta.
    assert (Hty : is_type "file-meta" (file_meta id f (totalChunks_of f)) = true)
      by reflexivity.
    rewrite (is_type_truthy _ _ Hty). unfold on_message.
    rewrite Hty, !(is_type_other _ _ _ Hty) by done.
    unfold on_file_meta, file_meta.
    cbn [field obj_get String.eqb Ascii.eqb Bool.eqb id_of str_of num_of].
    rewrite Hid.
    split; [|done]. split.
    - eexists. split; [reflexivity|]. done.
    - eexists. split; [reflexivity|]. done. }
  clearbody w1. destruct H1 as (Hw1 & Hd1 & Hm1).
  destruct (assembling_chunks id _ _ _ _ Hfresh Hchunks es [] w1 Hlen Hw1)
    as (Hw2 & Hd2 & Hm2).
  set (w2 := receive _ w1) in *. clearbody w2. cbn [app] in Hw2.
  destruct Hw2 as ((inc & Hinc & Hiid & Hiname & Hich) & (t & HT & Ht1 & Ht2 & Ht3 & Ht4 & Ht5)).
  unfold handleData, control, parse_payload. rewrite Hcomplete.
  assert (Hty : is_type "file-complete" file_complete = true) by reflexivity.
  rewrite (is_type_truthy _ _ Hty). unfold on_message.
  rewrite Hty, !(is_type_other _ _ _ Hty) by done.
  rewrite Hinc. unfold on_file_complete.
  cbn [downloads transfers incomingRef messages setTransfers set_transfers
       set_incomingRef set_downloads].
  rewrite Hiname, Hich, Hd2, Hd1, Hm2, Hm1, HT, Hiid.
  rewrite update_where_last by done.
  split; [done|]. split; [apply concat_file_chunks|]. split; [done|]. split; [done|].
  eexists. split; [reflexivity|]. done.
Qed.

(** X16. A binary payload that step 1 of [handleData] reads as a JSON
    message (its text starts with an opening brace, ends with a closing
    brace and parses to a truthy value) is never added to the file being
    assembled: afterwards the assembly is gone, or holds the chunks and the
    byte count it had before, or is a new empty one. *)
Theorem json_chunk_not_appended (e : env) (b : list Byte.byte) (inc : Incoming)
    (w : world) :
  incomingRef w = Some inc →
  is_json_message (Binary b) = true →
  match incomingRef (handleData e (Binary b) w) with
  | Some inc' =>
      (inc_chunks inc' = inc_chunks inc ∧ inc_receivedBytes inc' = inc_receivedBytes inc)
      ∨ (inc_chunks inc' = [] ∧ inc_receivedBytes inc' = 0)
  | None => True
  end.
Proof.
  intros Hinc Hj. unfold handleData, is_json_message in *.
  destruct (parse_payload (Binary b)) as [msg|]; [|done]. rewrite Hj.
  unfold on_message.
  destruct (is_type "file-meta" msg) eqn:E1.
  { rewrite !(is_type_other _ _ _ E1) by done. cbn. by right. }
  destruct (is_type "file-complete" msg) eqn:E2.
  { rewrite !(is_type_other _ _ _ E2) by done. by rewrite Hinc. }
  destruct (is_type "file-cancel" msg) eqn:E3.
  { rewrite !(is_type_other _ _ _ E3) by done. unfold on_file_cancel.
    rewrite Hinc. cbn [option_map].
    destruct (id_of (field "id" msg)) as [c|].
    - destruct (Js.is_empty c); cbn; rewrite Hinc;
        (destruct (String.eqb (inc_id inc) c); cbn; [done|]; rewrite Hinc; by left).
    - destruct (Js.is_empty (inc_id inc)); cbn; rewrite Hinc, String.eqb_refl; done. }
  destruct (is_type "chat" msg); cbn; rewrite Hinc; by left.
Qed.

(** X17. A payload that is read as JSON, or is a string, and is not a
    message of one of the four types of the protocol changes nothing, also
    while a file is being assembled: a string is never taken for file
    data, and a message of an unknown type is dropped. *)
Theorem unknown_payload_ignored (e : env) (data : payload) (w : world) :
  known_message data = false →
  is_json_message data = true ∨ (∃ s, data = Text s) →
  handleData e data w = w.
Proof.
  unfold known_message, is_json_message, handleData. intros Hk Hd.
  destruct (parse_payload data) as [msg|] eqn:E.
  - destruct (truthy msg) eqn:Ht.
    + cbn [andb] in Hk. apply orb_false_elim in Hk as [Hk H4].
      apply orb_false_elim in Hk as [Hk H3].
      apply orb_false_elim in Hk as [H1 H2].
      unfold on_message. by rewrite H1, H2, H3, H4.
    + destruct Hd as [Hd|[s ->]]; [done|].
      unfold on_binary. by destruct (incomingRef w).
  - destruct Hd as [Hd|[s ->]]; [done|].
    unfold on_binary. by destruct (incomingRef w).
Qed.

(** ** Cancelling, seen from the other side *)

Lemma cancelTransfer_frame id w :
  incomingRef (cancelTransfer id w) = incomingRef w
  ∧ downloads (cancelTransfer id w) = downloads w
  ∧ messages (cancelTransfer id w) = messages w
  ∧ map ft_id (transfers (cancelTransfer id w)) = map ft_id (transfers w).
Proof.
  unfold cancelTransfer. destruct (find _ _) as [t|]; [|done].
  assert (H : ∀ w1 : world,
    incomingRef w1 = incomingRef w → downloads w1 = downloads w →
    messages w1 = messages w → transfers w1 = transfers w →
    let w' := setTransfers
      (update_where
         (fun t => has_id id t && (is_status Queued t || is_status Transferring t))
         (mark_stopped Cancelled))
      (set_sendQueueRef
         (List.filter (fun en => negb (String.eqb (fst en) id)) (sendQueueRef w1)) w1) in
    incomingRef w' = incomingRef w ∧ downloads w' = downloads w
    ∧ messages w' = messages w
    ∧ map ft_id (transfers w') = map ft_id (transfers w)).
  { intros w1 H1 H2 H3 H4.
    cbn [incomingRef downloads messages transfers setTransfers set_transfers
         set_sendQueueRef].
    rewrite H4, update_where_ids by done. done. }
  destruct (is_status Transferring t); [|by apply H].
  cbn [peerRef set_cancelledRef]. destruct (peerRef w) as [h|]; [|by apply H].
  destruct (peer_destroyed h _); [by apply H|].
  destruct (peer_send _ _ _) as [w2|] eqn:E; [|done].
  apply peer_send_Some in E as ->. by apply H.
Qed.

(** X18. [cancelTransfer] on the file being received does not discard the
    assembly.  If the [file-complete] of the sender arrives afterwards, the
    file is downloaded with the chunks received, and every record of the
    id, the one that [cancelTransfer] had marked [cancelled] included,
    becomes [completed] with progress 100. *)
Theorem receiver_cancel_still_completes (e : env) (d : payload) (msg : json)
    (inc : Incoming) (w : world) :
  incomingRef w = Some inc →
  parse_payload d = Some msg →
  is_type "file-complete" msg = true →
  let w1 := cancelTransfer (inc_id inc) w in
  let w2 := handleData e d w1 in
  incomingRef w1 = Some inc
  ∧ incomingRef w2 = None
  ∧ downloads w2 = downloads w ++ [(inc_name inc, inc_chunks inc)]
  ∧ map ft_id (transfers w2) = map ft_id (transfers w)
  ∧ Forall (λ t, ft_id t = inc_id inc →
                 ft_status t = Completed ∧ ft_progress t = Num 100)
      (transfers w2).
Proof.
  intros Hinc Hparse Hty w1 w2.
  destruct (cancelTransfer_frame (inc_id inc) w) as (H1 & H2 & H3 & H4).
  fold w1 in H1, H2, H3, H4. rewrite Hinc in H1. clearbody w1.
  subst w2. unfold handleData. rewrite Hparse, (is_type_truthy _ _ Hty).
  unfold on_message. rewrite Hty, !(is_type_other _ _ _ Hty) by done.
  destruct (is_type "file-meta" msg) eqn:E.
  { by pose proof (is_type_inj _ _ _ E Hty). }
  rewrite H1. unfold on_file_complete.
  cbn [downloads transfers incomingRef setTransfers set_transfers set_incomingRef
       set_downloads].
  rewrite H2, update_where_ids by done.
  repeat split; try done.
  unfold update_where. apply Forall_map, Forall_forall. intros t _. cbn.
  destruct (has_id (inc_id inc) t) eqn:Hid; [done|].
  intros Ht%has_id_true. congruence.
Qed.

(** X19. The [file-cancel] of the send loop, which carries no id, received
    while a file is being assembled: the assembly is discarded, the
    records of its id become [cancelled] with speed 0, and the id is put
    in [cancelledRef].  After that the rest of the file is ignored: a
    chunk, and the [file-complete], change nothing, so nothing is
    downloaded. *)
Theorem sender_cancel_received (e : env) (inc : Incoming) (w : world) :
  incomingRef w = Some inc →
  Js.is_empty (inc_id inc) = false →
  JSON_parse (JSON_stringify file_cancel) = Some file_cancel →
  JSON_parse (JSON_stringify file_complete) = Some file_complete →
  let w1 := handleData e (control file_cancel) w in
  w1 = set_incomingRef None
         (setTransfers (update_where (has_id (inc_id inc)) (mark_stopped Cancelled))
            (set_cancelledRef ({[inc_id inc]} ∪ cancelledRef w) w))
  ∧ (∀ e' b, is_json_message (Binary b) = false → handleData e' (Binary b) w1 = w1)
  ∧ (∀ e', handleData e' (control file_complete) w1 = w1).
Proof.
  intros Hinc Hid Hcancel Hcomplete w1.
  assert (E : w1 = set_incomingRef None
         (setTransfers (update_where (has_id (inc_id inc)) (mark_stopped Cancelled))
            (set_cancelledRef ({[inc_id inc]} ∪ cancelledRef w) w))).
  { subst w1. unfold handleData, control, parse_payload. rewrite Hcancel.
    assert (Hty : is_type "file-cancel" file_cancel = true) by reflexivity.
    rewrite (is_type_truthy _ _ Hty). unfold on_message.
    rewrite Hty, !(is_type_other _ _ _ Hty) by done.
    unfold on_file_cancel, file_cancel.
    cbn [field obj_get String.eqb Ascii.eqb Bool.eqb id_of].
    rewrite Hinc. cbn [option_map]. rewrite Hid.
    cbn [incomingRef setTransfers set_transfers set_cancelledRef]. rewrite Hinc.
    by rewrite String.eqb_refl. }
  split; [exact E|]. clearbody w1. subst w1. split.
  - intros e' b Hb. unfold handleData, is_json_message in *.
    destruct (parse_payload (Binary b)); [by rewrite Hb|done].
  - intros e'. unfold handleData, control, parse_payload. rewrite Hcomplete.
    assert (Hty : is_type "file-complete" file_complete = true) by reflexivity.
    rewrite (is_type_truthy _ _ Hty). unfold on_message.
    by rewrite Hty, !(is_type_other _ _ _ Hty) by done.
Qed.

(** A run that finds its transfer cancelled: it sends the chunk it had
    read, then the [file-cancel] of the loop if chunks remain, and goes to
    the pause. *)
Lemma cancelled_loop_stops e A l h log p w1 :
  peer_live h log w1 →
  l_id l = A →
  l_peer l = h →
  p = AwaitRead l ∨ p = AwaitDrain l (chunk_of l) →
  is_cancelled A w1 = true →
  Forall (λ t, ft_id t = A → ft_status t = Cancelled) (transfers w1) →
  no_back_pressure e →
  let r := resume e p w1 in
  snd r = Some AwaitPause
  ∧ sent_by h (fst r) =
      log ++ [Binary (chunk_of l)]
      ++ (if l_i l + 1 <? l_totalChunks l then [control file_cancel] else [])
  ∧ Forall (λ t, ft_id t = A → ft_status t = Cancelled) (transfers (fst r))
  ∧ map ft_id (transfers (fst r)) = map ft_id (transfers w1)
  ∧ sendQueueRef (fst r) = sendQueueRef w1.
Proof.
  intros Hl1 Hid Hh Hp Hc1 HT1 Hnb r.
  assert (Hres : r = drain e l (chunk_of l) w1).
  { subst r. destruct Hp as [-> | ->]; cbn [resume]; [|done].
    unfold chunk_read. fold (chunk_of l). rewrite Hh.
    by destruct (peer_live_flags _ _ _ Hl1) as [_ ->]. }
  rewrite Hres. clear Hres r. unfold drain, no_back_pressure in *.
  destruct (Z.gtb_spec (bufferedAmount e) HIGH_WATER_MARK) as [Hbp|Hbp]; [lia|].
  unfold send_chunk. rewrite Hh.
  destruct (peer_live_send _ _ (Binary (chunk_of l)) _ Hl1) as [-> Hl2].
  set (w2 := update_peer _ h w1) in *.
  assert (Hnext : ∃ l' w3,
    (if (now e - l_lastProgressUpdate l >? PROGRESS_THROTTLE)
        || (l_i l =? l_totalChunks l - 1)
     then for_head e
            (next_chunk (l_sentBytes l + chunk_length (chunk_of l)) (now e) l)
            (setTransfers
               (update_where (has_id (l_id l))
                  (mark_progress
                     (percent (l_sentBytes l + chunk_length (chunk_of l)) (f_size (l_file l)))
                     (rate (l_sentBytes l + chunk_length (chunk_of l)) (now e)
                        (l_currentStartTime l))
                     (remaining (f_size (l_file l))
                        (l_sentBytes l + chunk_length (chunk_of l))
                        (rate (l_sentBytes l + chunk_length (chunk_of l)) (now e)
                           (l_currentStartTime l))))) w2)
     else for_head e
            (next_chunk (l_sentBytes l + chunk_length (chunk_of l))
               (l_lastProgressUpdate l) l) w2)
    = for_head e l' w3
    ∧ l_id l' = A ∧ l_peer l' = h ∧ l_i l' = l_i l + 1
    ∧ l_totalChunks l' = l_totalChunks l
    ∧ peers w3 = peers w2 ∧ cancelledRef w3 = cancelledRef w1
    ∧ sendQueueRef w3 = sendQueueRef w1
    ∧ Forall (λ t, ft_id t = A → ft_status t = Cancelled) (transfers w3)
    ∧ map ft_id (transfers w3) = map ft_id (transfers w1)).
  { destruct (_ || _); eexists _, _; (split; [reflexivity|]);
      repeat split; try done.
    - cbn [transfers setTransfers set_transfers]. subst w2.
      cbn [transfers update_peer set_peers].
      eapply Forall_update_where; [exact HT1|..]; done.
    - cbn [transfers setTransfers set_transfers]. subst w2.
      cbn [transfers update_peer set_peers].
      by rewrite !update_where_ids. }
  destruct Hnext as (l' & w3 & -> & Hid' & Hh' & Hi' & Ht' & Hp3 & Hc3 & Hq3 & HT3 & Hids3).
  assert (Hl3 : peer_live h (log ++ [Binary (chunk_of l)]) w3)
    by (by eapply peer_live_frame).
  assert (Hcan3 : is_cancelled A w3 = true).
  { unfold is_cancelled in *. by rewrite Hc3. }
  unfold for_head. rewrite Hi', Ht', Hid', Hh', Hcan3.
  destruct (Z.ltb_spec (l_i l + 1) (l_totalChunks l)) as [Hlt|Hge].
  - destruct (peer_live_send _ _ (control file_cancel) _ Hl3) as [-> Hl4].
    unfold after_chunks. cbn [negb andb fst snd].
    split; [done|]. split.
    { erewrite peer_live_sent_by; [|eapply peer_live_frame; [|exact Hl4]; done].
      by rewrite <- !app_assoc. }
    split.
    { cbn [transfers setTransfers set_transfers set_cancelledRef update_peer set_peers].
      eapply Forall_update_where; [exact HT3|..]; done. }
    split.
    { cbn [transfers setTransfers set_transfers set_cancelledRef update_peer set_peers].
      by rewrite update_where_ids. }
    done.
  - unfold after_chunks. rewrite Hid', Hcan3. cbn [negb andb fst snd].
    split; [done|]. split.
    { erewrite peer_live_sent_by; [|exact Hl3]. by rewrite app_nil_r. }
    done.
Qed.

(** X20. A cancellation by the receiver stops the send loop.  The sender
    handles a [file-cancel] with the id [A] while its loop is sending [A]
    (the loop stands at the read of a chunk or in the back-pressure loop):
    handling the message sends nothing and puts [A] in [cancelledRef]; at
    its next resumption without back-pressure the loop sends the chunk it
    had read, then, if chunks remain, its own [file-cancel], and no further
    chunk and no [file-complete]; it stands at the pause between files and
    the records of [A] are [cancelled]. *)
Theorem remote_cancel_stops_loop (e e' : env) (A : string) (l : locals) (h : nat)
    (log : list payload) (p : pc) (w : world) :
  peer_live h log w →
  l_id l = A →
  l_peer l = h →
  p = AwaitRead l ∨ p = AwaitDrain l (chunk_of l) →
  Js.is_empty A = false →
  JSON_parse (JSON_stringify (file_cancel_id A)) = Some (file_cancel_id A) →
  no_back_pressure e' →
  let w1 := handleData e (control (file_cancel_id A)) w in
  let r := resume e' p w1 in
  sent_by h w1 = log
  ∧ A ∈ cancelledRef w1
  ∧ snd r = Some AwaitPause
  ∧ sent_by h (fst r) =
      log ++ [Binary (chunk_of l)]
      ++ (if l_i l + 1 <? l_totalChunks l then [control file_cancel] else [])
  ∧ Forall (λ t, ft_id t = A → ft_status t = Cancelled) (transfers (fst r))
  ∧ map ft_id (transfers (fst r)) = map ft_id (transfers w).
Proof.
  intros Hl Hid Hh Hp HA Hparse Hnb w1 r.
  set (w0 := setTransfers (update_where (has_id A) (mark_stopped Cancelled))
               (set_cancelledRef ({[A]} ∪ cancelledRef w) w)).
  assert (E : w1 = w0 ∨ w1 = set_incomingRef None w0).
  { subst w1. unfold handleData, control, parse_payload. rewrite Hparse.
    assert (Hty : is_type "file-cancel" (file_cancel_id A) = true) by reflexivity.
    rewrite (is_type_truthy _ _ Hty). unfold on_message.
    rewrite Hty, !(is_type_other _ _ _ Hty) by done.
    unfold on_file_cancel, file_cancel_id.
    cbn [field obj_get String.eqb Ascii.eqb Bool.eqb id_of]. rewrite HA.
    cbv zeta. rewrite HA. fold w0. destruct (incomingRef w0) as [inc|]; [|by left].
    destruct (String.eqb (inc_id inc) A); [by right|by left]. }
  assert (Hframe : peers w1 = peers w ∧ cancelledRef w1 = {[A]} ∪ cancelledRef w
                   ∧ transfers w1 = update_where (has_id A) (mark_stopped Cancelled)
                                      (transfers w)).
  { by destruct E as [-> | ->]. }
  clearbody w1. destruct Hframe as (Hp1 & Hc1 & HT1).
  assert (Hl1 : peer_live h log w1) by (by eapply peer_live_frame).
  assert (Hcan : is_cancelled A w1 = true).
  { unfold is_cancelled. rewrite Hc1. apply bool_decide_eq_true.
    by apply elem_of_union_l, elem_of_singleton. }
  assert (HTc : Forall (λ t, ft_id t = A → ft_status t = Cancelled) (transfers w1)).
  { rewrite HT1. unfold update_where. apply Forall_map, Forall_forall. intros t _. cbn.
    destruct (has_id A t) eqn:Ht; [done|]. intros Ht'%has_id_true. congruence. }
  destruct (cancelled_loop_stops e' A l h log p w1 Hl1 Hid Hh Hp Hcan HTc Hnb)
    as (R1 & R2 & R3 & R4 & _).
  split; [by apply peer_live_sent_by|].
  split; [rewrite Hc1; by apply elem_of_union_l, elem_of_singleton|].
  split; [exact R1|]. split; [exact R2|]. split; [exact R3|].
  subst r. rewrite R4, HT1. by rewrite update_where_ids.
Qed.

(** ** Ids in use, lost peers and [disconnect] *)


Lemma peer_send_destroyed h d w : peer_destroyed h w = true → peer_send h d w = None.
Proof.
  unfold peer_destroyed, peer_send. destruct (peers w !! h) as [p|]; [|done].
  by intros ->.
Qed.

Lemma peer_channel_destroyed h w : peer_destroyed h w = true → peer_channel h w = false.
Proof.
  unfold peer_destroyed, peer_channel. destruct (peers w !! h) as [p|]; [|done].
  by intros ->.
Qed.

Lemma send_chunk_lost e l chunk w :
  peer_destroyed (l_peer l) w = true →
  send_chunk e l chunk w =
    (setTransfers (update_where (has_id (l_id l)) (mark_stopped StatusError)) w,
     Some AwaitPause).
Proof.
  intros H. unfold send_chunk. rewrite peer_send_destroyed by done.
  reflexivity.
Qed.

(** X23. The peer is lost while a chunk is being read (the peer of the run
    is destroyed, and [peerRef] holds no usable peer).  In two resumptions
    the run ends: the chunk is not sent, the records of the file become
    [error] with speed 0, the next entry is taken off the queue without
    being sent or marked, and [isSendingRef] is reset. *)
Theorem peer_lost_during_transfer (e e' : env) (l : locals) (w : world) :
  peer_destroyed (l_peer l) w = true →
  no_usable_peer w →
  run_loop [e; e'] (Some (AwaitRead l)) w =
    (set_isSendingRef false
       (set_sendQueueRef (tail (sendQueueRef w))
          (setTransfers (update_where (has_id (l_id l)) (mark_stopped StatusError)) w)),
     None).
Proof.
  intros Hl Hp.
  set (w1 := setTransfers (update_where (has_id (l_id l)) (mark_stopped StatusError)) w).
  assert (R1 : resume e (AwaitRead l) w = (w1, Some AwaitPause)).
  { cbn [resume]. unfold chunk_read.
    by rewrite peer_channel_destroyed, send_chunk_lost by done. }
  assert (R2 : resume e' AwaitPause w1 =
               (set_isSendingRef false (set_sendQueueRef (tail (sendQueueRef w)) w1), None)).
  { cbn [resume]. unfold while_head. subst w1.
    cbn [sendQueueRef peerRef setTransfers set_transfers].
    destruct (sendQueueRef w) as [|[id f] q] eqn:E.
    { unfold finish, set_isSendingRef, set_sendQueueRef, set_transfers. cbn.
      by rewrite E. }
    cbn [peerRef setTransfers set_sendQueueRef set_transfers tail].
    unfold no_usable_peer in Hp. destruct (peerRef w) as [h|]; [|done].
    unfold peer_destroyed in *.
    cbn [peers setTransfers set_sendQueueRef set_transfers].
    by rewrite Hp. }
  cbn [run_loop]. rewrite R1. cbn [fst snd]. by rewrite R2.
Qed.

Lemma disconnect_destroys h w :
  peerRef w = Some h ∨ peer_destroyed h w = true →
  peer_destroyed h (disconnect w) = true.
Proof.
  unfold disconnect, peer_destroyed, peer_destroy, update_peer.
  intros [Hr|Hd].
  - rewrite Hr. cbn. rewrite list_lookup_alter_eq.
    by destruct (peers w !! h).
  - destruct (peerRef w) as [h'|]; cbn; [|done].
    destruct (decide (h' = h)) as [->|Hne].
    + rewrite list_lookup_alter_eq. by destruct (peers w !! h).
    + by rewrite list_lookup_alter_ne.
Qed.

Lemma resume_reset e p P w :
  engine_reset P w → loop_peer_lost p w →
  engine_reset P (fst (resume e p w))
  ∧ match snd (resume e p w) with
    | Some p' => loop_peer_lost p' (fst (resume e p w))
    | None => True
    end.
Proof.
  intros (HP & HT & HQ) Hl.
  destruct p as [|l|l chunk|]; cbn [resume loop_peer_lost] in *.
  - unfold while_head. rewrite HQ. done.
  - unfold chunk_read. rewrite peer_channel_destroyed, send_chunk_lost by done.
    cbn [fst snd]. repeat split; try done. cbn. by rewrite HT.
  - unfold drain. destruct (_ >? _); [done|].
    rewrite send_chunk_lost by done.
    cbn [fst snd]. repeat split; try done. cbn. by rewrite HT.
  - unfold while_head. rewrite HQ. done.
Qed.

Lemma run_loop_reset es p P w :
  engine_reset P w →
  match p with Some p' => loop_peer_lost p' w | None => True end →
  engine_reset P (fst (run_loop es p w)).
Proof.
  revert p w. induction es as [|e es IH]; intros p w Hw Hp; [done|].
  destruct p as [p|]; [|done]. cbn [run_loop].
  destruct (resume_reset e p P w Hw Hp) as [H1 H2].
  by apply IH.
Qed.

(** X24. After [disconnect] a run of the loop that is still suspended sends
    nothing more and brings no record back: if its peer was the one in
    [peerRef] (or was destroyed already), then after any number of
    resumptions the peers are as [disconnect] left them, and the list of
    records and the queue are empty. *)
Theorem disconnect_stops_sending (es : list env) (p : pc) (w : world) :
  match p with
  | AwaitRead l | AwaitDrain l _ =>
      peerRef w = Some (l_peer l) ∨ peer_destroyed (l_peer l) w = true
  | AwaitWakeLock | AwaitPause => True
  end →
  let w' := fst (run_loop es (Some p) (disconnect w)) in
  peers w' = peers (disconnect w)
  ∧ transfers w' = []
  ∧ sendQueueRef w' = [].
Proof.
  intros Hp w'. subst w'. apply run_loop_reset; [done|].
  destruct p as [|l|l c|]; cbn [loop_peer_lost]; try done;
    by apply disconnect_destroys.
Qed.

(** ** A queue of files through the send loop *)

Lemma steady_send h C log todo d w :
  steady h C log todo w →
  peer_send h d w = Some (update_peer (with_sent d) h w)
  ∧ steady h C (log ++ [d]) todo (update_peer (with_sent d) h w).
Proof.
  intros (Hq & Hr & Hc & Hl). destruct (peer_live_send h log d w Hl) as [E Hl'].
  by repeat split.
Qed.

Lemma steady_setTransfers h C log todo g w :
  steady h C log todo w → steady h C log todo (setTransfers g w).
Proof. intros (Hq & Hr & Hc & Hl). by repeat split. Qed.

Lemma wires_snoc sent id f : wires (sent ++ [(id, f)]) = wires sent ++ file_wire id f.
Proof. unfold wires. rewrite map_app, concat_app. cbn. by rewrite app_nil_r. Qed.

Lemma resumptions_cons id f todo :
  resumptions ((id, f) :: todo) = (S (Z.to_nat (totalChunks_of f)) + resumptions todo)%nat.
Proof. reflexivity. Qed.

Section Queue.

Variables (h : nat) (C : gset string) (base : list payload)
  (all : list (string * File)).

Hypothesis not_cancelled : Forall (λ en, fst en ∉ C) all.

Lemma for_head_queue e sent id f todo k l w :
  all = sent ++ (id, f) :: todo →
  (k <= Z.to_nat (totalChunks_of f))%nat →
  locals_at id f h k l →
  steady h C (base ++ wires sent ++ meta_and_chunks id f k) todo w →
  queue_inv h C base all
    (Z.to_nat (totalChunks_of f) - k + S (resumptions todo))
    (snd (for_head e l w)) (fst (for_head e l w)).
Proof.
  intros Hall Hk Hloc Hs. pose proof Hloc as (Hid & Hf & Hh & Ht & Hi).
  pose proof (totalChunks_of_bounds f) as (H0 & _).
  assert (Hnc : is_cancelled id w = false).
  { destruct Hs as (_ & _ & Hc & _). unfold is_cancelled. rewrite Hc.
    apply bool_decide_eq_false. rewrite Forall_forall in not_cancelled.
    apply (not_cancelled (id, f)). rewrite Hall. apply elem_of_app. right. by left. }
  unfold for_head. rewrite Hi, Ht, Hid, Hh, Hnc.
  destruct (Z.ltb_spec (Z.of_nat k) (totalChunks_of f)) as [Hlt|Hge].
  - pose proof Hs as (_ & _ & _ & Hl).
    destruct (peer_live_flags _ _ _ Hl) as [-> _]. cbn [fst snd queue_inv].
    exists sent, id, f, todo, k.
    split; [done|]. split; [lia|]. split; [done|]. by split.
  - assert (k = Z.to_nat (totalChunks_of f)) as -> by lia.
    unfold after_chunks. rewrite Hid, Hh, Hnc. cbn [negb andb].
    destruct (steady_send _ _ _ _ (control file_complete) _ Hs) as [-> Hs'].
    cbn [fst snd queue_inv].
    exists (sent ++ [(id, f)]), todo. split; [by rewrite <- app_assoc|].
    split; [lia|]. apply steady_setTransfers.
    rewrite wires_snoc. rewrite <- !app_assoc in Hs'. exact Hs'.
Qed.

Lemma send_chunk_queue e sent id f todo k l w :
  all = sent ++ (id, f) :: todo →
  (k < Z.to_nat (totalChunks_of f))%nat →
  locals_at id f h k l →
  steady h C (base ++ wires sent ++ meta_and_chunks id f k) todo w →
  queue_inv h C base all
    (Z.to_nat (totalChunks_of f) - S k + S (resumptions todo))
    (snd (send_chunk e l (chunk_at f k) w)) (fst (send_chunk e l (chunk_at f k) w)).
Proof.
  intros Hall Hk Hl Hs. pose proof Hl as (Hid & Hf & Hh & Ht & Hi).
  unfold send_chunk. rewrite Hh.
  destruct (steady_send _ _ _ _ (Binary (chunk_at f k)) _ Hs) as [-> Hs'].
  rewrite <- !app_assoc, <- meta_and_chunks_S in Hs'.
  destruct (_ || _).
  - eapply for_head_queue; [exact Hall|lia| |by apply steady_setTransfers].
    repeat split; cbn; try done. lia.
  - eapply for_head_queue; [exact Hall|lia| |done].
    repeat split; cbn; try done. lia.
Qed.

Lemma while_head_queue e sent todo w :
  all = sent ++ todo →
  steady h C (base ++ wires sent) todo w →
  queue_inv h C base all (resumptions todo)
    (snd (while_head e w)) (fst (while_head e w)).
Proof.
  intros Hall (Hq & Hr & Hc & Hl). unfold while_head. rewrite Hq.
  destruct todo as [|[id f] todo].
  - cbn [fst snd finish queue_inv]. rewrite app_nil_r in Hall. subst sent.
    by repeat split.
  - cbn [peerRef set_sendQueueRef]. rewrite Hr.
    assert (Hl1 : peer_live h (base ++ wires sent) (set_sendQueueRef todo w)) by done.
    destruct (peer_live_flags _ _ _ Hl1) as [-> _].
    set (w2 := setTransfers _ _).
    assert (Hs2 : steady h C (base ++ wires sent) todo w2) by done.
    destruct (steady_send _ _ _ _ (control (file_meta id f (totalChunks_of f))) _ Hs2)
      as [E Hs3].
    fold (totalChunks_of f). rewrite E. rewrite resumptions_cons.
    replace (S (Z.to_nat (totalChunks_of f)) + resumptions todo)%nat
      with (Z.to_nat (totalChunks_of f) - 0 + S (resumptions todo))%nat by lia.
    eapply for_head_queue; [exact Hall|lia|done|].
    rewrite <- app_assoc in Hs3. exact Hs3.
Qed.

Lemma resume_queue e m p w :
  queue_inv h C base all m (Some p) w →
  ∃ m', queue_inv h C base all m' (snd (resume e p w)) (fst (resume e p w))
        ∧ (m' <= m)%nat ∧ (no_back_pressure e → m = S m').
Proof.
  destruct p as [|l|l chunk|]; cbn [queue_inv resume].
  - intros (sent & todo & Hall & -> & Hs).
    exists (resumptions todo). split; [by eapply while_head_queue|]. lia.
  - intros (sent & id & f & todo & k & Hall & Hk & -> & Hl & Hs).
    pose proof Hl as (Hid & Hf & Hh & Ht & Hi).
    assert (Hchunk : slice (l_file l) (l_i l * CHUNK_SIZE)
              (Z.min (l_i l * CHUNK_SIZE + CHUNK_SIZE) (f_size (l_file l)))
            = chunk_at f k) by (by rewrite Hf, Hi).
    unfold chunk_read. rewrite Hchunk, Hh.
    pose proof Hs as (_ & _ & _ & Hlive).
    destruct (peer_live_flags _ _ _ Hlive) as [_ ->].
    unfold drain. destruct (Z.gtb_spec (bufferedAmount e) HIGH_WATER_MARK) as [Hbp|Hbp].
    + eexists. cbn [fst snd queue_inv].
      split; [by exists sent, id, f, todo, k|]. split; [lia|].
      unfold no_back_pressure. lia.
    + eexists. split; [by eapply send_chunk_queue|]. lia.
  - intros (sent & id & f & todo & k & Hall & Hk & -> & Hl & -> & Hs).
    unfold drain. destruct (Z.gtb_spec (bufferedAmount e) HIGH_WATER_MARK) as [Hbp|Hbp].
    + eexists. cbn [fst snd queue_inv].
      split; [by exists sent, id, f, todo, k|]. split; [lia|].
      unfold no_back_pressure. lia.
    + eexists. split; [by eapply send_chunk_queue|]. lia.
  - intros (sent & todo & Hall & -> & Hs).
    exists (resumptions todo). split; [by eapply while_head_queue|]. lia.
Qed.

Lemma run_loop_queue es m p w :
  queue_inv h C base all m p w →
  ∃ m', queue_inv h C base all m' (snd (run_loop es p w)) (fst (run_loop es p w))
        ∧ (Forall no_back_pressure es → m' = (m - length es)%nat).
Proof.
  revert m p w. induction es as [|e es IH]; intros m p w Hinv.
  - exists m. split; [done|]. intros _. cbn. lia.
  - destruct p as [p|].
    + destruct (resume_queue e m p w Hinv) as (m1 & Hinv1 & Hle & Hdec).
      destruct (IH _ _ _ Hinv1) as (m2 & Hinv2 & Hm2).
      exists m2. split; [done|].
      intros [He Hes]%Forall_cons. rewrite (Hdec He), (Hm2 Hes). cbn. lia.
    + exists m. split; [done|]. intros _.
      cbn in Hinv. destruct Hinv as (-> & _). done.
Qed.

End Queue.

(** X25. The files of one call of [sendFiles] are sent one after the other
    in the order given.  With a live connected peer, an empty queue, no run
    of the loop and none of the new ids cancelled: whatever the schedule of
    resumptions, when the run has ended the peer has sent, after what it
    had sent before, the [file-meta], the chunks and the [file-complete] of
    the first file, then those of the second, and so on, and nothing else;
    and the run does end, after one resumption for each chunk, one for
    each file and one more when the channel exerts no back-pressure. *)
Theorem send_files_wire (e0 : env) (files : list File) (h : nat)
    (base : list payload) (w : world) :
  peerRef w = Some h →
  peer_live h base w →
  sendQueueRef w = [] →
  isSendingRef w = false →
  Forall (λ en, fst en ∉ cancelledRef w) (new_entries e0 files) →
  ∃ w1, sendFiles e0 files w = (w1, Some AwaitWakeLock)
    ∧ ∀ es,
        (snd (run_loop es (Some AwaitWakeLock) w1) = None →
         sent_by h (fst (run_loop es (Some AwaitWakeLock) w1)) =
           base ++ wires (new_entries e0 files))
        ∧ (Forall no_back_pressure es →
           (S (resumptions (new_entries e0 files)) <= length es)%nat →
           snd (run_loop es (Some AwaitWakeLock) w1) = None).
Proof.
  intros Hr Hl Hq Hs Hc.
  unfold sendFiles, processNextFile. cbn [isSendingRef setTransfers set_transfers
    set_sendQueueRef]. rewrite Hs, Hq. cbn [app].
  eexists. split; [reflexivity|]. intros es.
  set (all := new_entries e0 files) in *.
  match goal with |- context [run_loop es _ ?w1] =>
    assert (Hinv : queue_inv h (cancelledRef w) base all (S (resumptions all))
                     (Some AwaitWakeLock) w1)
  end.
  { cbn [queue_inv]. exists [], all. unfold wires. cbn. rewrite app_nil_r.
    by repeat split. }
  destruct (run_loop_queue h _ base all Hc es _ _ _ Hinv) as (m' & Hinv' & Hm').
  split.
  - intros E. rewrite E in Hinv'. destruct Hinv' as (_ & _ & Hlive).
    by apply peer_live_sent_by in Hlive.
  - intros Hes Hlen. specialize (Hm' Hes).
    destruct (snd (run_loop es _ _)) as [p|]; [|done].
    assert (m' = 0%nat) as -> by lia.
    destruct p; cbn [queue_inv] in Hinv'.
    + destruct Hinv' as (? & ? & _ & ? & _). lia.
    + destruct Hinv' as (? & ? & ? & ? & k & _ & ? & ? & _). lia.
    + destruct Hinv' as (? & ? & ? & ? & k & _ & ? & ? & _). lia.
    + destruct Hinv' as (? & ? & _ & ? & _). lia.
Qed.

End MoreProperties.

(* ================================================================= *)
(** * Progress in double arithmetic *)

(** ** Rounding keeps the sign *)

Lemma iter_pos_invariant {A} (f : A → A) (Inv : A → Prop) :
  (∀ x, Inv x → Inv (f x)) → ∀ p x, Inv x → Inv (SpecFloat.iter_pos f p x).
Proof.
  intros Hf. induction p as [p IH|p IH|]; intros x Hx; cbn; auto.
Qed.

Lemma shr_1_nonneg mrs : 0 <= shr_m mrs → 0 <= shr_m (shr_1 mrs).
Proof. destruct mrs as [[|[p|p|]|p] r s]; cbn; lia. Qed.

Lemma shr_fexp_nonneg m e l :
  0 <= m → 0 <= shr_m (fst (shr_fexp 53 1024 m e l)).
Proof.
  intros Hm. unfold shr_fexp, shr.
  assert (H0 : 0 <= shr_m (shr_record_of_loc m l))
    by (destruct l as [|c]; [|destruct c]; cbn; lia).
  destruct (_ - e) as [|p|p]; cbn [fst]; try done.
  by apply iter_pos_invariant; [apply shr_1_nonneg|].
Qed.

Lemma round_nearest_even_nonneg m l : 0 <= m → 0 <= round_nearest_even m l.
Proof.
  intros Hm. destruct l as [|c]; [|destruct c]; cbn; try lia.
  destruct (Z.even m); lia.
Qed.

(** A rounded number has the sign it was given, and it is a number. *)
Lemma binary_round_aux_sign s m e l :
  0 <= m →
  match binary_round_aux 53 1024 s m e l with
  | S754_zero s' | S754_infinity s' | S754_finite s' _ _ => s' = s
  | S754_nan => False
  end.
Proof.
  intros Hm. unfold binary_round_aux.
  pose proof (shr_fexp_nonneg m e l Hm) as H1.
  destruct (shr_fexp 53 1024 m e l) as [mrs' e']. cbn [fst] in H1.
  pose proof (shr_fexp_nonneg _ e' loc_Exact
                (round_nearest_even_nonneg _ (loc_of_shr_record mrs') H1)) as H2.
  destruct (shr_fexp 53 1024 _ e' loc_Exact) as [mrs'' e'']. cbn [fst] in H2.
  destruct (shr_m mrs'') as [|p|p]; [done| |lia].
  by destruct (e'' <=? _).
Qed.

Lemma binary_round_aux_nonneg m e l :
  0 <= m → non_negative (binary_round_aux 53 1024 false m e l).
Proof.
  intros Hm. pose proof (binary_round_aux_sign false m e l Hm) as H.
  destruct (binary_round_aux _ _ _ _ _ _) as [s|s| |s ? ?]; try done; by subst.
Qed.

Lemma of_Z_nonneg z : 0 <= z → non_negative (Number.of_Z z).
Proof.
  intros Hz. destruct z as [|p|p]; [done| |lia].
  unfold Number.of_Z, binary_normalize, binary_round.
  destruct (shl_align _ _ _) as [mz ez]. by apply binary_round_aux_nonneg.
Qed.

Lemma div_nonneg x m e :
  non_negative x → non_negative (Number.div x (S754_finite false m e)).
Proof.
  destruct x as [[]|[]| |[] mx ex]; try done. intros _.
  unfold Number.div, SFdiv, SFdiv_core_binary.
  set (m' := match _ - _ - _ with Z0 => Zpos mx | Zpos _ => _ | Zneg _ => 0 end).
  assert (Hm' : 0 <= m').
  { subst m'. destruct (_ - _ - _); [lia| |lia]. apply Z.shiftl_nonneg. lia. }
  pose proof (Z.div_pos m' (Zpos m) Hm' ltac:(lia)) as Hq.
  unfold Z.div in Hq. destruct (Z.div_eucl m' (Zpos m)) as [q r].
  by apply binary_round_aux_nonneg.
Qed.

Lemma mul_nonneg x m e :
  non_negative x → non_negative (Number.mul x (S754_finite false m e)).
Proof.
  destruct x as [[]|[]| |[] mx ex]; try done. intros _.
  unfold Number.mul, SFmul. by apply binary_round_aux_nonneg.
Qed.

Lemma Math_round_nonneg x :
  non_negative x →
  match Math_round x with
  | Num z => 0 <= z
  | Infinity s => s = false
  | NaN => False
  end.
Proof.
  destruct x as [[]|[]| |[] m e]; try done. intros _. cbn.
  destruct e as [|k|k].
  - lia.
  - pose proof (Z.pow_pos_nonneg 2 (Zpos k)). lia.
  - apply Z.div_pos; [|apply Z.pow_pos_nonneg; lia].
    pose proof (Z.pow_pos_nonneg 2 (Zpos k)). lia.
Qed.

(** ** The integers below [2^53] are doubles *)

Lemma digits2_pos_iter p k :
  Zpos (digits2_pos (Pos.iter xO p k)) = Zpos (digits2_pos p) + Zpos k.
Proof.
  induction k as [|k IH] using Pos.peano_ind.
  - cbn. lia.
  - rewrite Pos.iter_succ. cbn [digits2_pos]. lia.
Qed.

Lemma digits2_pos_bound p n : 0 <= n → Zpos p < 2 ^ n → Zpos (digits2_pos p) <= n.
Proof.
  revert n. induction p as [p IH|p IH|]; intros n Hn Hp.
  - assert (n ≠ 0) by (intros ->; cbn in Hp; lia).
    replace n with (Z.succ (n - 1)) in Hp by lia. rewrite Z.pow_succ_r in Hp by lia.
    specialize (IH (n - 1) ltac:(lia) ltac:(lia)). cbn [digits2_pos]. lia.
  - assert (n ≠ 0) by (intros ->; cbn in Hp; lia).
    replace n with (Z.succ (n - 1)) in Hp by lia. rewrite Z.pow_succ_r in Hp by lia.
    specialize (IH (n - 1) ltac:(lia) ltac:(lia)). cbn [digits2_pos]. lia.
  - assert (n ≠ 0) by (intros ->; cbn in Hp; lia). cbn. lia.
Qed.

(** A mantissa that stands at its canonical exponent is not rounded. *)
Lemma binary_round_aux_canonical s m e :
  fexp 53 1024 (Zpos (digits2_pos m) + e) = e → e <= 971 →
  binary_round_aux 53 1024 s (Zpos m) e loc_Exact = S754_finite s m e.
Proof.
  intros Hc He. unfold binary_round_aux, shr_fexp. cbn [Zdigits2 shr_record_of_loc].
  rewrite Hc, Z.sub_diag. cbn [shr shr_m loc_of_shr_record round_nearest_even Zdigits2].
  rewrite Hc, Z.sub_diag. cbn [shr shr_m].
  destruct (Z.leb_spec e (1024 - 53)); [done|lia].
Qed.

Lemma of_Z_finite z :
  0 < z < 2 ^ 53 → ∃ m e, Number.of_Z z = S754_finite false m e.
Proof.
  intros [H0 H1]. destruct z as [|p|p]; try lia.
  pose proof (digits2_pos_bound p 53 ltac:(lia) H1) as Hd.
  unfold Number.of_Z, binary_normalize, binary_round, shl_align.
  set (d := Zpos (digits2_pos p)) in *.
  assert (Hf : fexp 53 1024 (d + 0) = d - 53).
  { unfold fexp, emin. lia. }
  rewrite Hf. destruct (d - 53 - 0) as [|k|k] eqn:Hk; try lia.
  - eexists _, _. apply binary_round_aux_canonical; [|lia].
    fold d. unfold fexp, emin. lia.
  - eexists _, _. apply binary_round_aux_canonical; [|lia].
    rewrite digits2_pos_iter. fold d. unfold fexp, emin. lia.
Qed.

(** ** A number divided by itself is one *)

Lemma div_diag m e :
  Number.div (S754_finite false m e) (S754_finite false m e) = Number.of_Z 1.
Proof.
  unfold Number.div, SFdiv, SFdiv_core_binary.
  replace (Zdigits2 (Zpos m) + e - (Zdigits2 (Zpos m) + e)) with 0 by lia.
  rewrite Z.sub_diag.
  change (Z.min (fexp 53 1024 0) 0) with (-53). change (0 - -53) with 53.
  cbn match.
  assert (E : Z.div_eucl (Z.shiftl (Zpos m) 53) (Zpos m) = (2 ^ 53, 0)).
  { rewrite Z.shiftl_mul_pow2 by lia.
    pose proof (Z_div_mod (Zpos m * 2 ^ 53) (Zpos m) ltac:(lia)) as H.
    destruct (Z.div_eucl _ _) as [q r]. destruct H as [H1 H2].
    assert (q = 2 ^ 53) by nia. subst q. f_equal. lia. }
  rewrite E.
  replace (new_location (Zpos m) 0) with loc_Exact.
  2:{ unfold new_location, new_location_even, new_location_odd.
      by destruct (Z.even _). }
  vm_compute. reflexivity.
Qed.

(** X21. The progress [Math.min(100, Math.round((bytes / size) * 100))],
    computed in doubles as the code computes it, for a byte count
    [bytes >= 0] and a size [0 < size < 2^53]: it is an integer between 0
    and 100, never [NaN] and never an infinity; it is 0 when no byte is
    counted, and 100 when all the bytes are. *)
Theorem percent_range (bytes size : Z) :
  0 <= bytes → 0 < size < 2 ^ 53 →
  (∃ p, percent bytes size = Num p ∧ 0 <= p <= 100)
  ∧ percent 0 size = Num 0
  ∧ percent size size = Num 100.
Proof.
  intros Hb Hs. destruct (of_Z_finite size Hs) as (m & e & E).
  unfold percent. rewrite E. split; [|split].
  - pose proof (of_Z_nonneg bytes Hb) as H1.
    pose proof (div_nonneg _ m e H1) as H2.
    change (Number.of_Z 100) with (S754_finite false 7036874417766400 (-46)).
    pose proof (mul_nonneg _ 7036874417766400 (-46) H2) as H3.
    pose proof (Math_round_nonneg _ H3) as H4.
    destruct (Math_round _) as [z| |[]]; try done.
    + exists (Z.min 100 z). split; [done|]. lia.
    + by exists 100.
  - done.
  - rewrite div_diag. vm_compute. reflexivity.
Qed.

(* ================================================================= *)
(** * The reference instance

    The laws assumed of the libraries hold for the reference instance. *)

Lemma reference_inflate_deflate s : Reference.inflate (Reference.deflate s) = Some s.
Proof.
  unfold Reference.inflate, Reference.deflate.
  by rewrite string_of_list_byte_of_string.
Qed.

Lemma reference_unquote_escape_char c tail :
  Reference.unquote (Reference.escape_char c +:+ tail) =
  match Reference.unquote tail with
  | Some (t, k) => Some (String c t, k)
  | None => None
  end.
Proof. destruct c as [[] [] [] [] [] [] [] []]; reflexivity. Qed.

Lemma reference_unquote_escape s tail :
  Reference.unquote (Reference.escape s +:+ String Reference.quote_char tail)
  = Some (s, tail).
Proof.
  induction s as [|c s IH]; [reflexivity|].
  cbn [Reference.escape]. rewrite app_assoc_s, reference_unquote_escape_char.
  by rewrite IH.
Qed.

Lemma reference_unvalue_string v tail :
  Reference.unvalue
    (String Reference.quote_char
       (Reference.escape v +:+ String Reference.quote_char tail))
  = Some (JStr v, tail).
Proof.
  unfold Reference.unvalue. rewrite Ascii.eqb_refl.
  by rewrite reference_unquote_escape.
Qed.

(** The last member of an object and its closing brace. *)
Lemma reference_unmembers_last fuel k v :
  Reference.unmembers (S fuel)
    (String Reference.quote_char
       (Reference.escape k +:+
        String Reference.quote_char
          (String ":"
             (String Reference.quote_char
                (Reference.escape v +:+ String Reference.quote_char "}")))))
  = Some [(k, JStr v)].
Proof.
  cbn [Reference.unmembers]. rewrite Ascii.eqb_refl, reference_unquote_escape.
  cbn [Ascii.eqb Bool.eqb]. by rewrite reference_unvalue_string.
Qed.

(** A member that is followed by others. *)
Lemma reference_unmembers_cons fuel k v rest o :
  Reference.unmembers fuel rest = Some o →
  obj_get k o = None →
  Reference.unmembers (S fuel)
    (String Reference.quote_char
       (Reference.escape k +:+
        String Reference.quote_char
          (String ":"
             (String Reference.quote_char
                (Reference.escape v +:+
                 String Reference.quote_char (String "," rest))))))
  = Some ((k, JStr v) :: o).
Proof.
  intros Hrest Hk.
  cbn [Reference.unmembers]. rewrite Ascii.eqb_refl, reference_unquote_escape.
  cbn [Ascii.eqb Bool.eqb]. rewrite reference_unvalue_string.
  cbn [Ascii.eqb Bool.eqb]. by rewrite Hrest, Hk.
Qed.

Lemma reference_stringify_signal t s :
  Reference.JSON_stringify (JObj [("t", JStr t); ("s", JStr s)]) =
  String "{"
    (String Reference.quote_char
       (Reference.escape "t" +:+
        String Reference.quote_char
          (String ":"
             (String Reference.quote_char
                (Reference.escape t +:+
                 String Reference.quote_char
                   (String ","
                      (String Reference.quote_char
                         (Reference.escape "s" +:+
                          String Reference.quote_char
                            (String ":"
                               (String Reference.quote_char
                                  (Reference.escape s +:+
                                   String Reference.quote_char "}"))))))))))).
Proof.
  unfold Reference.JSON_stringify, Reference.member, Reference.value, Js.join,
    Reference.quote.
  cbn [map fst snd String.concat Reference.escape].
  change (Reference.escape_char "t") with "t".
  change (Reference.escape_char "s") with "s".
  repeat (progress (rewrite ?app_assoc_s; cbn [String.append])).
  reflexivity.
Qed.

Lemma reference_parse_stringify t s :
  Reference.JSON_parse
    (Reference.JSON_stringify (JObj [("t", JStr t); ("s", JStr s)]))
  = Some (JObj [("t", JStr t); ("s", JStr s)]).
Proof.
  rewrite reference_stringify_signal. unfold Reference.JSON_parse.
  rewrite Ascii.eqb_refl.
  match goal with |- context [Reference.unmembers (String.length ?r) ?r] =>
    set (text := r) end.
  change (text =? "}")%string with false. cbv iota.
  assert (E : Reference.unmembers (String.length text) text
              = Some [("t", JStr t); ("s", JStr s)]).
  { subst text. cbn [String.length Reference.escape String.append].
    apply (reference_unmembers_cons _ "t" t); [|reflexivity].
    apply (reference_unmembers_last _ "s" s). }
  by rewrite E.
Qed.

(* ================================================================= *)
(** * The scenarios of the specification *)

Import Examples.

#[local] Existing Instance reference.

(** Membership in a list of literals is decided by comparing. *)
Ltac not_in_literals :=
  let Hin := fresh "Hin" in
  intros Hin;
  repeat (apply elem_of_cons in Hin as [Hin|Hin]; [discriminate Hin|]);
  by apply elem_of_nil in Hin.

(** The freshness conditions of a concrete run are decided by evaluation. *)
Ltac fresh_by_evaluation :=
  vm_compute;
  repeat match goal with
         | |- _ ∧ _ => split
         | |- True => exact I
         | |- _ → _ => intros ?
         | H : false = true |- _ => discriminate H
         | H : true = false |- _ => discriminate H
         | H : list_elem_of _ [] |- _ => by apply elem_of_nil in H
         | H : list_elem_of _ (_ :: _) |- _ =>
             apply elem_of_cons in H as [H|H]; [discriminate H|]
         | |- NoDup [] => apply NoDup_nil_2
         | |- NoDup (_ :: _) => apply NoDup_cons_2
         | |- Forall _ [] => apply Forall_nil_2
         | |- Forall _ (_ :: _) => apply Forall_cons_2
         | |- _ ∉ _ => not_in_literals
         | |- ¬ _ => not_in_literals
         end.

Lemma reachable_connected : reachable connected.
Proof. apply reachable_run; [constructor | fresh_by_evaluation]. Qed.

Lemma reachable_sending96k : reachable sending96k.
Proof. apply reachable_run; [apply reachable_connected | fresh_by_evaluation]. Qed.

Lemma reachable_receiving_A : reachable receiving_A.
Proof. apply reachable_run; [constructor | fresh_by_evaluation]. Qed.

Lemma reachable_received_A : reachable received_A.
Proof. apply reachable_run; [apply reachable_receiving_A | fresh_by_evaluation]. Qed.

Lemma reachable_completed_A : reachable completed_A.
Proof. apply reachable_run; [apply reachable_received_A | fresh_by_evaluation]. Qed.

(** ** The codec *)

(** C2 at an SDP body of three lines: the codec line is dropped, the padded
    line is trimmed. *)
Lemma decode_encode_signal_witness :
  sdp_lines ≠ []
  ∧ Forall (λ l, no_break (fst l) = true) sdp_lines
  ∧ retained_lines sdp_lines = ["v=0"; "a=mid:0"]
  ∧ ∃ out lines,
      decodeSignal (encodeSignal (signal "offer" (sdp_text sdp_lines)))
        = Ok (JObj (signal "offer" out))
      ∧ out = crlf_text lines
      ∧ Forall (λ l, no_break l = true) lines
      ∧ List.filter non_empty lines = retained_lines sdp_lines
      ∧ Js.endsWith out Js.CRLF = true
      ∧ out = Js.join Js.CRLF (retained_lines sdp_lines) +:+ Js.CRLF
      ∧ (retained_lines sdp_lines ≠ [] → lines = retained_lines sdp_lines).
Proof.
  assert (H1 : sdp_lines ≠ []) by discriminate.
  assert (H2 : Forall (λ l, no_break (fst l) = true) sdp_lines)
    by (repeat constructor).
  split; [exact H1|]. split; [exact H2|]. split; [reflexivity|].
  exact (decode_encode_signal (lib := reference)
           reference_inflate_deflate reference_parse_stringify "offer" sdp_lines H1 H2).
Defined.

(** When no line of the body is retained, the restored [sdp] is a single
    CRLF. *)
Example decode_encode_junk :
  decodeSignal (encodeSignal (signal "offer" (sdp_text junk_lines)))
  = Ok (JObj (signal "offer" Js.CRLF)).
Proof. vm_compute. reflexivity. Qed.

(** ** The connection controller *)

(** C10 at a blank input. *)
Lemma accept_is_noop_witness :
  (all_ws "   " = true ∨ connectionState initial = Connected)
  ∧ acceptOffer "   " initial = initial
  ∧ acceptAnswer "   " initial = initial.
Proof.
  assert (H : all_ws "   " = true ∨ connectionState initial = Connected)
    by (left; reflexivity).
  split; [exact H|]. exact (accept_is_noop (lib := reference) "   " initial H).
Defined.

(** C5 is refuted by scenario 6: on ["not base64!"] the error is the key
    [invalidOffer], and a peer has been constructed. *)
Lemma acceptOffer_not_base64 :
  let w' := acceptOffer "not base64!" initial in
  error w' = Some "invalidOffer"
  ∧ peers w' = [new_peer false]
  ∧ ¬ (connectionState w' = StateError
       ∧ error w' = Some "invalidOfferFormat"
       ∧ peers w' = peers initial).
Proof.
  vm_compute. split; [reflexivity|]. split; [reflexivity|].
  intros (_ & Herr & _). discriminate Herr.
Qed.

(** The amended C5 at an initiator that waits for the answer and is given
    ["not base64!"] as an offer: its peer is destroyed, and a new peer that
    is not the initiator takes its place in [peerRef]. *)
Lemma acceptOffer_rejected_witness :
  all_ws "not base64!" = false
  ∧ connectionState waiting ≠ Connected
  ∧ decodeSignal "not base64!" = Throw "Failed to decode signaling data"
  ∧ peerRef waiting = Some 0%nat
  ∧ peers waiting = [new_peer true]
  ∧ let w' := acceptOffer "not base64!" waiting in
    connectionState w' = StateError
    ∧ signalStatus w' = None
    ∧ localSignal w' = None
    ∧ (error w' = Some "invalidOffer" ∨ error w' = Some "invalidOfferFormat")
    ∧ peerRef w' = Some 1%nat
    ∧ peers w' !! 1%nat = Some (new_peer false)
    ∧ length (peers w') = 2%nat
    ∧ peers w' !! 0%nat = Some (with_destroyed (new_peer true)).
Proof.
  assert (H1 : all_ws "not base64!" = false) by reflexivity.
  assert (H2 : connectionState waiting ≠ Connected) by (vm_compute; discriminate).
  assert (H3 : decodeSignal "not base64!" = Throw "Failed to decode signaling data")
    by (vm_compute; reflexivity).
  assert (H4 : peerRef waiting = Some 0%nat) by (vm_compute; reflexivity).
  assert (H5 : peers waiting = [new_peer true]) by (vm_compute; reflexivity).
  assert (H6 : peers waiting !! 0%nat = Some (new_peer true)) by (by rewrite H5).
  split; [exact H1|]. split; [exact H2|]. split; [exact H3|].
  split; [exact H4|]. split; [exact H5|].
  destruct (acceptOffer_rejected (lib := reference) "not base64!" _ waiting H1 H2 H3)
    as (R1 & R2 & R3 & R4 & R5 & R6 & R7 & R8 & _).
  rewrite H5 in R5, R6, R7. cbn [length] in R5, R6, R7.
  repeat (split; [assumption|]).
  exact (R8 0%nat (new_peer true) H4 H6).
Defined.

(** C6 at an initiator that waits for the answer: the answer is fed to the
    peer, and the state is still [waitingForPeer]. *)
Lemma acceptAnswer_keeps_state_witness :
  all_ws answer = false
  ∧ connectionState waiting = WaitingForPeer
  ∧ peerRef waiting = Some 0%nat
  ∧ peers waiting !! 0%nat = Some (new_peer true)
  ∧ decodeSignal answer
    = Ok (JObj (signal "answer" (crlf_text ["v=0"; "a=mid:0"])))
  ∧ let w' := acceptAnswer answer waiting in
    peers w' !! 0%nat
      = Some (with_signal (JObj (signal "answer" (crlf_text ["v=0"; "a=mid:0"])))
                (new_peer true))
    ∧ error w' = None
    ∧ connectionState w' = WaitingForPeer.
Proof.
  assert (H1 : all_ws answer = false) by (vm_compute; reflexivity).
  assert (H2 : connectionState waiting = WaitingForPeer) by (vm_compute; reflexivity).
  assert (H3 : peerRef waiting = Some 0%nat) by (vm_compute; reflexivity).
  assert (H4 : peers waiting !! 0%nat = Some (new_peer true)) by (vm_compute; reflexivity).
  assert (H5 : destroyed (new_peer true) = false) by reflexivity.
  assert (H6 : decodeSignal answer
               = Ok (JObj (signal "answer" (crlf_text ["v=0"; "a=mid:0"]))))
    by (vm_compute; reflexivity).
  split; [exact H1|]. split; [exact H2|]. split; [exact H3|]. split; [exact H4|].
  split; [exact H6|].
  exact (acceptAnswer_keeps_state (lib := reference) answer _ 0%nat _ waiting
           H1 H2 H3 H4 H5 H6).
Defined.

(** C8 is refuted by the error of an unsupported environment: the error
    surfaced is the English sentence, not the key. *)
Lemma on_error_unsupported_message :
  let w' := on_error unsupported initial in
  error w' = Some "WebRTC not supported or blocked by browser."
  ∧ ¬ (error w' = Some "webrtcUnsupported" ∧ connectionState w' = StateError).
Proof.
  vm_compute. split; [reflexivity|]. intros [Herr _]. discriminate Herr.
Qed.

(** The amended C8 at the same input. *)
Lemma on_error_unsupported_witness :
  err_code unsupported = Some "ERR_WEBRTC_SUPPORT"
  ∧ let w' := on_error unsupported initial in
    connectionState w' = StateError
    ∧ signalStatus w' = None
    ∧ error w' = Some "WebRTC not supported or blocked by browser.".
Proof.
  assert (H : err_code unsupported = Some "ERR_WEBRTC_SUPPORT") by reflexivity.
  split; [exact H|]. exact (on_error_unsupported unsupported initial H).
Defined.

(** ** The receive path *)

(** C9 at two bytes that are no JSON text. *)
Lemma binary_without_assembly_dropped_witness :
  incomingRef initial = None
  ∧ is_json_message (Binary [Byte.x00; Byte.x01]) = false
  ∧ handleData (at_time 0) (Binary [Byte.x00; Byte.x01]) initial = initial.
Proof.
  assert (H1 : incomingRef initial = None) by reflexivity.
  assert (H2 : is_json_message (Binary [Byte.x00; Byte.x01]) = false) by reflexivity.
  split; [exact H1|]. split; [exact H2|].
  exact (binary_without_assembly_dropped (lib := reference) (at_time 0) _ initial H1 H2).
Defined.

(** C7 is refuted by a [file-meta] for [B] that arrives while [A] is being
    assembled: the record of [A] still has the status [transferring]. *)
Lemma interrupted_transfer_not_error :
  map (λ t, (ft_id t, ft_status t)) (transfers (sys_world interrupted_A))
    = [("A", Transferring); ("B", Transferring)]
  ∧ ¬ Forall (λ t, ft_id t = "A" → ft_status t = StatusError)
        (transfers (sys_world interrupted_A)).
Proof.
  split; [vm_compute; reflexivity|].
  intros HF. apply Forall_inv in HF. specialize (HF eq_refl). discriminate HF.
Qed.

(** The amended C7 at the same input. *)
Lemma file_meta_replaces_assembly_witness :
  let w := sys_world receiving_A in
  let w' := handleData (at_time 1) meta_B w in
  (∃ inc, incomingRef w = Some inc ∧ inc_id inc = "A")
  ∧ parse_payload meta_B = Some (file_meta "B" file1k 1)
  ∧ is_type "file-meta" (file_meta "B" file1k 1) = true
  ∧ map (λ t, (ft_id t, ft_status t)) (transfers w') =
      map (λ t, (ft_id t, ft_status t)) (transfers w) ++ [("B", Transferring)]
  ∧ option_map inc_id (incomingRef w') = Some "B"
  ∧ option_map inc_chunks (incomingRef w') = Some [].
Proof.
  intros w w'.
  destruct (incomingRef w) as [inc|] eqn:Hinc; [|by vm_compute in Hinc].
  assert (Hid : inc_id inc = "A").
  { assert (E : option_map inc_id (incomingRef w) = Some "A") by (vm_compute; reflexivity).
    rewrite Hinc in E. by injection E. }
  assert (H2 : parse_payload meta_B = Some (file_meta "B" file1k 1))
    by (vm_compute; reflexivity).
  assert (H3 : is_type "file-meta" (file_meta "B" file1k 1) = true) by reflexivity.
  destruct (file_meta_replaces_assembly (lib := reference) (at_time 1) meta_B _ inc w
              Hinc H2 H3) as (Ht & Hi & _).
  split; [by exists inc|]. split; [exact H2|]. split; [exact H3|].
  subst w'. rewrite Ht, Hi. rewrite map_app. by repeat split.
Defined.

(** ** The send loop *)

(** C1 at scenario 2: the file of 98,304 bytes goes out as one [file-meta]
    with [totalChunks = 2], a chunk of 65,536 bytes, a chunk of 32,768
    bytes and one [file-complete]; four resumptions end the run. *)
Lemma send_file_wire_witness :
  let w := sys_world connected in
  let schedule := [at_time 3; at_time 4; at_time 5; at_time 6] in
  let meta :=
    JObj [("type", JStr "file-meta"); ("id", JStr "id0"); ("name", JStr "b.bin");
          ("size", JNum 98304); ("totalChunks", JNum 2)] in
  let complete := JObj [("type", JStr "file-complete")] in
  peerRef w = Some 0%nat
  ∧ peer_live 0 [] w
  ∧ sendQueueRef w = []
  ∧ isSendingRef w = false
  ∧ (uid (at_time 2) 0%nat ∉ cancelledRef w)
  ∧ totalChunks_of file96k = 2
  ∧ map chunk_length (file_chunks file96k) = [65536; 32768]
  ∧ ∃ w1, sendFiles (at_time 2) [file96k] w = (w1, Some AwaitWakeLock)
     ∧ snd (run_loop schedule (Some AwaitWakeLock) w1) = None
     ∧ sent_by 0 (fst (run_loop schedule (Some AwaitWakeLock) w1)) =
         [Text (Reference.JSON_stringify meta)]
         ++ map Binary (file_chunks file96k)
         ++ [Text (Reference.JSON_stringify complete)]
     ∧ map read_payload (sent_by 0 (fst (run_loop schedule (Some AwaitWakeLock) w1))) =
         [Some meta; None; None; Some complete].
Proof.
  intros w schedule meta complete.
  assert (H1 : peerRef w = Some 0%nat) by (vm_compute; reflexivity).
  assert (H2 : peer_live 0 [] w).
  { exists (with_open (new_peer true)). repeat split; vm_compute; reflexivity. }
  assert (H3 : sendQueueRef w = []) by (vm_compute; reflexivity).
  assert (H4 : isSendingRef w = false) by (vm_compute; reflexivity).
  assert (H5 : uid (at_time 2) 0%nat ∉ cancelledRef w).
  { apply (bool_decide_unpack _). vm_compute. exact I. }
  assert (H6 : totalChunks_of file96k = 2) by (vm_compute; reflexivity).
  assert (H7 : map chunk_length (file_chunks file96k) = [65536; 32768])
    by (vm_compute; reflexivity).
  destruct (send_file_wire (lib := reference) (at_time 2) file96k 0 [] w H1 H2 H3 H4 H5)
    as (_ & _ & _ & _ & _ & w1 & Hsend & Hrun).
  repeat (split; [assumption|]).
  exists w1. split; [exact Hsend|].
  destruct (Hrun schedule) as [Hwire Hend].
  assert (Hnone : snd (run_loop schedule (Some AwaitWakeLock) w1) = None).
  { apply Hend.
    - repeat constructor; vm_compute; discriminate.
    - rewrite H6. vm_compute. repeat constructor. }
  split; [exact Hnone|].
  rewrite (Hwire Hnone), H6.
  split; [reflexivity|]. vm_compute. reflexivity.
Defined.

(** C4 is refuted by scenario 4: after the cancellation of the transfer in
    flight there are two [file-cancel] messages on the wire, the one of
    [cancelTransfer] with the id and the one of the loop without, and a
    chunk goes out between them. *)
Lemma cancel_in_flight_two_messages :
  let wire := sent_by 0 (sys_world cancelled96k) in
  map read_payload wire =
    [Some (JObj [("type", JStr "file-meta"); ("id", JStr "id0"); ("name", JStr "b.bin");
                 ("size", JNum 98304); ("totalChunks", JNum 2)]);
     Some (JObj [("type", JStr "file-cancel"); ("id", JStr "id0")]);
     None;
     Some (JObj [("type", JStr "file-cancel")])]
  ∧ map kind_of wire =
      [Message (Reference.JSON_stringify
                  (JObj [("type", JStr "file-meta"); ("id", JStr "id0");
                         ("name", JStr "b.bin"); ("size", JNum 98304);
                         ("totalChunks", JNum 2)]));
       Message (Reference.JSON_stringify
                  (JObj [("type", JStr "file-cancel"); ("id", JStr "id0")]));
       Chunk 65536;
       Message (Reference.JSON_stringify (JObj [("type", JStr "file-cancel")]))]
  ∧ length (List.filter is_file_cancel wire) = 2%nat
  ∧ ¬ (length (List.filter is_file_cancel wire) = 1%nat).
Proof.
  vm_compute. split; [reflexivity|]. split; [reflexivity|]. split; [reflexivity|].
  discriminate.
Qed.

(** The amended C4 at the same scenario. *)
Lemma cancel_in_flight_witness :
  let w := sys_world sending96k in
  let meta :=
    Text (Reference.JSON_stringify
            (JObj [("type", JStr "file-meta"); ("id", JStr "id0"); ("name", JStr "b.bin");
                   ("size", JNum 98304); ("totalChunks", JNum 2)])) in
  let cancel_with_id :=
    Text (Reference.JSON_stringify (JObj [("type", JStr "file-cancel"); ("id", JStr "id0")])) in
  let cancel_without_id :=
    Text (Reference.JSON_stringify (JObj [("type", JStr "file-cancel")])) in
  ∃ l, sys_loops sending96k = [AwaitRead l]
    ∧ peerRef w = Some 0%nat
    ∧ peer_live 0 [meta] w
    ∧ l_id l = "id0" ∧ l_peer l = 0%nat ∧ l_i l = 0 ∧ l_totalChunks l = 2
    ∧ map (λ t, (ft_id t, ft_status t)) (transfers w) = [("id0", Transferring)]
    ∧ no_back_pressure (at_time 100)
    ∧ chunk_length (chunk_of l) = 65536
    ∧ let w1 := cancelTransfer "id0" w in
      let r := resume (at_time 100) (AwaitRead l) w1 in
      sent_by 0 w1 = [meta; cancel_with_id]
      ∧ snd r = Some AwaitPause
      ∧ sent_by 0 (fst r) =
          [meta] ++ [cancel_with_id; Binary (chunk_of l)] ++ [cancel_without_id]
      ∧ Forall (λ t, ft_id t = "id0" → ft_status t = Cancelled) (transfers (fst r))
      ∧ map ft_id (transfers (fst r)) = ["id0"].
Proof.
  intros w meta cancel_with_id cancel_without_id.
  assert (Hl : option_map (λ l, (l_id l, l_peer l, l_i l, l_totalChunks l,
                                 chunk_length (chunk_of l)))
                 (match sys_loops sending96k with
                  | [AwaitRead l'] => Some l'
                  | _ => None
                  end) = Some ("id0", 0%nat, 0, 2, 65536)) by (vm_compute; reflexivity).
  destruct (sys_loops sending96k) as [|[|l| |] [|]]; try discriminate Hl.
  exists l. split; [reflexivity|].
  cbn in Hl. injection Hl as Hid Hpeer Hi Htotal Hlen.
  assert (H1 : peerRef w = Some 0%nat) by (vm_compute; reflexivity).
  assert (H2 : peer_live 0 [meta] w).
  { eexists. repeat split; vm_compute; reflexivity. }
  assert (H4 : map (λ t, (ft_id t, ft_status t)) (transfers w) = [("id0", Transferring)])
    by (vm_compute; reflexivity).
  assert (H5 : ∃ t, In t (transfers w) ∧ ft_id t = "id0").
  { destruct (transfers w) as [|t T]; [discriminate H4|].
    exists t. split; [by left|]. by injection H4. }
  assert (H6 : Forall (λ t, ft_id t = "id0" → ft_status t = Transferring) (transfers w)).
  { destruct (transfers w) as [|t [|t' T]]; try discriminate H4.
    injection H4 as _ Hst. by repeat constructor. }
  assert (H7 : no_back_pressure (at_time 100)) by (vm_compute; discriminate).
  destruct (cancel_in_flight (lib := reference) (at_time 100) "id0" l 0
              [meta] (AwaitRead l) w
              H1 H2 Hid Hpeer (or_introl eq_refl) H5 H6)
    as (Hw1 & _ & _ & _ & Hres).
  destruct (Hres H7) as (Hpc & Hwire & Hst & Hids & _).
  rewrite Hi, Htotal in Hwire. change (0 + 1 <? 2) with true in Hwire.
  repeat (split; [assumption|]). rewrite Hids.
  transitivity (map fst (map (λ t, (ft_id t, ft_status t)) (transfers w))).
  - rewrite map_map. reflexivity.
  - by rewrite H4.
Defined.

(** ** Progress and completion *)

(** C3 is refuted by scenario 1 on the receive side: after the only chunk
    of the file and before its [file-complete], the record shows 100
    percent and the status [transferring]. *)
Lemma full_progress_not_completed :
  reachable received_A
  ∧ map (λ t, (ft_id t, ft_progress t, ft_status t)) (transfers (sys_world received_A))
    = [("A", Num 100, Transferring)]
  ∧ ¬ Forall (λ t, ft_progress t = Num 100 ↔ ft_status t = Completed)
        (transfers (sys_world received_A)).
Proof.
  split; [apply reachable_received_A|]. split; [vm_compute; reflexivity|].
  intros HF. apply Forall_inv in HF. destruct HF as [HF _].
  specialize (HF eq_refl). discriminate HF.
Qed.

(** The amended C3 at the end of scenario 1: the record of the received
    file is completed and shows 100 percent. *)
Lemma completed_has_full_progress_witness :
  reachable completed_A
  ∧ ∃ t, t ∈ transfers (sys_world completed_A)
       ∧ ft_id t = "A"
       ∧ ft_status t = Completed
       ∧ ft_progress t = Num 100.
Proof.
  split; [apply reachable_completed_A|].
  destruct (transfers (sys_world completed_A)) as [|t T] eqn:HT;
    [by vm_compute in HT|].
  assert (E : map (λ t, (ft_id t, ft_status t)) (transfers (sys_world completed_A))
              = [("A", Completed)]) by (vm_compute; reflexivity).
  rewrite HT in E. injection E as Hid Hst _.
  assert (Hin : t ∈ transfers (sys_world completed_A)).
  { rewrite HT. by apply elem_of_cons; left. }
  exists t. split; [by apply elem_of_cons; left|].
  split; [exact Hid|]. split; [exact Hst|].
  exact (completed_has_full_progress (lib := reference) completed_A t
           reachable_completed_A Hin Hst).
Defined.

(* ================================================================= *)
(** * The further properties at concrete inputs *)

Import Cases.

(** X4 at a text of two lines without a final line end. *)
Lemma restoreSDP_lines_witness :
  Js.is_empty two_lines = false
  ∧ Js.split_newlines (restoreSDP two_lines) = ["v=0"; "a=mid:0"; ""].
Proof.
  assert (H : Js.is_empty two_lines = false) by reflexivity.
  split; [exact H|]. exact (restoreSDP_lines two_lines H).
Defined.

(** X5 at an offer with a third field: the field comes back, and the
    [sdp] is minified. *)
Lemma decode_encode_object_witness :
  plain_keys offer_object
  ∧ obj_get "sdp" (map_sdp minifySDP offer_object)
    = Some (JStr (crlf_text ["v=0"; "a=mid:0"]))
  ∧ decodeSignal (encodeSignal offer_object)
    = Ok (JObj (map_sdp minifySDP offer_object)).
Proof.
  assert (H1 : plain_keys offer_object).
  { split; [|split]; apply (bool_decide_unpack _); vm_compute; exact I. }
  assert (H2 : JSON_parse (JSON_stringify
                 (JObj (rename_keys (map_key KEY_MAP) (map_sdp minifySDP offer_object))))
               = Some (JObj (rename_keys (map_key KEY_MAP)
                               (map_sdp minifySDP offer_object))))
    by (vm_compute; reflexivity).
  split; [exact H1|]. split; [vm_compute; reflexivity|].
  exact (decode_encode_object (lib := reference) offer_object
           reference_inflate_deflate H1 H2).
Defined.

(** A key that names a property of [Object.prototype] does not come back:
    the key map finds the inherited function, and the field is stored under
    the text of that function. *)
Example encodeSignal_inherited_key :
  decodeSignal (lib := reference)
    (encodeSignal (lib := reference) [("type", JStr "offer"); ("constructor", JNum 1)])
  = Ok (JObj [("type", JStr "offer"); ("function Object() { [native code] }", JNum 1)]).
Proof. vm_compute. reflexivity. Qed.

(** X6 with libraries whose [inflate] rejects what is no deflate stream. *)
Lemma decode_legacy_witness :
  let j := JObj (signal "offer" "v=0") in
  pako_inflate (Libraries := framed)
    (list_byte_of_string (JSON_stringify (Libraries := framed) j)) = None
  ∧ decodeSignal (lib := framed) (Base64.btoa (JSON_stringify (Libraries := framed) j))
    = Ok j.
Proof.
  intros j.
  assert (H1 : pako_inflate (Libraries := framed)
                 (list_byte_of_string (JSON_stringify (Libraries := framed) j)) = None)
    by (vm_compute; reflexivity).
  assert (H2 : JSON_parse (Libraries := framed) (JSON_stringify (Libraries := framed) j)
               = Some j) by (vm_compute; reflexivity).
  split; [exact H1|]. exact (decode_legacy (lib := framed) j H1 H2).
Defined.

(** X7 at the offer of the other side, accepted in the initial state. *)
Lemma acceptOffer_accepted_witness :
  all_ws offer = false
  ∧ connectionState initial ≠ Connected
  ∧ decodeSignal offer = Ok (JObj (signal "offer" (crlf_text ["v=0"; "a=mid:0"])))
  ∧ let w' := acceptOffer offer initial in
    connectionState w' = Connecting
    ∧ signalStatus w' = Some Gathering
    ∧ peerRef w' = Some 0%nat
    ∧ peers w' =
        [with_signal (JObj (signal "offer" (crlf_text ["v=0"; "a=mid:0"])))
           (new_peer false)].
Proof.
  assert (H1 : all_ws offer = false) by (vm_compute; reflexivity).
  assert (H2 : connectionState initial ≠ Connected) by discriminate.
  assert (H3 : decodeSignal offer
               = Ok (JObj (signal "offer" (crlf_text ["v=0"; "a=mid:0"]))))
    by (vm_compute; reflexivity).
  split; [exact H1|]. split; [exact H2|]. split; [exact H3|].
  destruct (acceptOffer_accepted (lib := reference) offer _ initial H1 H2 H3)
    as (R1 & R2 & _ & _ & R5 & R6 & _).
  repeat split; assumption.
Defined.

(** X8 at an input that does not decode. *)
Lemma acceptAnswer_rejected_witness :
  all_ws "not base64!" = false
  ∧ connectionState initial ≠ Connected
  ∧ decodeSignal "not base64!" = Throw "Failed to decode signaling data"
  ∧ acceptAnswer "not base64!" initial =
      set_connectionState StateError (set_error (Some "invalidAnswer") initial).
Proof.
  assert (H1 : all_ws "not base64!" = false) by reflexivity.
  assert (H2 : connectionState initial ≠ Connected) by discriminate.
  assert (H3 : decodeSignal "not base64!" = Throw "Failed to decode signaling data")
    by (vm_compute; reflexivity).
  split; [exact H1|]. split; [exact H2|]. split; [exact H3|].
  exact (acceptAnswer_rejected (lib := reference) "not base64!" initial H1 H2
           (or_introl (ex_intro _ _ H3))).
Defined.

(** X10 in the initial state: the file stays [queued] and leaves the
    queue. *)
Lemma sendFiles_without_peer_witness :
  no_usable_peer initial
  ∧ isSendingRef initial = false
  ∧ ∃ w1,
      sendFiles (at_time 0) [file3] initial = (w1, Some AwaitWakeLock)
      ∧ sendQueueRef w1 = [("id0", file3)]
      ∧ ∃ w2, resume (at_time 1) AwaitWakeLock w1 = (w2, None)
          ∧ sendQueueRef w2 = []
          ∧ map (λ t, (ft_id t, ft_status t)) (transfers w2) = [("id0", Queued)]
          ∧ isSendingRef w2 = false.
Proof.
  assert (H1 : no_usable_peer initial) by exact I.
  assert (H2 : isSendingRef initial = false) by reflexivity.
  assert (H3 : [file3] ≠ []) by discriminate.
  split; [exact H1|]. split; [exact H2|].
  destruct (sendFiles_without_peer (lib := reference) (at_time 0) (at_time 1)
              [file3] initial H1 H2 H3) as (w1 & E1 & E2).
  exists w1. split; [exact E1|]. split.
  { injection E1 as <-. reflexivity. }
  eexists. split; [exact E2|]. repeat split.
Defined.

(** X11 at a queued transfer and at an unknown id. *)
Lemma cancelTransfer_silent_witness :
  map (λ t, (ft_id t, ft_status t)) (transfers queued3) = [("id0", Queued)]
  ∧ peers (cancelTransfer "id0" queued3) = peers queued3
  ∧ cancelTransfer "nobody" queued3 = queued3.
Proof.
  assert (H : ∀ id t, find (has_id id) (transfers queued3) = Some t →
              ft_status t ≠ Transferring).
  { intros id t Hf. apply find_some in Hf as [Hin _].
    destruct Hin as [<-|[]]. discriminate. }
  split; [reflexivity|].
  destruct (cancelTransfer_silent "id0" queued3 (H "id0")) as (R1 & _).
  destruct (cancelTransfer_silent "nobody" queued3 (H "nobody")) as (_ & _ & _ & R4).
  split; [exact R1|]. apply R4. reflexivity.
Defined.

(** X12 at the queued transfer. *)
Lemma cancel_queued_witness :
  sendQueueRef queued3 = [("id0", file3)]
  ∧ map (λ t, (ft_id t, ft_status t)) (transfers queued3) = [("id0", Queued)]
  ∧ let w' := cancelTransfer "id0" queued3 in
    sendQueueRef w' = []
    ∧ map (λ t, (ft_id t, ft_status t)) (transfers w') = [("id0", Cancelled)]
    ∧ peers w' = peers queued3.
Proof.
  assert (H1 : ∃ t, In t (transfers queued3) ∧ ft_id t = "id0").
  { eexists. split; [left; reflexivity|reflexivity]. }
  assert (H2 : Forall (λ t, ft_id t = "id0" → ft_status t = Queued) (transfers queued3)).
  { repeat constructor. }
  split; [reflexivity|]. split; [reflexivity|].
  destruct (cancel_queued "id0" queued3 H1 H2) as (R1 & _ & _ & _ & R5 & _).
  split; [exact R1|]. split; [reflexivity|exact R5].
Defined.

(** X13 at a blank text. *)
Lemma sendMessage_noop_witness :
  all_ws "  " = true
  ∧ sendMessage (at_time 0) "  " (sys_world connected) = sys_world connected.
Proof.
  assert (H : all_ws "  " = true) by reflexivity.
  split; [exact H|].
  exact (sendMessage_noop (lib := reference) (at_time 0) "  " (sys_world connected)
           (or_introl H)).
Defined.

(** X14 at the text [hi] with blanks around it. *)
Lemma chat_round_trip_witness :
  let w := sys_world connected in
  let d := control (chat "hi" 5) in
  all_ws " hi " = false
  ∧ peerRef w = Some 0%nat
  ∧ peer_live 0 [] w
  ∧ sent_by 0 (sendMessage (at_time 5) " hi " w) = [d]
  ∧ messages (sendMessage (at_time 5) " hi " w)
    = [chat_message (at_time 5) "hi" Me 5]
  ∧ messages (handleData (at_time 9) d initial)
    = [chat_message (at_time 9) "hi" Them 5].
Proof.
  intros w d.
  assert (H1 : all_ws " hi " = false) by reflexivity.
  assert (H2 : peerRef w = Some 0%nat) by (vm_compute; reflexivity).
  assert (H3 : peer_live 0 [] w).
  { exists (with_open (new_peer true)). repeat split; vm_compute; reflexivity. }
  assert (H4 : JSON_parse (JSON_stringify (chat (Js.trim " hi ") (now (at_time 5))))
               = Some (chat (Js.trim " hi ") (now (at_time 5))))
    by (vm_compute; reflexivity).
  destruct (chat_round_trip (lib := reference) (at_time 5) " hi " 0 [] w H1 H2 H3 H4)
    as (R1 & R2 & _ & R4).
  split; [exact H1|]. split; [exact H2|]. split; [exact H3|].
  split; [exact R1|]. split; [exact R2|].
  exact (f_equal messages (R4 (at_time 9) initial)).
Defined.

(** X15 at the file of three bytes. *)
Lemma receive_file_witness :
  let wire := [(at_time 0, control (file_meta "A3" file3 1));
               (at_time 1, Binary (f_content file3));
               (at_time 2, control file_complete)] in
  Js.is_empty "A3" = false
  ∧ ("A3" ∉ map ft_id (transfers initial))
  ∧ file_chunks file3 = [f_content file3]
  ∧ is_json_message (Binary (f_content file3)) = false
  ∧ downloads (receive wire initial) = [("c.bin", [f_content file3])]
  ∧ incomingRef (receive wire initial) = None
  ∧ map (λ t, (ft_id t, ft_status t, ft_progress t)) (transfers (receive wire initial))
    = [("A3", Completed, Num 100)].
Proof.
  intros wire.
  assert (H1 : Js.is_empty "A3" = false) by reflexivity.
  assert (H2 : "A3" ∉ map ft_id (transfers initial)) by apply not_elem_of_nil.
  assert (H3 : JSON_parse (JSON_stringify (file_meta "A3" file3 (totalChunks_of file3)))
               = Some (file_meta "A3" file3 (totalChunks_of file3)))
    by (vm_compute; reflexivity).
  assert (H4 : JSON_parse (JSON_stringify file_complete) = Some file_complete)
    by (vm_compute; reflexivity).
  assert (H5 : Forall (λ c, is_json_message (Binary c) = false) (file_chunks file3)).
  { repeat constructor. }
  assert (H6 : length [at_time 1] = length (file_chunks file3)) by reflexivity.
  destruct (receive_file (lib := reference) (at_time 0) (at_time 2) [at_time 1]
              "A3" file3 initial H1 H2 H3 H4 H5 H6)
    as (R1 & _ & R3 & _ & t & R5 & R6 & _ & _ & _ & R7 & R8 & _).
  split; [exact H1|]. split; [exact H2|]. split; [reflexivity|].
  split; [reflexivity|]. split; [exact R1|]. split; [exact R3|].
  change (transfers (receive wire initial) = transfers initial ++ [t]) in R5.
  rewrite R5. cbn. by rewrite R6, R7, R8.
Defined.

(** X16 at a chunk that holds the bytes of a chat message: it is shown as a
    chat message and is missing in the file. *)
Lemma json_chunk_not_appended_witness :
  let w := sys_world receiving_A in
  option_map inc_id (incomingRef w) = Some "A"
  ∧ is_json_message (Binary chat_bytes) = true
  ∧ option_map inc_chunks (incomingRef (handleData (at_time 1) (Binary chat_bytes) w))
    = Some []
  ∧ map cm_text (messages (handleData (at_time 1) (Binary chat_bytes) w)) = ["hi"].
Proof.
  intros w.
  assert (H1 : option_map inc_id (incomingRef w) = Some "A") by (vm_compute; reflexivity).
  assert (H2 : is_json_message (Binary chat_bytes) = true) by (vm_compute; reflexivity).
  assert (H0 : option_map inc_chunks (incomingRef w) = Some [])
    by (vm_compute; reflexivity).
  split; [exact H1|]. split; [exact H2|].
  destruct (incomingRef w) as [inc|] eqn:Hinc; [|discriminate H1].
  pose proof (json_chunk_not_appended (lib := reference) (at_time 1) chat_bytes inc w
                Hinc H2) as R.
  split; [|vm_compute; reflexivity].
  destruct (incomingRef (handleData (at_time 1) (Binary chat_bytes) w)) as [inc'|] eqn:E.
  - cbn in H0 |- *. injection H0 as H0.
    destruct R as [[R _]|[R _]]; rewrite R; [by rewrite H0|done].
  - by vm_compute in E.
Defined.

(** X17 at a string that is no JSON text, while a file is being
    assembled. *)
Lemma unknown_payload_ignored_witness :
  known_message (Text "hello") = false
  ∧ handleData (at_time 1) (Text "hello") (sys_world receiving_A)
    = sys_world receiving_A.
Proof.
  assert (H : known_message (Text "hello") = false) by (vm_compute; reflexivity).
  split; [exact H|].
  exact (unknown_payload_ignored (lib := reference) (at_time 1) (Text "hello")
           (sys_world receiving_A) H (or_intror (ex_intro _ "hello" eq_refl))).
Defined.

(** X18 at the end of scenario 1, with a cancellation by the receiver
    before the [file-complete]. *)
Lemma receiver_cancel_still_completes_witness :
  let w := sys_world received_A in
  let w1 := cancelTransfer "A" w in
  let w2 := handleData (at_time 3) complete w1 in
  option_map inc_id (incomingRef w) = Some "A"
  ∧ parse_payload complete = Some file_complete
  ∧ map (λ t, (ft_id t, ft_status t)) (transfers w1) = [("A", Cancelled)]
  ∧ map fst (downloads w2) = ["a.bin"]
  ∧ map ft_id (transfers w2) = ["A"]
  ∧ Forall (λ t, ft_id t = "A" → ft_status t = Completed ∧ ft_progress t = Num 100)
      (transfers w2).
Proof.
  intros w w1 w2.
  assert (H1 : option_map inc_id (incomingRef w) = Some "A") by (vm_compute; reflexivity).
  assert (H2 : parse_payload complete = Some file_complete) by (vm_compute; reflexivity).
  assert (H3 : is_type "file-complete" file_complete = true) by reflexivity.
  assert (H4 : map (λ t, (ft_id t, ft_status t)) (transfers w1) = [("A", Cancelled)])
    by (vm_compute; reflexivity).
  assert (H5 : option_map inc_name (incomingRef w) = Some "a.bin")
    by (vm_compute; reflexivity).
  assert (H6 : map fst (downloads w) = []) by (vm_compute; reflexivity).
  assert (H7 : map ft_id (transfers w) = ["A"]) by (vm_compute; reflexivity).
  split; [exact H1|]. split; [exact H2|]. split; [exact H4|].
  destruct (incomingRef w) as [inc|] eqn:Hinc; [|discriminate H1].
  cbn in H1, H5. injection H1 as H1. injection H5 as H5.
  destruct (receiver_cancel_still_completes (lib := reference) (at_time 3) complete
              file_complete inc w Hinc H2 H3) as (_ & _ & R3 & R4 & R5).
  rewrite H1 in R3, R4, R5. fold w1 in R3, R4, R5. fold w2 in R3, R4, R5.
  split; [by rewrite R3, map_app, H6, H5|].
  split; [by rewrite R4|exact R5].
Defined.

(** X19 while [A] is being assembled. *)
Lemma sender_cancel_received_witness :
  let w := sys_world receiving_A in
  let w1 := handleData (at_time 1) (control file_cancel) w in
  option_map inc_id (incomingRef w) = Some "A"
  ∧ incomingRef w1 = None
  ∧ map (λ t, (ft_id t, ft_status t)) (transfers w1) = [("A", Cancelled)]
  ∧ handleData (at_time 2) (Binary (f_content file1k)) w1 = w1
  ∧ handleData (at_time 3) (control file_complete) w1 = w1
  ∧ downloads w1 = [].
Proof.
  intros w w1.
  assert (H1 : option_map inc_id (incomingRef w) = Some "A") by (vm_compute; reflexivity).
  assert (H2 : JSON_parse (JSON_stringify file_cancel) = Some file_cancel)
    by (vm_compute; reflexivity).
  assert (H3 : JSON_parse (JSON_stringify file_complete) = Some file_complete)
    by (vm_compute; reflexivity).
  assert (H4 : is_json_message (Binary (f_content file1k)) = false)
    by (vm_compute; reflexivity).
  split; [exact H1|].
  destruct (incomingRef w) as [inc|] eqn:Hinc; [|discriminate H1].
  cbn in H1. injection H1 as H1.
  assert (H5 : Js.is_empty (inc_id inc) = false) by (by rewrite H1).
  destruct (sender_cancel_received (lib := reference) (at_time 1) inc w Hinc H5 H2 H3)
    as (R1 & R2 & R3).
  fold w1 in R1, R2, R3.
  split; [by rewrite R1|]. split; [vm_compute; reflexivity|].
  split; [exact (R2 (at_time 2) _ H4)|]. split; [exact (R3 (at_time 3))|].
  vm_compute. reflexivity.
Defined.

(** X20 at the file of three bytes, cancelled by the receiver before its
    only chunk is sent. *)
Lemma remote_cancel_stops_loop_witness :
  let w := sys_world sending3 in
  ∃ l, sys_loops sending3 = [AwaitRead l]
    ∧ peer_live 0 [control (file_meta "id0" file3 1)] w
    ∧ l_id l = "id0" ∧ l_peer l = 0%nat
    ∧ no_back_pressure (at_time 5)
    ∧ let w1 := handleData (at_time 4) (control (file_cancel_id "id0")) w in
      let r := resume (at_time 5) (AwaitRead l) w1 in
      sent_by 0 w1 = [control (file_meta "id0" file3 1)]
      ∧ snd r = Some AwaitPause
      ∧ sent_by 0 (fst r) =
          [control (file_meta "id0" file3 1); Binary (f_content file3)]
      ∧ Forall (λ t, ft_id t = "id0" → ft_status t = Cancelled) (transfers (fst r)).
Proof.
  intros w.
  assert (Hl : option_map (λ l, (l_id l, l_peer l, l_i l, l_totalChunks l, chunk_of l))
                 (match sys_loops sending3 with
                  | [AwaitRead l'] => Some l'
                  | _ => None
                  end) = Some ("id0", 0%nat, 0, 1, f_content file3))
    by (vm_compute; reflexivity).
  destruct (sys_loops sending3) as [|[|l| |] [|]]; try discriminate Hl.
  exists l. split; [reflexivity|].
  cbn in Hl. injection Hl as Hid Hpeer Hi Htotal Hchunk.
  assert (H2 : peer_live 0 [control (file_meta "id0" file3 1)] w).
  { eexists. repeat split; vm_compute; reflexivity. }
  assert (H3 : Js.is_empty "id0" = false) by reflexivity.
  assert (H4 : JSON_parse (JSON_stringify (file_cancel_id "id0"))
               = Some (file_cancel_id "id0")) by (vm_compute; reflexivity).
  assert (H5 : no_back_pressure (at_time 5)) by (vm_compute; discriminate).
  destruct (remote_cancel_stops_loop (lib := reference) (at_time 4) (at_time 5) "id0" l 0
              [control (file_meta "id0" file3 1)] (AwaitRead l) w
              H2 Hid Hpeer (or_introl eq_refl) H3 H4 H5)
    as (R1 & _ & R3 & R4 & R5 & _).
  rewrite Hi, Htotal, Hchunk in R4. change (0 + 1 <? 1) with false in R4.
  repeat (split; [assumption|]). exact R5.
Defined.

(** X21 at 23 of 40 bytes: the quotient 0.575 is a double just below it,
    its product with 100 is just below 57.5, and the progress is 57. *)
Lemma percent_range_witness :
  percent 23 40 = Num 57
  ∧ (∃ p, percent 23 40 = Num p ∧ 0 <= p <= 100)
  ∧ percent 0 40 = Num 0
  ∧ percent 40 40 = Num 100.
Proof.
  split; [vm_compute; reflexivity|].
  exact (percent_range 23 40 ltac:(lia) ltac:(lia)).
Defined.


(** X23 at the file of three bytes, with the peer closed before the chunk
    is sent. *)
Lemma peer_lost_during_transfer_witness :
  let w := sys_world closed3 in
  ∃ l, sys_loops closed3 = [AwaitRead l]
    ∧ peer_destroyed (l_peer l) w = true
    ∧ no_usable_peer w
    ∧ snd (run_loop [at_time 5; at_time 6] (Some (AwaitRead l)) w) = None
    ∧ sent_by 0 (fst (run_loop [at_time 5; at_time 6] (Some (AwaitRead l)) w))
      = [control (file_meta "id0" file3 1)]
    ∧ map (λ t, (ft_id t, ft_status t))
        (transfers (fst (run_loop [at_time 5; at_time 6] (Some (AwaitRead l)) w)))
      = [("id0", StatusError)].
Proof.
  intros w.
  assert (Hl : option_map (λ l, (l_id l, l_peer l))
                 (match sys_loops closed3 with
                  | [AwaitRead l'] => Some l'
                  | _ => None
                  end) = Some ("id0", 0%nat))
    by (vm_compute; reflexivity).
  destruct (sys_loops closed3) as [|[|l| |] [|]]; try discriminate Hl.
  exists l. split; [reflexivity|].
  cbn in Hl. injection Hl as Hid Hpeer.
  assert (H1 : peer_destroyed (l_peer l) w = true)
    by (rewrite Hpeer; vm_compute; reflexivity).
  assert (H2 : no_usable_peer w) by (vm_compute; reflexivity).
  split; [exact H1|]. split; [exact H2|].
  rewrite (peer_lost_during_transfer (lib := reference) (at_time 5) (at_time 6) l w H1 H2).
  rewrite Hid. split; [reflexivity|]. split; vm_compute; reflexivity.
Defined.

(** X24 at the file of three bytes, with [disconnect] before the chunk is
    sent. *)
Lemma disconnect_stops_sending_witness :
  let w := sys_world sending3 in
  ∃ l, sys_loops sending3 = [AwaitRead l]
    ∧ peerRef w = Some (l_peer l)
    ∧ let w' := fst (run_loop [at_time 5; at_time 6] (Some (AwaitRead l)) (disconnect w)) in
      peers w' = peers (disconnect w) ∧ transfers w' = [] ∧ sendQueueRef w' = [].
Proof.
  intros w.
  assert (Hl : option_map l_peer
                 (match sys_loops sending3 with
                  | [AwaitRead l'] => Some l'
                  | _ => None
                  end) = Some 0%nat)
    by (vm_compute; reflexivity).
  destruct (sys_loops sending3) as [|[|l| |] [|]]; try discriminate Hl.
  exists l. split; [reflexivity|].
  cbn in Hl. injection Hl as Hpeer.
  assert (H1 : peerRef w = Some (l_peer l)) by (rewrite Hpeer; vm_compute; reflexivity).
  split; [exact H1|].
  exact (disconnect_stops_sending (lib := reference) [at_time 5; at_time 6]
           (AwaitRead l) w (or_introl H1)).
Defined.

(** X25 at two files: six payloads, file after file; five resumptions end
    the run. *)
Lemma send_files_wire_witness :
  let w := sys_world connected in
  let schedule := [at_time 3; at_time 4; at_time 5; at_time 6; at_time 7] in
  peerRef w = Some 0%nat
  ∧ peer_live 0 [] w
  ∧ sendQueueRef w = []
  ∧ isSendingRef w = false
  ∧ new_entries (at_time 2) [file3; file2] = [("id0", file3); ("id1", file2)]
  ∧ ∃ w1, sendFiles (at_time 2) [file3; file2] w = (w1, Some AwaitWakeLock)
     ∧ snd (run_loop schedule (Some AwaitWakeLock) w1) = None
     ∧ sent_by 0 (fst (run_loop schedule (Some AwaitWakeLock) w1)) =
         [control (file_meta "id0" file3 1); Binary (f_content file3);
          control file_complete;
          control (file_meta "id1" file2 1); Binary (f_content file2);
          control file_complete].
Proof.
  intros w schedule.
  assert (H1 : peerRef w = Some 0%nat) by (vm_compute; reflexivity).
  assert (H2 : peer_live 0 [] w).
  { exists (with_open (new_peer true)). repeat split; vm_compute; reflexivity. }
  assert (H3 : sendQueueRef w = []) by (vm_compute; reflexivity).
  assert (H4 : isSendingRef w = false) by (vm_compute; reflexivity).
  assert (H5 : Forall (λ en, fst en ∉ cancelledRef w)
                 (new_entries (at_time 2) [file3; file2])).
  { repeat constructor; apply (bool_decide_unpack _); vm_compute; exact I. }
  destruct (send_files_wire (lib := reference) (at_time 2) [file3; file2] 0 [] w
              H1 H2 H3 H4 H5) as (w1 & Hsend & Hrun).
  repeat (split; [assumption|]). split; [reflexivity|].
  exists w1. split; [exact Hsend|].
  destruct (Hrun schedule) as [Hwire Hend].
  assert (Hnone : snd (run_loop schedule (Some AwaitWakeLock) w1) = None).
  { apply Hend.
    - repeat constructor; vm_compute; discriminate.
    - vm_compute. repeat constructor. }
  split; [exact Hnone|].
  rewrite (Hwire Hnone). reflexivity.
Defined.
